(** * rfpipe: dedispersion, gridding and candidate search

    A shallow embedding of [rfpipe/search.py] and of the helpers of
    [rfpipe/util.py] it calls, with the properties of the detection core
    stated and proved over the embedded functions.

    Number models.
    - Visibility samples ([complex64] in the source) are complex numbers
      with exact rational components ([Qc]): the properties proved about
      the kernels are algebraic identities and cell-by-cell equalities
      that hold up to floating-point rounding.
    - The uv coordinates are rationals ([Q]); the gridders apply one
      quotient by the integer cell size to them, then truncation or
      rounding.
    - Frequencies, dispersion measures and integration times, image
      statistics and significances are IEEE-754 binary64 floats
      ([PrimFloat]), with the operations in the order the source applies
      them; calls into the C library ([x**2], [exp], [log], the normal
      distribution) are parameters. *)

From Stdlib Require Import ZArith QArith Qcanon Qround Floats List Bool Lia.
From stdpp Require Import base tactics option list numbers strings.

#[local] Set Warnings "-abstract-large-number".

Local Open Scope Z_scope.

(** ** Python values that matter: exceptions and results *)

Module Py.

(** The exceptions the embedded functions can raise.  [TypingError] is
    numba's: it is raised at the first call of a [nopython] function that
    the compiler cannot type. *)
Inductive exn : Type :=
| UnboundLocalError
| NameError
| AssertionError
| ValueError
| ZeroDivisionError
| TypeError
| IndexError
| OverflowError
| TypingError.

(** A call either returns a value or raises. *)
Inductive outcome (A : Type) : Type :=
| Ok (a : A)
| Raise (e : exn).
Arguments Ok {A} a.
Arguments Raise {A} e.

Definition bind {A B : Type} (r : outcome A) (k : A -> outcome B) : outcome B :=
  match r with
  | Ok a => k a
  | Raise e => Raise e
  end.

Definition returns {A : Type} (r : outcome A) : bool :=
  match r with Ok _ => true | Raise _ => false end.

(** A [for] loop whose body may raise: the first exception ends the loop. *)
Fixpoint for_each {A S : Type} (body : A -> S -> outcome S) (xs : list A) (s : S)
  : outcome S :=
  match xs with
  | [] => Ok s
  | x :: xs' => bind (body x s) (for_each body xs')
  end.

(** [[f(x) for x in xs]] with a fallible [f]. *)
Fixpoint map_result {A B : Type} (f : A -> outcome B) (xs : list A)
  : outcome (list B) :=
  match xs with
  | [] => Ok []
  | x :: xs' =>
      bind (f x) (fun y => bind (map_result f xs') (fun ys => Ok (y :: ys)))
  end.

End Py.

Export Py.

(** ** [rfpipe/util.py] *)

Module Util.

(** *** Integers out of reals and floats *)

(** [int64(x)] on a real, as the gridders apply it to a uv coordinate in
    cells: truncation toward zero. *)
Definition py_int (x : Q) : Z := Z.quot (Qnum x) (Zpos (Qden x)).

(** Storing a Python integer in an [np.int32] array element keeps its low
    32 bits, read back in two's complement. *)
Definition wrap_int32 (z : Z) : Z := (z + 2 ^ 31) mod 2 ^ 32 - 2 ^ 31.

(** A float turned into an integer, [quo] deciding what becomes of the
    fraction; [nan] and the infinities have no integer ([ValueError] and
    [OverflowError] in Python). *)
Definition float_to_Z (quo : Z -> Z -> Z) (x : float) : outcome Z :=
  match Prim2SF x with
  | S754_nan => Raise ValueError
  | S754_infinity _ => Raise OverflowError
  | S754_zero _ => Ok 0
  | S754_finite s m e =>
      let n := if s then Zneg m else Zpos m in
      Ok (if 0 <=? e then n * 2 ^ e else quo n (2 ^ (- e)))
  end.

(** [int(x)] on a float: truncation toward zero. *)
Definition int_of_float (x : float) : outcome Z := float_to_Z Z.quot x.

(** The floor of a float. *)
Definition floor_of_float (x : float) : outcome Z := float_to_Z Z.div x.

(** [delay[i] = n] for a Python integer [n] and an [np.int32] array (numpy
    1.x): the integer goes through a C long, which refuses what is outside
    64 bits, and is then cut to its low 32 bits. *)
Definition store_int32 (n : Z) : outcome Z :=
  if (- 2 ^ 63 <=? n) && (n <? 2 ^ 63) then Ok (wrap_int32 n)
  else Raise OverflowError.

(** *** [calc_delay] *)

(** The default prefactor [4.1488e-3], as the binary64 value the literal
    denotes. *)
Definition default_scale : float := 0x1.0fe55051512b7p-8%float.

(** [scale = 4.1488e-3 if not scale else scale]: [None] and a zero are
    falsy ([nan] is not). *)
Definition effective_scale (scale : option float) : float :=
  match scale with
  | None => default_scale
  | Some s => if PrimFloat.eqb s 0 then default_scale else s
  end.

Section Delay.

(** [x**2] on a float: the C library's [pow(x, 2.0)]. *)
Variable pow2 : float -> float.

(** The expression inside [int( )]: [scale * dm * (1./freq[i]**2 -
    1./freqref**2)/inttime], with the channel frequency a numpy scalar (so
    is [freqref], [st.freq.max()] at both calls in the repository): a zero
    divisor gives an infinity or [nan], no exception. *)
Definition delay_value (scale dm freqi freqref inttime : float) : float :=
  (scale * dm * (1 / pow2 freqi - 1 / pow2 freqref) / inttime)%float.

(** One pass of the loop body [delay[i] = int(...)]. *)
Definition calc_delay_chan (scale dm freqref inttime freqi : float)
  : outcome Z :=
  bind (int_of_float (delay_value scale dm freqi freqref inttime))
       store_int32.

(** [calc_delay(freq, freqref, dm, inttime, scale)] *)
Definition calc_delay (freq : list float) (freqref dm inttime : float)
    (scale : option float) : outcome (list Z) :=
  let scale := effective_scale scale in
  map_result (calc_delay_chan scale dm freqref inttime) freq.

(** The delay of a channel as the specification and the docstring word it:
    the floor of the same expression. *)
Definition delay_floor (scale dm freqref inttime freqi : float)
  : outcome Z :=
  bind (floor_of_float (delay_value scale dm freqi freqref inttime))
       store_int32.

End Delay.

(** The correctly rounded square, for examples: it is what [pow(x, 2.0)]
    returns wherever the square is a binary64 number. *)
Definition square (x : float) : float := (x * x)%float.

(** *** [madtostd] and the peak signal-to-noise ratio *)

(** A real image: rows of pixels.  The source's images are float32; a zero
    divisor gives the same infinities and nan at either precision. *)
Definition image : Type := list (list float).

Definition pixels (img : image) : list float := concat img.

(** Sorting, as [np.median] does before it picks the middle. *)
Fixpoint insert_sorted (x : float) (l : list float) : list float :=
  match l with
  | [] => [x]
  | y :: l' => if PrimFloat.leb x y then x :: l else y :: insert_sorted x l'
  end.

Definition sort_floats (l : list float) : list float :=
  fold_right insert_sorted [] l.

(** [np.median] of the flattened array (without nan entries): the middle
    element, or the mean of the two middle elements; [nan] for an empty
    array. *)
Definition np_median (l : list float) : float :=
  let s := sort_floats l in
  let n := length s in
  if Nat.eqb n 0 then nan
  else if Nat.odd n then nth (n / 2)%nat s nan
  else ((nth (n / 2 - 1)%nat s nan + nth (n / 2)%nat s nan) / 2)%float.

(** [array.max()]: the reduction keeps [m] when [m >= y] or [m] is nan, so a
    nan entry is what comes out; an empty array raises [ValueError]. *)
Definition np_max (l : list float) : outcome float :=
  match l with
  | [] => Raise ValueError
  | x :: l' =>
      Ok (fold_left (fun m y => if PrimFloat.leb y m || PrimFloat.is_nan m
                                then m else y) l' x)
  end.

(** [1.4826*np.median(np.abs(array-np.median(array)))] *)
Definition madtostd (img : image) : float :=
  let a := pixels img in
  let med := np_median a in
  (0x1.7b8bac710cb29p+0 * np_median (map (fun x => PrimFloat.abs (x - med)) a))%float.

End Util.

(** ** Arrays of visibilities *)

Module Arrays.

(** A [complex64] sample, with exact components. *)
Record complex : Type := Cx { re : Qc; im : Qc }.

Definition czero : complex := Cx 0 0.

Definition cadd (a b : complex) : complex :=
  Cx (re a + re b) (im a + im b).

(** A complex sample divided by an integer ([result/weight], [result/dt]). *)
Definition cdiv_int (a : complex) (n : Z) : complex :=
  Cx (re a / Qc_of_Z n) (im a / Qc_of_Z n).

(** An integer stored in a complex cell ([result[i, j, k, l] = weight]). *)
Definition c_of_int (n : Z) : complex := Cx (Qc_of_Z n) 0.

(** [val != 0j] *)
Definition cnonzero (a : complex) : bool :=
  negb (Qeq_bool (this (re a)) 0 && Qeq_bool (this (im a)) 0).

#[global] Instance complex_inhabited : Inhabited complex := populate czero.

(** The visibility cube, indexed [integration][baseline][channel][pol]. *)
Abbreviation cube := (list (list (list (list complex)))).

(** [data.shape], read off the first element along every axis. *)
Definition shape4 (data : cube) : nat * nat * nat * nat :=
  (length data,
   length (data !!! 0%nat),
   length ((data !!! 0%nat) !!! 0%nat),
   length (((data !!! 0%nat) !!! 0%nat) !!! 0%nat)).

(** [np.zeros(shape=(n, b, c, p))] *)
Definition zeros4 (n b c p : nat) : cube :=
  replicate n (replicate b (replicate c (replicate p czero))).

(** The lengths of all rows, planes and slabs of a cube. *)
Definition skel4 (data : cube) : list (list (list nat)) :=
  map (map (map length)) data.

(** A cube is well formed when it is rectangular, as every numpy array is. *)
Definition wf_cube (data : cube) : bool :=
  let '(n, b, c, p) := shape4 data in
  bool_decide (skel4 data = replicate n (replicate b (replicate c p))).

(** [np.any(data)] *)
Definition np_any (data : cube) : bool :=
  existsb (existsb (existsb (existsb cnonzero))) data.

(** Reading [data[i, j, k, l]].  The kernels are compiled without bounds
    checks; a read outside the array is given the value zero here.  With
    the shapes the wrappers compute and a delay table between 0 and its
    maximum every read is inside. *)
Definition get4 (data : cube) (i j k l : nat) : complex :=
  (((data !!! i) !!! j) !!! k) !!! l.

Definition lookup4 (data : cube) (i j k l : nat) : option complex :=
  a ← data !! i; b ← a !! j; c ← b !! k; c !! l.

(** Changing the cell [data[i, j, k, l]] in place; a cell outside the array
    changes nothing. *)
Definition upd4 (f : complex -> complex) (i j k l : nat) (data : cube) : cube :=
  alter (alter (alter (alter f l) k) j) i data.

(** A negative index counts from the end. *)
Definition np_index (n : nat) (i : Z) : nat :=
  Z.to_nat (if i <? 0 then Z.of_nat n + i else i).

(** [for i in range(n)] over a state. *)
Definition for_range {S : Type} (n : nat) (body : nat -> S -> S) (s : S) : S :=
  fold_left (fun s i => body i s) (seq 0 n) s.

(** [for i in range(a, b)] *)
Definition for_range_from {S : Type} (a n : nat) (body : nat -> S -> S) (s : S) : S :=
  fold_left (fun s i => body i s) (seq a n) s.

(** Reading [delay[k]]; like [get4], a read past the end is given zero. *)
Definition delay_at (delay : list Z) (k : nat) : Z := nth k delay 0.

(** [delay.max()]; an empty array raises [ValueError]. *)
Definition delay_max (delay : list Z) : outcome Z :=
  match delay with
  | [] => Raise ValueError
  | d :: ds => Ok (fold_left Z.max ds d)
  end.

(** [data[0:stop]]: a negative [stop] counts from the end. *)
Definition slice_to {A : Type} (stop : Z) (l : list A) : list A :=
  take (Z.to_nat (if stop <? 0 then Z.of_nat (length l) + stop else stop)) l.

(** A cell index [(i, j, k, l)]. *)
Abbreviation cell := (nat * nat * nat * nat)%type.

Definition upd_cell (f : complex -> complex) (p : cell) (data : cube) : cube :=
  let '(i, j, k, l) := p in upd4 f i j k l data.

Definition lookup_cell (data : cube) (p : cell) : option complex :=
  let '(i, j, k, l) := p in lookup4 data i j k l.

(** The cells four nested [for] loops visit, in visiting order; [mk] names
    the cell from the four loop counters, outermost first. *)
Definition cells4 (n1 n2 n3 n4 : nat) (mk : nat -> nat -> nat -> nat -> cell)
  : list cell :=
  a ← seq 0 n1; b ← seq 0 n2; c ← seq 0 n3; d ← seq 0 n4; [mk a b c d].

End Arrays.

(** ** [rfpipe/search.py]: dedispersion and resampling *)

Module Dedisp.
Import Arrays.

(** *** [dedisperse] and its two kernels *)

Definition _dedisperse_jit (data : cube) (delay : list Z) (result : cube)
  : outcome cube :=
  let '(nint, nbl, nchan, npol) := shape4 data in
  bind (delay_max delay) (fun dmax =>
  Ok (for_range nchan (fun k =>
        for_range (Z.to_nat (Z.of_nat nint - dmax)) (fun i =>
          let iprime := Z.of_nat i + delay_at delay k in
          for_range npol (fun l =>
            for_range nbl (fun j result =>
              upd4 (fun _ => get4 data (np_index nint iprime) j k l)
                   i j k l result))))
        result)).

(** The body of [_dedisperse_gu] for one baseline [b]: it sees the view
    [np.swapaxes(data, 0, 1)[b]] of the copy and overwrites it in place. *)
Definition _dedisperse_gu_core (b : nat) (delay : list Z) (data : cube)
  : outcome cube :=
  let '(nint, _, nchan, npol) := shape4 data in
  bind (delay_max delay) (fun dmax =>
  if 0 <? dmax then
    Ok (for_range (Z.to_nat (Z.of_nat nint - dmax)) (fun i =>
          for_range nchan (fun j =>
            let iprime := Z.of_nat i + delay_at delay j in
            for_range npol (fun k data =>
              upd4 (fun _ => get4 data (np_index nint iprime) b j k)
                   i b j k data)))
          data)
  else Ok data).

(** The generalized ufunc, layout [(n,m,l),(m)]: a delay table whose length
    is not the length of the channel axis is refused with [ValueError];
    otherwise the body runs once per baseline. *)
Definition _dedisperse_gu (data : cube) (delay : list Z) : outcome cube :=
  let '(_, nbl, nchan, _) := shape4 data in
  if negb (Nat.eqb (length delay) nchan) then Raise ValueError
  else for_each (fun b => _dedisperse_gu_core b delay) (seq 0 nbl) data.

Definition dedisperse (data : cube) (delay : list Z) (parallel : bool)
  : outcome cube :=
  if negb (np_any data) then Ok []
  else
    bind (delay_max delay) (fun dmax =>
    let '(nint, nbl, nchan, npol) := shape4 data in
    if parallel then
      bind (_dedisperse_gu data delay) (fun data =>
      Ok (slice_to (Z.of_nat (length data) - dmax) data))
    else if Z.of_nat nint - dmax <? 0 then Raise ValueError
    else
      let result := zeros4 (Z.to_nat (Z.of_nat nint - dmax)) nbl nchan npol in
      _dedisperse_jit data delay result).

(** *** [resample] and its two kernels *)

Definition _resample_jit (data : cube) (dt : Z) (result : cube) : outcome cube :=
  let '(nint, nbl, nchan, npol) := shape4 data in
  if dt =? 0 then Raise ZeroDivisionError
  else
  Ok (for_range nbl (fun j =>
        for_range nchan (fun k =>
          for_range npol (fun l =>
            for_range (Z.to_nat (Z.of_nat nint / dt)) (fun i result =>
              let iprime := Z.of_nat i * dt in
              let result :=
                upd4 (fun _ => get4 data (np_index nint iprime) j k l)
                     i j k l result in
              let result :=
                for_range_from 1 (Z.to_nat (dt - 1)) (fun r result =>
                  upd4 (fun c => cadd c (get4 data (np_index nint (iprime + Z.of_nat r)) j k l))
                       i j k l result) result in
              upd4 (fun c => cdiv_int c dt) i j k l result))))
        result).

(** The body of [_resample_gu] for one (pol, baseline, channel): the time
    series [np.swapaxes(data, 0, 3)[l, j, k]], overwritten in place. *)
Definition _resample_gu_core (dt : Z) (l j k : nat) (data : cube) : cube :=
  let '(nint, _, _, _) := shape4 data in
  if 1 <? dt then
    for_range (Z.to_nat (Z.of_nat nint / dt)) (fun i data =>
      let iprime := Z.of_nat i * dt in
      let data :=
        upd4 (fun _ => get4 data (np_index nint iprime) j k l) i j k l data in
      let data :=
        for_range_from 1 (Z.to_nat (dt - 1)) (fun r data =>
          upd4 (fun c => cadd c (get4 data (np_index nint (iprime + Z.of_nat r)) j k l))
               i j k l data) data in
      upd4 (fun c => cdiv_int c dt) i j k l data) data
  else data.

Definition _resample_gu (data : cube) (dt : Z) : cube :=
  let '(_, nbl, nchan, npol) := shape4 data in
  for_range npol (fun l =>
    for_range nbl (fun j =>
      for_range nchan (fun k => _resample_gu_core dt l j k))) data.

Definition resample (data : cube) (dt : Z) (parallel : bool) : outcome cube :=
  if negb (np_any data) then Ok []
  else
    let len0 := length data in
    let '(nint, nbl, nchan, npol) := shape4 data in
    if dt =? 0 then Raise ZeroDivisionError
    else if parallel then
      let data := _resample_gu data dt in
      Ok (slice_to (Z.of_nat len0 / dt) data)
    else if Z.of_nat nint / dt <? 0 then Raise ValueError
    else
      let result := zeros4 (Z.to_nat (Z.of_nat nint / dt)) nbl nchan npol in
      _resample_jit data dt result.

(** *** [dedisperseresample] and its two kernels *)

(** [a // b] on numpy integers, outside compiled code: division by zero
    gives 0 with a warning, where Python's own integers raise. *)
Definition np_floordiv (a b : Z) : Z := if b =? 0 then 0 else a / b.

(** The [for r in range(dt)] loop of [_dedisperseresample_jit] at the cell
    [(i, j, k, l)]: the running sum is kept in [result[i, j, k, l]], the
    count of non-zero samples in [weight]. *)
Definition accumulate_jit (data : cube) (delay : list Z) (dt : Z) (nint : nat)
    (i j k l : nat) (result : cube) : cube * Z :=
  for_range (Z.to_nat dt) (fun r '(result, weight) =>
    let iprime := Z.of_nat i * dt + delay_at delay k + Z.of_nat r in
    let val := get4 data (np_index nint iprime) j k l in
    (upd4 (fun c => cadd c val) i j k l result,
     if cnonzero val then weight + 1 else weight))
    (result, 0).

Definition _dedisperseresample_jit (data : cube) (delay : list Z) (dt : Z)
    (result : cube) : cube :=
  let '(nint, nbl, nchan, npol) := shape4 data in
  let nintout := length result in
  for_range nbl (fun j =>
    for_range npol (fun l =>
      for_range nchan (fun k =>
        for_range nintout (fun i result =>
          let '(result, weight) :=
            accumulate_jit data delay dt nint i j k l result in
          if 0 <? weight
          then upd4 (fun c => cdiv_int c weight) i j k l result
          else upd4 (fun _ => c_of_int weight) i j k l result))))
    result.

(** The body of [_dedisperseresample_gu] for one baseline [b], in place. *)
Definition _dedisperseresample_gu_core (b : nat) (delay : list Z) (dt : Z)
    (data : cube) : outcome cube :=
  let '(nint, _, nchan, npol) := shape4 data in
  bind (delay_max delay) (fun dmax =>
  if (0 <? dmax) || (1 <? dt) then
    if dt =? 0 then Raise ZeroDivisionError
    else
    Ok (for_range npol (fun l =>
          for_range nchan (fun k =>
            for_range (Z.to_nat ((Z.of_nat nint - dmax) / dt)) (fun i data =>
              let '(data, weight) :=
                for_range (Z.to_nat dt) (fun r '(data, weight) =>
                  let iprime := Z.of_nat i * dt + delay_at delay k + Z.of_nat r in
                  let val := get4 data (np_index nint iprime) b k l in
                  (if Nat.eqb r 0
                   then upd4 (fun _ => val) i b k l data
                   else upd4 (fun c => cadd c val) i b k l data,
                   if cnonzero val then weight + 1 else weight))
                  (data, 0) in
              if 0 <? weight
              then upd4 (fun c => cdiv_int c weight) i b k l data
              else upd4 (fun _ => c_of_int weight) i b k l data)))
          data)
  else Ok data).

(** The generalized ufunc, layout [(n,m,l),(m),()]: the delay table must
    have one entry per channel. *)
Definition _dedisperseresample_gu (data : cube) (delay : list Z) (dt : Z)
  : outcome cube :=
  let '(_, nbl, nchan, _) := shape4 data in
  if negb (Nat.eqb (length delay) nchan) then Raise ValueError
  else
    for_each (fun b => _dedisperseresample_gu_core b delay dt) (seq 0 nbl) data.

(** [dedisperseresample(data, delay, dt, parallel)].  The output length
    [int64(nint - delay.max())//dt] and the stop of the parallel slice are
    quotients of numpy integers: a zero [dt] gives a length of 0 there, and
    raises only inside the compiled parallel kernel. *)
Definition dedisperseresample (data : cube) (delay : list Z) (dt : Z)
    (parallel : bool) : outcome cube :=
  if negb (np_any data) then Ok []
  else
    bind (delay_max delay) (fun dmax =>
    let '(nint, nbl, nchan, npol) := shape4 data in
    if parallel then
      bind (_dedisperseresample_gu data delay dt) (fun data =>
      Ok (slice_to (np_floordiv (Z.of_nat (length data) - dmax) dt) data))
    else if np_floordiv (Z.of_nat nint - dmax) dt <? 0 then Raise ValueError
    else
      let result :=
        zeros4 (Z.to_nat (np_floordiv (Z.of_nat nint - dmax) dt)) nbl nchan npol in
      Ok (_dedisperseresample_jit data delay dt result)).

(** *** The fused kernel as the specification words it *)

(** The [dt] input samples [in[i*dt + delay[k] + r]], [r] in [[0, dt)]. *)
Definition samples (data : cube) (delay : list Z) (dt : Z) (i j k l : nat)
  : list complex :=
  map (fun r =>
         get4 data
              (np_index (length data)
                        (Z.of_nat i * dt + delay_at delay k + Z.of_nat r))
              j k l)
      (seq 0 (Z.to_nat dt)).

(** The per-cell weight: the number of non-zero samples. *)
Definition weight_of (vals : list complex) : Z :=
  Z.of_nat (length (List.filter cnonzero vals)).

(** The sum divided by the weight, or zero for a cell without weight. *)
Definition weighted_mean (vals : list complex) : complex :=
  if 0 <? weight_of vals
  then cdiv_int (fold_left cadd vals czero) (weight_of vals)
  else czero.

(** What one pass of the loop body of [_dedisperseresample_jit] leaves in
    the cell [p] that held [c]. *)
Definition jit_cell (data : cube) (delay : list Z) (dt : Z) (p : cell)
    (c : complex) : complex :=
  let '(i, j, k, l) := p in
  let vals := samples data delay dt i j k l in
  if 0 <? weight_of vals
  then cdiv_int (fold_left cadd vals c) (weight_of vals)
  else c_of_int (weight_of vals).

(** A small cube for examples: four integrations, one baseline, two
    channels, one polarization; two samples are flagged. *)
Definition example_cube : cube :=
  [ [[[c_of_int 1]; [c_of_int 2]]];
    [[[c_of_int 0]; [c_of_int 4]]];
    [[[c_of_int 5]; [c_of_int 6]]];
    [[[c_of_int 7]; [c_of_int 0]]] ].

End Dedisp.

(** ** [rfpipe/search.py]: gridding *)

Module Grid.
Import Arrays.

(** One integration's grid, indexed [u][v], and a coordinate table indexed
    [baseline][channel]. *)
Abbreviation uvgrid := (list (list complex)).
Abbreviation coords := (list (list Q)).
Abbreviation slab := (list (list (list complex))).

(** [u[j, k]] *)
Definition coord_at (u : coords) (j k : nat) : Q := nth k (nth j u []) 0%Q.

(** [np.round(x, 0)]: to the nearest integer, halves to the even one. *)
Definition np_round (x : Q) : Z :=
  let f := Qfloor x in
  match ((x - inject_Z f) ?= 1 # 2)%Q with
  | Lt => f
  | Gt => f + 1
  | Eq => if Z.even f then f else f + 1
  end.

(** [np.abs] of a comparison: the absolute value of a boolean is that
    boolean. *)
Definition np_abs_bool (b : bool) : bool := b.

(** [grids[i, x, y] += val] and [grid[x, y] += val] *)
Definition upd2 (f : complex -> complex) (x y : nat) (g : uvgrid) : uvgrid :=
  alter (alter f y) x g.

Definition upd3 (f : complex -> complex) (i x y : nat) (grids : list uvgrid)
  : list uvgrid :=
  alter (upd2 f x y) i grids.

Definition get3 (data : slab) (j k l : nat) : complex :=
  ((data !!! j) !!! k) !!! l.

(** [u[j, k]/uvres] *)
Definition scaled (u : coords) (uvres : Z) (j k : nat) : Q :=
  (coord_at u j k / inject_Z uvres)%Q.

(** The sequential kernel.  [int64( )] truncates; the field test is written
    [np.abs(ubl < npixx//2)] in the source.  A zero [uvres] divides by zero
    as soon as one (baseline, channel) pair is visited. *)
Definition _grid_visibilities_jit (data : cube) (u v w : coords)
    (npixx npixy uvres : Z) (grids : list uvgrid) : outcome (list uvgrid) :=
  let '(nint, nbl, nchan, npol) := shape4 data in
  if (uvres =? 0) && negb (Nat.eqb (nbl * nchan) 0) then Raise ZeroDivisionError
  else
  Ok (for_range nbl (fun j =>
        for_range nchan (fun k grids =>
          let ubl := Util.py_int (scaled u uvres j k) in
          let vbl := Util.py_int (scaled v uvres j k) in
          if np_abs_bool (ubl <? npixx / 2) && np_abs_bool (vbl <? npixy / 2)
          then
            let umod := ubl mod npixx in
            let vmod := vbl mod npixy in
            for_range nint (fun i =>
              for_range npol (fun l grids =>
                upd3 (fun c => cadd c (get4 data i j k l))
                     i (Z.to_nat umod) (Z.to_nat vmod) grids)) grids
          else grids))
        grids).

(** The body of [_grid_visibilities_gu] for one integration: [data] is that
    integration's (baseline, channel, pol) slab and [grid] its grid. *)
Definition _grid_visibilities_gu_core (data : slab) (us vs ws : coords)
    (npixx npixy uvres : Z) (grid : uvgrid) : uvgrid :=
  for_range (length data) (fun j =>
    for_range (length (data !!! 0%nat)) (fun k grid =>
      let ubl := np_round (scaled us uvres j k) in
      let vbl := np_round (scaled vs uvres j k) in
      if (Z.abs ubl <? npixx / 2) && (Z.abs vbl <? npixy / 2)
      then
        let u := ubl mod npixx in
        let v := vbl mod npixy in
        for_range (length ((data !!! 0%nat) !!! 0%nat)) (fun l grid =>
          upd2 (fun c => cadd c (get3 data j k l))
               (Z.to_nat u) (Z.to_nat v) grid) grid
      else grid))
    grid.

(** The generalized ufunc: the body runs once per integration, on
    [data[i]] and [grids[i]]. *)
Definition _grid_visibilities_gu (data : cube) (us vs ws : coords)
    (npixx npixy uvres : Z) (grids : list uvgrid) : outcome (list uvgrid) :=
  let '(nint, nbl, nchan, npol) := shape4 data in
  if (uvres =? 0) && negb (Nat.eqb (nint * nbl * nchan) 0)
  then Raise ZeroDivisionError
  else
  Ok (for_range nint (fun i grids =>
        alter (_grid_visibilities_gu_core (data !!! i) us vs ws
                 npixx npixy uvres) i grids)
        grids).

(** [np.zeros(shape=(nint, npixx, npixy))]; a negative size raises. *)
Definition zero_grids (nint : nat) (npixx npixy : Z) : list uvgrid :=
  replicate nint (replicate (Z.to_nat npixx) (replicate (Z.to_nat npixy) czero)).

Definition grid_visibilities (data : cube) (uvw : coords * coords * coords)
    (npixx npixy uvres : Z) (parallel : bool) : outcome (list uvgrid) :=
  let '(u, v, w) := uvw in
  if (npixx <? 0) || (npixy <? 0) then Raise ValueError
  else
    let grids := zero_grids (length data) npixx npixy in
    if parallel
    then _grid_visibilities_gu data u v w npixx npixy uvres grids
    else _grid_visibilities_jit data u v w npixx npixy uvres grids.

(** *** The gridder as the specification words it

    For each (baseline, channel): grid coordinates [u' = rnd(u/cellRes)],
    [v' = rnd(v/cellRes)]; the pair is discarded when [|u'| >= npixx//2] or
    [|v'| >= npixy//2]; kept coordinates are folded by modulo; all
    polarizations are accumulated at that cell for every integration.  The
    way of turning a real into an integer is the parameter [rnd]. *)
Definition grid_pairs (rnd : Q -> Z) (data : cube) (u v : coords)
    (npixx npixy cellRes : Z) (grids : list uvgrid) : list uvgrid :=
  let '(nint, nbl, nchan, npol) := shape4 data in
  for_range nbl (fun j =>
    for_range nchan (fun k grids =>
      let u' := rnd (scaled u cellRes j k) in
      let v' := rnd (scaled v cellRes j k) in
      if (npixx / 2 <=? Z.abs u') || (npixy / 2 <=? Z.abs v') then grids
      else
        for_range nint (fun i =>
          for_range npol (fun l grids =>
            upd3 (fun c => cadd c (get4 data i j k l))
                 i (Z.to_nat (u' mod npixx)) (Z.to_nat (v' mod npixy)) grids))
          grids))
    grids.

Definition grid_spec (rnd : Q -> Z) (data : cube)
    (uvw : coords * coords * coords) (npixx npixy cellRes : Z)
  : outcome (list uvgrid) :=
  let '(u, v, w) := uvw in
  let '(nint, nbl, nchan, npol) := shape4 data in
  if (npixx <? 0) || (npixy <? 0) then Raise ValueError
  else if (cellRes =? 0) && negb (Nat.eqb (nint * nbl * nchan) 0)
  then Raise ZeroDivisionError
  else Ok (grid_pairs rnd data u v npixx npixy cellRes
             (zero_grids nint npixx npixy)).

(** *** One integration at a time

    What a pass over the (baseline, channel) pairs does to the grid of a
    single integration whose slab is [d]: [keep] says which pairs are in
    the field, [cu] and [cv] give their cell. *)
Definition pair_acc (keep : nat -> nat -> bool) (cu cv : nat -> nat -> nat)
    (d : slab) (npol j k : nat) (g : uvgrid) : uvgrid :=
  if keep j k
  then for_range npol (fun l g =>
         upd2 (fun c => cadd c (get3 d j k l)) (cu j k) (cv j k) g) g
  else g.

Definition per_int (keep : nat -> nat -> bool) (cu cv : nat -> nat -> nat)
    (d : slab) (nbl nchan npol : nat) (g : uvgrid) : uvgrid :=
  for_range nbl (fun j =>
    for_range nchan (fun k g => pair_acc keep cu cv d npol j k g)) g.

(** The pair-major loop nest shared by the sequential kernel and the
    specification. *)
Definition pairs_kernel (keep : nat -> nat -> bool) (cu cv : nat -> nat -> nat)
    (data : cube) (nint nbl nchan npol : nat) (grids : list uvgrid)
  : list uvgrid :=
  for_range nbl (fun j =>
    for_range nchan (fun k grids =>
      if keep j k
      then for_range nint (fun i =>
             for_range npol (fun l grids =>
               upd3 (fun c => cadd c (get4 data i j k l))
                    i (cu j k) (cv j k) grids)) grids
      else grids))
    grids.

(** Field test and cell of a pair, for a given way of making integers. *)
Definition in_field (rnd : Q -> Z) (u v : coords) (npixx npixy uvres : Z)
    (j k : nat) : bool :=
  negb ((npixx / 2 <=? Z.abs (rnd (scaled u uvres j k)))
        || (npixy / 2 <=? Z.abs (rnd (scaled v uvres j k)))).

Definition cell_of (rnd : Q -> Z) (u : coords) (npix uvres : Z) (j k : nat)
  : nat :=
  Z.to_nat (rnd (scaled u uvres j k) mod npix).

(** Every (baseline, channel) pair of the data has the property [P]. *)
Definition all_pairs (data : cube) (P : nat -> nat -> Prop) : Prop :=
  forall j k,
    (j < length (data !!! 0%nat))%nat ->
    (k < length ((data !!! 0%nat) !!! 0%nat))%nat -> P j k.

Definition all_pairs_b (data : cube) (P : nat -> nat -> bool) : bool :=
  forallb (fun j =>
             forallb (fun k => P j k)
                     (seq 0 (length ((data !!! 0%nat) !!! 0%nat))))
          (seq 0 (length (data !!! 0%nat))).

(** Truncation and rounding give the pair [(j, k)] the same coordinates. *)
Definition coords_agree (u v : coords) (uvres : Z) (j k : nat) : bool :=
  (Util.py_int (scaled u uvres j k) =? np_round (scaled u uvres j k))
  && (Util.py_int (scaled v uvres j k) =? np_round (scaled v uvres j k)).

(** The truncated coordinates of the pair [(j, k)] are above minus half the
    grid size. *)
Definition above_lower_edge (u v : coords) (npixx npixy uvres : Z)
    (j k : nat) : bool :=
  (- (npixx / 2) <? Util.py_int (scaled u uvres j k))
  && (- (npixy / 2) <? Util.py_int (scaled v uvres j k)).

(** Two integrations, two baselines, one channel, two polarizations, on
    integral cells. *)
Definition grid_example : cube :=
  [ [ [[c_of_int 1; c_of_int 2]]; [[c_of_int 3; c_of_int 4]] ];
    [ [[c_of_int 5; c_of_int 6]]; [[c_of_int 7; c_of_int 8]] ] ].
Definition grid_example_uvw : coords * coords * coords :=
  ([[1]; [-1 # 1]], [[0]; [1]], [[0]; [0]])%Q.

(** One integration, one baseline, one channel, one polarization, a unit
    sample at [u = 3/5] cells. *)
Definition one_sample : cube := [[[[c_of_int 1]]]].
Definition off_centre : coords * coords * coords :=
  ([[3 # 5]], [[0]], [[0]])%Q.

(** Is the cell [(x, y)] of the first grid non-zero? *)
Definition lit (r : outcome (list uvgrid)) (x y : nat) : bool :=
  match r with
  | Ok gs => cnonzero (((gs !!! 0%nat) !!! x) !!! y)
  | Raise _ => false
  end.

End Grid.

(** ** [rfpipe/search.py]: Kalman significance *)

Module Kalman.
Import Util.

Local Open Scope float_scope.

(** Division in a function compiled by [@jit(nopython=True)]: like Python's
    own, it raises [ZeroDivisionError] on a zero divisor. *)
Definition fdiv (x y : float) : outcome float :=
  if PrimFloat.eqb y 0 then Raise ZeroDivisionError else Ok (x / y).

Definition fsum (l : list float) : float := fold_left PrimFloat.add l 0.

(** [array.mean()] *)
Definition np_mean (l : list float) : float :=
  fsum l / PrimFloat.of_uint63 (Uint63.of_Z (Z.of_nat (length l))).

(** [np.pi] *)
Definition np_pi : float := 0x1.921fb54442d18p+1.

(** The four default smoothness scales, as fractions of the median noise:
    [[x*np.median(spec_std) for x in [0.3, 0.1, 0.03, 0.01]]]. *)
Definition default_sig_ts (spec_std : list float) : list float :=
  map (fun x => x * np_median spec_std)
      [0x1.3333333333333p-2; 0x1.999999999999ap-4;
       0x1.eb851eb851eb8p-6; 0x1.47ae147ae147bp-7].

(** [2 ** (-i)] *)
Fixpoint pow2_neg (i : nat) : float :=
  match i with
  | O => 1
  | S i' => pow2_neg i' / 2
  end.

(** [float(i)] for a small count. *)
Definition float_of_nat (i : nat) : float :=
  PrimFloat.of_uint63 (Uint63.of_Z (Z.of_nat i)).

(** The default [n_trial=10000] of [kalman_prepare_coeffs]. *)
Definition default_n_trial : nat := 10000.

(** The third argument of [kalman_prepare_coeffs]: [None], a single float,
    or a list. *)
Inductive sig_ts_arg : Type :=
| SigNone
| SigOne (sig_t : float)
| SigList (sig_ts : list float).

(** What the name [coeffs] is bound to inside [kalman_significance]: the
    list of (slope, intercept) pairs the caller passed, or whatever
    [kalman_prepare_coeffs] returned, which is the tuple
    [(sig_ts, coeffs)]. *)
Inductive coeffs_value : Type :=
| CoeffList (coeffs : list (float * float))
| PreparedTuple (sig_ts : list float) (coeffs : list (float * float)).

(** [len(coeffs)]: a tuple of two things has length 2. *)
Definition py_len (c : coeffs_value) : nat :=
  match c with
  | CoeffList coeffs => length coeffs
  | PreparedTuple _ _ => 2
  end.

Section Numerics.

(** The numerical library calls that are not modelled further: the
    logarithm, the random generator with its state, the percentile and the
    straight-line fit. *)
Variable np_log : float -> float.
Variable rng : Type.
Variable random_normal : list float -> nat -> rng -> list float * rng.
Variable np_percentile : list float -> float -> float.
Variable np_polyfit1 : list float -> list float -> float * float.

(** One channel of the filter: the running log-likelihood, mean and
    variance. *)
Definition kalman_step (sig_t : float) (zs : float * float)
    (st : float * float * float) : outcome (float * float * float) :=
  let '(cur_z, std_i) := zs in
  let '(cur_log_l, cur_mu, cur_state_v) := st in
  let cur_spec_v := std_i * std_i in
  let tot := cur_state_v + cur_spec_v + sig_t * sig_t in
  bind (fdiv (- ((cur_z - cur_mu) * (cur_z - cur_mu))) tot) (fun q =>
  let cur_log_l := cur_log_l + (q / 2 - 0.5 * np_log (2 * np_pi * tot)) in
  bind (fdiv cur_mu cur_state_v) (fun a =>
  bind (fdiv cur_z cur_spec_v) (fun b =>
  bind (fdiv 1 cur_state_v) (fun c =>
  bind (fdiv 1 cur_spec_v) (fun d =>
  bind (fdiv (a + b) (c + d)) (fun cur_mu =>
  bind (fdiv (cur_spec_v * cur_state_v) (cur_spec_v + cur_state_v)) (fun e =>
  Ok (cur_log_l, cur_mu, e + sig_t * sig_t)))))))).

(** [kalman_filter_detector(spec, spec_std, sig_t)] with [A_0] and [sig_0]
    left at [None]; [spec] and [spec_std] have one entry per channel. *)
Definition kalman_filter_detector (spec spec_std : list float) (sig_t : float)
  : outcome float :=
  let A_0 := np_mean spec in
  let sig_0 := np_median spec_std in
  let m := np_mean spec in
  let spec := map (fun x => x - m) spec in
  bind (for_each (kalman_step sig_t) (combine spec spec_std)
          (0, A_0, sig_0 * sig_0)) (fun st =>
  let '(cur_log_l, _, _) := st in
  let H_0_log_likelihood :=
    - fsum (map (fun zs => fst zs * fst zs / (snd zs * snd zs) / 2)
                (combine spec spec_std))
    - fsum (map (fun s => 0.5 * np_log (2 * np_pi * (s * s))) spec_std) in
  Ok (cur_log_l - H_0_log_likelihood)).

(** The [n_trial] noise-only spectra of one smoothness scale and their
    scores; the generator state is threaded through. *)
Fixpoint random_scores (data_std : list float) (sig_t : float) (n_trial : nat)
    (g : rng) : outcome (list float * rng) :=
  match n_trial with
  | O => Ok ([], g)
  | S n =>
      let '(normaldist, g) := random_normal data_std (length data_std) g in
      let m := np_mean normaldist in
      let normaldist := map (fun x => x - m) normaldist in
      bind (kalman_filter_detector normaldist data_std sig_t) (fun score =>
      bind (random_scores data_std sig_t n g) (fun '(scores, g) =>
      Ok (score :: scores, g)))
  end.

(** The fit of one scale: percentiles [100*(1 - 2**(-i))], [i] in
    [range(3, 10)], against [range(3, 10)]. *)
Definition fit_tail (scores : list float) : float * float :=
  np_polyfit1
    (map (fun i => np_percentile scores (100 * (1 - pow2_neg i))) (seq 3 7))
    (map float_of_nat (seq 3 7)).

Fixpoint prepare_loop (data_std : list float) (n_trial : nat)
    (sig_ts : list float) (g : rng) : outcome (list (float * float) * rng) :=
  match sig_ts with
  | [] => Ok ([], g)
  | sig_t :: rest =>
      bind (random_scores data_std sig_t n_trial g) (fun '(scores, g) =>
      bind (prepare_loop data_std n_trial rest g) (fun '(coeffs, g) =>
      Ok (fit_tail scores :: coeffs, g)))
  end.

(** [kalman_prepare_coeffs(data_std, sig_ts, n_trial)]: returns the tuple
    [(sig_ts, coeffs)].  A list of scales is used as it is (after a
    warning). *)
Definition kalman_prepare_coeffs (data_std : list float) (sig_ts : sig_ts_arg)
    (n_trial : nat) (g : rng)
  : outcome (list float * list (float * float) * rng) :=
  let sig_ts :=
    match sig_ts with
    | SigNone => default_sig_ts data_std
    | SigOne sig_t => [sig_t]
    | SigList sig_ts => sig_ts
    end in
  bind (prepare_loop data_std n_trial sig_ts g) (fun '(coeffs, g) =>
  Ok (sig_ts, coeffs, g)).

(** The scores of all scales, [kalman_filter_detector(spec, spec_std,
    sig_t)] for each [sig_t]. *)
Definition detector_scores (spec spec_std sig_ts : list float)
  : outcome (list float) :=
  map_result (kalman_filter_detector spec spec_std) sig_ts.

(** [kalman_significance(spec, spec_std, sig_ts, coeffs)].  With an empty
    [coeffs] the name is rebound to the whole return value of
    [kalman_prepare_coeffs].  Should that tuple pass the assertion (two
    scales), [coeffs[0]] and [coeffs[1]] are its two components and
    [np.max] is handed a ragged list, which it refuses. *)
Definition kalman_significance (spec spec_std sig_ts : list float)
    (coeffs : list (float * float)) (g : rng) : outcome (float * rng) :=
  let sig_ts :=
    if Nat.eqb (length sig_ts) 0 then default_sig_ts spec_std else sig_ts in
  bind (if Nat.eqb (length coeffs) 0
        then bind (kalman_prepare_coeffs spec_std (SigList sig_ts) default_n_trial g)
               (fun '(s, c, g) => Ok (PreparedTuple s c, g))
        else Ok (CoeffList coeffs, g)) (fun '(coeffs, g) =>
  if negb (Nat.eqb (length sig_ts) (py_len coeffs)) then Raise AssertionError
  else
    bind (detector_scores spec spec_std sig_ts) (fun scores =>
    match coeffs with
    | CoeffList coeffs =>
        let significances :=
          map (fun '(score, (x_coeff, const_coeff)) =>
                 x_coeff * score + const_coeff) (combine scores coeffs) in
        bind (np_max significances) (fun m => Ok (m * np_log 2, g))
    | PreparedTuple _ _ => Raise ValueError
    end)).

End Numerics.

(** *** Stand-ins for the numerical library, for examples *)

(** A generator without randomness: every draw is the noise level itself. *)
Definition flat_normal (data_std : list float) (size : nat) (g : unit)
  : list float * unit :=
  (map (fun i => nth i data_std 0%float) (seq 0 size), g).

(** The largest score, whatever the percentile asked for. *)
Definition top_percentile (scores : list float) (q : float) : float :=
  fold_left (fun m y => if PrimFloat.ltb m y then y else m) scores 0.

(** A fit through the first point with unit slope. *)
Definition unit_fit (xs ys : list float) : float * float :=
  (1, nth 0 ys 0 - nth 0 xs 0).

(** A logarithm stand-in; no example depends on its values. *)
Definition flat_log (x : float) : float := 0.

End Kalman.
(** ** [rfpipe/search.py]: gridding along one arm *)

Module Arms.
Import Arrays Grid.

(** [grid_visibilities_arm_jit(data, uvd, npix, uvres, grids)]: [grids] is
    indexed [integration][pixel].  As in the two-dimensional kernel,
    [int64( )] truncates, the field test is written [np.abs(uvbl <
    npix//2)], and a zero [uvres] divides by zero as soon as one (baseline,
    channel) pair is visited. *)
Definition grid_visibilities_arm_jit (data : cube) (uvd : coords)
    (npix uvres : Z) (grids : uvgrid) : outcome uvgrid :=
  let '(nint, nbl, nchan, npol) := shape4 data in
  if (uvres =? 0) && negb (Nat.eqb (nbl * nchan) 0) then Raise ZeroDivisionError
  else
  Ok (for_range nbl (fun j =>
        for_range nchan (fun k grids =>
          let uvbl := Util.py_int (scaled uvd uvres j k) in
          if np_abs_bool (uvbl <? npix / 2)
          then
            let uvmod := uvbl mod npix in
            for_range nint (fun i =>
              for_range npol (fun l grids =>
                upd2 (fun c => cadd c (get4 data i j k l))
                     i (Z.to_nat uvmod) grids)) grids
          else grids))
        grids).

(** [grids[i, p]] *)
Definition pixel_at (grids : uvgrid) (i p : nat) : option complex :=
  row ← grids !! i; row !! p.

(** The pair [(j, k)] is kept and falls on the pixel [p]. *)
Definition on_pixel (uvd : coords) (npix uvres : Z) (j k p : nat) : bool :=
  let uvbl := Util.py_int (scaled uvd uvres j k) in
  (uvbl <? npix / 2) && bool_decide (Z.to_nat (uvbl mod npix) = p).

(** The samples of the integration [i] that fall on the pixel [p], in the
    order of the loops: baselines, then channels, then polarizations. *)
Definition arm_samples (data : cube) (uvd : coords) (npix uvres : Z)
    (i p : nat) : list complex :=
  let '(nint, nbl, nchan, npol) := shape4 data in
  j ← seq 0 nbl; k ← seq 0 nchan;
  if on_pixel uvd npix uvres j k p
  then map (fun l => get4 data i j k l) (seq 0 npol)
  else [].

(** What the kernel does to the row of the integration [i]. *)
Definition arm_row (data : cube) (uvd : coords) (npix uvres : Z) (i : nat)
    (row : list complex) : list complex :=
  let '(nint, nbl, nchan, npol) := shape4 data in
  for_range nbl (fun j =>
    for_range nchan (fun k row =>
      let uvbl := Util.py_int (scaled uvd uvres j k) in
      if np_abs_bool (uvbl <? npix / 2)
      then
        for_range npol (fun l row =>
          alter (fun c => cadd c (get4 data i j k l))
                (Z.to_nat (uvbl mod npix)) row) row
      else row))
    row.

End Arms.

(** ** [rfpipe/search.py]: searching, imaging, thresholding *)

Module Search.
Import Util Arrays Grid Arms.

Local Open Scope string_scope.
Local Open Scope Z_scope.

(** *** Preferences, state and candidates *)

Record Prefs : Type := {
  fftmode : string;
  searchtype : string;
  nthread : Z;
  timewindow : Z;
  memory_limit : float;
  sigma_kalman : float;
  sigma_arm : float;
  sigma_arms : float
}.

(** The part of the pipeline state the search reads.  [get_search_ints] is
    the integration-selection policy [(segment, dmind, dtind) ->
    integrations]; [blarr_arms] names, for every baseline, the arm of each
    of its two antennas. *)
Record State : Type := {
  prefs : Prefs;
  dtarr : list Z;
  dmarr : list float;
  freq : list float;
  inttime : float;
  blarr_arms : list (list string);
  npixx : Z;
  npixy : Z;
  nchan : Z;
  npol : Z;
  uvres : Z;
  sigma_image1 : float;
  get_search_ints : nat -> nat -> nat -> list nat
}.

(** [(segment, integration, dmind, dtind, beamnum)] *)
Abbreviation candloc := (nat * nat * nat * nat * nat)%type.
Abbreviation uvw_t := (coords * coords * coords)%type.

(** [candidates.CandData(state, loc, image, data, snrk, snrarm)] *)
Record CandData : Type := {
  loc : candloc;
  cd_image : image;
  cd_data : slab;
  snrk : option float;
  snrarm : option float
}.

(** The [integrations] argument: [None], one integer, or a list. *)
Inductive ints_arg : Type :=
| IntsNone
| IntsOne (i : nat)
| IntsList (l : list nat).

(** The statistics [image.stats(img_grid)] returns on the GPU. *)
Record gpu_stats : Type := { rms : float; max : float }.

(** *** Log records *)

Inductive level : Type := DEBUG | INFO | WARN.
Abbreviation log_record := (level * string)%type.

(** *** The peak signal-to-noise ratio, as each backend computes it *)

(** GPU path: [if stats['rms'] != 0.: peak_snr = stats['max']/stats['rms']
    else: peak_snr = 0.] *)
Definition peak_snr_cuda (stats : gpu_stats) : float :=
  if negb (PrimFloat.eqb (rms stats) 0)
  then (max stats / rms stats)%float
  else 0%float.

(** FFTW path: [peak_snr = image.max()/util.madtostd(image)], a numpy
    scalar division: a zero divisor gives an infinity or nan, with a
    warning and no exception. *)
Definition peak_snr_fftw (img : image) : outcome float :=
  bind (np_max (pixels img)) (fun m => Ok (m / madtostd img)%float).

(** [len(canddatalist)*bytespercd/1000**3 > st.prefs.memory_limit] *)
Definition bytespercd (st : State) : Z :=
  8 * (npixx st * npixy st + timewindow (prefs st) * nchan st * npol st).

Definition float_of_Z (z : Z) : float := PrimFloat.of_uint63 (Uint63.of_Z z).

Definition over_limit (st : State) (len : nat) : bool :=
  PrimFloat.ltb (memory_limit (prefs st))
    (float_of_Z (Z.of_nat len * bytespercd st) / 0x1.dcd65p+29)%float.

(** [data_corr[max(0, i - tw//2):min(i + tw//2, bound)]]: a slice with a
    negative stop counts from the end, and never reaches past it. *)
Definition window (st : State) (i : nat) (bound : nat) (data_corr : cube)
  : cube :=
  let tw2 := timewindow (prefs st) / 2 in
  let lo := Z.max 0 (Z.of_nat i - tw2) in
  let hi := Z.min (Z.of_nat i + tw2) (Z.of_nat bound) in
  let hi := if hi <? 0 then Z.max 0 (Z.of_nat (length data_corr) + hi) else hi in
  drop (Z.to_nat lo) (take (Z.to_nat hi) data_corr).

(** [data.take(integrations, axis=0)]; an index past the end raises. *)
Definition take_ints (data : cube) (integrations : list nat) : outcome cube :=
  map_result (fun i => match data !! i with
                       | Some d => Ok d
                       | None => Raise IndexError
                       end) integrations.

(** [st.freq.max()] *)
Definition freq_max (fs : list float) : outcome float := np_max fs.

(** [np.where(np.all(st.blarr_arms == arm, axis=1))[0]]: the baselines with
    both antennas on the arm, in increasing order. *)
Definition arm_baselines (arm : string) (blarr : list (list string)) : list nat :=
  map fst (List.filter (fun ib => forallb (String.eqb arm) (snd ib))
             (combine (seq 0 (length blarr)) blarr)).

(** [u.take(arminds, axis=0)]; an index past the end raises. *)
Definition take_rows (u : coords) (arminds : list nat) : outcome coords :=
  map_result (fun j => match u !! j with
                       | Some r => Ok r
                       | None => Raise IndexError
                       end) arminds.

(** [data.take(arminds, axis=1)] *)
Definition take_baselines (data : cube) (arminds : list nat) : outcome cube :=
  let '(_, nbl, _, _) := shape4 data in
  if forallb (fun j => Nat.ltb j nbl) arminds
  then Ok (map (fun d => map (fun j => d !!! j) arminds) data)
  else Raise IndexError.

(** [search_thresh_arms(arm1, arm2, arm3, map_arm123, sigma_arm,
    sigma_arms)] is decorated [@jit(nopython=True)] and so compiled at its
    first call.  Its body calls [scipy.stats.norm.logsf], a Python object
    the compiler has no type for (and indexes [arm3] with an entry of the
    float array [map_arm123]): the compilation fails and the call raises
    before the body runs, whatever the arguments. *)
Definition search_thresh_arms (arm1 arm2 arm3 : image)
    (map_arm123 : list (list float)) (sigma_arm sigma_arms : float)
  : outcome (list (nat * float)) :=
  Raise TypingError.

(** *** External collaborators

    Calls that leave [search.py] and [util.py]: data preparation and the
    candidate module, the baseline geometry, the Fourier transform, the GPU
    library, and the floating-point pieces of phasing, of the Kalman
    statistics and of the delay table ([pow2] is [x**2]).  They are
    parameters of the search.  [rng] is the state of numpy's random
    generator, [Feature] a feature record of [candidates.calc_features].
    [noise_spectrum] is the random choice of off integrations followed by
    the standard deviation of their spectra, for a population large enough
    to draw from; [uv_distance] is [np.sqrt(u**2 + v**2)]; [image_fftw_arm]
    is [image_fftw] on the axes [(1,)]; [normal_map] is
    [np.random.normal(0, 1, size=(npix, npix))]. *)
Record externals : Type := {
  rng : Type;
  Feature : Type;
  data_prep : State -> nat -> cube -> outcome cube;
  save_cands : State -> list Feature -> outcome unit;
  calc_features : list CandData -> list Feature;
  get_uvw_segment : State -> nat -> uvw_t;
  image_fftw : list uvgrid -> list image;
  pixtolm : State -> image -> float * float;
  phase_shift_mean : cube -> uvw_t -> float * float -> slab;
  noise_spectrum : cube -> rng -> list float * rng;
  phased_spectrum : cube -> uvw_t -> nat -> float * float -> list float;
  norm_logsf : float -> float;
  np_log : float -> float;
  random_normal : list float -> nat -> rng -> list float * rng;
  np_percentile : list float -> float -> float;
  np_polyfit1 : list float -> list float -> float * float;
  pow2 : float -> float;
  uv_distance : coords -> coords -> coords;
  image_fftw_arm : uvgrid -> outcome image;
  normal_map : nat -> rng -> list (list float) * rng;
  gpu_image : State -> cube -> nat -> nat -> nat -> gpu_stats * image
}.

(** *** The search functions: generator state and log threaded through,
    exceptions ending the call *)

Section Driver.

Variable ext : externals.

(** Modelled from the spec: a CandidateCollection is an insertion-ordered
    sequence of candidates' feature records that grows by append/merge
    ([candidates.CandCollection] is not part of these sources);
    [CandCollection(prefs, metadata)] is the empty one and [+=] appends. *)
Definition CandCollection : Type := list (Feature ext).

Record world : Type := { gen : rng ext; log : list log_record }.

Definition M (A : Type) : Type := world -> outcome A * world.

Definition ret {A : Type} (a : A) : M A := fun w => (Ok a, w).

Definition raise {A : Type} (e : exn) : M A := fun w => (Raise e, w).

Definition bindM {A B : Type} (m : M A) (k : A -> M B) : M B :=
  fun w => match m w with
           | (Ok a, w') => k a w'
           | (Raise e, w') => (Raise e, w')
           end.

Definition lift {A : Type} (r : outcome A) : M A := fun w => (r, w).

Definition logger (lv : level) (msg : string) : M unit :=
  fun w => (Ok tt, {| gen := gen w; log := (log w ++ [(lv, msg)])%list |}).

Definition with_rng {A : Type} (f : rng ext -> A * rng ext) : M A :=
  fun w => let '(a, g) := f (gen w) in (Ok a, {| gen := g; log := log w |}).

Definition with_rng_result {A : Type} (f : rng ext -> outcome (A * rng ext))
  : M A :=
  fun w => match f (gen w) with
           | Ok (a, g) => (Ok a, {| gen := g; log := log w |})
           | Raise e => (Raise e, w)
           end.

(** A [for] loop in [M]. *)
Fixpoint forM {A S : Type} (body : A -> S -> M S) (xs : list A) (s : S) : M S :=
  match xs with
  | [] => ret s
  | x :: xs' => bindM (body x s) (forM body xs')
  end.

(** [grid_image(data, uvw, npixx, npixy, uvres, fftmode, nthread,
    integrations)]: [Some images], or [None] for the unfinished 'cuda'
    mode.  Any other mode logs a warning and then reads [images], which was
    never assigned. *)
Definition grid_image (data : cube) (uvw : uvw_t) (npixx npixy uvres : Z)
    (fftmode : string) (nthread : Z) (integrations : ints_arg)
  : M (option (list image)) :=
  let integrations :=
    match integrations with
    | IntsNone => seq 0 (length data)
    | IntsOne i => [i]
    | IntsList l => l
    end in
  if String.eqb fftmode "fftw" then
    bindM (logger DEBUG "Imaging with fftw") (fun _ =>
    bindM (lift (take_ints data integrations)) (fun taken =>
    bindM (lift (grid_visibilities taken uvw npixx npixy uvres (1 <? nthread)))
      (fun grids =>
    ret (Some (image_fftw ext grids)))))
  else if String.eqb fftmode "cuda" then
    bindM (logger WARN "Imaging with cuda not yet supported.") (fun _ =>
    ret None)
  else
    bindM (logger WARN "Imaging fftmode not supported.") (fun _ =>
    raise UnboundLocalError).

(** [grid_arm(data, uvw, arminds, npix, uvres)]: [np.zeros] refuses a
    negative [npix]. *)
Definition grid_arm (data : cube) (uvw : uvw_t) (arminds : list nat)
    (npix uvres : Z) : outcome uvgrid :=
  let '(u, v, w) := uvw in
  bind (take_rows u arminds) (fun ua =>
  bind (take_rows v arminds) (fun va =>
  let uvd := uv_distance ext ua va in
  if npix <? 0 then Raise ValueError
  else
    let grids := replicate (length data) (replicate (Z.to_nat npix) czero) in
    bind (take_baselines data arminds) (fun armdata =>
    grid_visibilities_arm_jit armdata uvd npix uvres grids))).

(** One arm of [image_arms]: the grids of the baselines on [arm], and their
    transform along the pixel axis. *)
Definition image_arm (st : State) (data : cube) (uvw : uvw_t)
    (integrations : list nat) (npix : Z) (arm : string) : outcome image :=
  let ind_arm := arm_baselines arm (blarr_arms st) in
  bind (take_ints data integrations) (fun taken =>
  bind (grid_arm taken uvw ind_arm npix (uvres st)) (fun grids_arm =>
  image_fftw_arm ext grids_arm)).

(** [image_arms(st, data, uvw, integrations)]: the north, east and west
    arms in turn. *)
Definition image_arms (st : State) (data : cube) (uvw : uvw_t)
    (integrations : ints_arg) : outcome (image * image * image) :=
  let integrations :=
    match integrations with
    | IntsNone => seq 0 (length data)
    | IntsOne i => [i]
    | IntsList l => l
    end in
  let npix := Z.max (npixx st) (npixy st) in
  bind (image_arm st data uvw integrations npix "N") (fun images_narm =>
  bind (image_arm st data uvw integrations npix "E") (fun images_earm =>
  bind (image_arm st data uvw integrations npix "W") (fun images_warm =>
  Ok (images_narm, images_earm, images_warm)))).

(** [fakemap(npix)] *)
Definition fakemap (npix : nat) : M (list (list float)) :=
  with_rng (normal_map ext npix).

(** [np.random.choice(len(data), max(10, len(data)//10), replace=False)]
    and the standard deviation of the chosen spectra: drawing without
    replacement more integrations than the data has raises [ValueError]. *)
Definition off_spectrum (data : cube) : M (list float) :=
  let n := Z.of_nat (length data) in
  if n <? Z.max 10 (n / 10) then raise ValueError
  else with_rng (noise_spectrum ext data).

(** [st.dmarr[dmind]] and [st.dtarr[dtind]], read for the log record of the
    search. *)
Definition trial_of (st : State) (dmind dtind : nat) : outcome (float * Z) :=
  match dmarr st !! dmind, dtarr st !! dtind with
  | Some dm, Some dt => Ok (dm, dt)
  | _, _ => Raise IndexError
  end.

(** The candidate's phased, baseline-averaged data snippet. *)
Definition snippet (st : State) (data : cube) (uvw : uvw_t) (i : nat)
    (lm : float * float) : slab :=
  phase_shift_mean ext (window st i (length data) data) uvw lm.

(** The Kalman second stage: the combined significance
    [sqrt(2*(significance_kalman + significance_image))]. *)
Definition total_snr (st : State) (data : cube) (uvw : uvw_t) (i : nat)
    (lm : float * float) (spec_std sig_ts : list float)
    (kalman_coeffs : list (float * float)) (peak_snr : float) : M float :=
  let spec := phased_spectrum ext data uvw i lm in
  bindM (with_rng_result
           (Kalman.kalman_significance (np_log ext) (rng ext)
              (random_normal ext) (np_percentile ext) (np_polyfit1 ext)
              spec spec_std sig_ts kalman_coeffs))
    (fun significance_kalman =>
  let significance_image := (- norm_logsf ext peak_snr)%float in
  ret (PrimFloat.sqrt (2 * (significance_kalman + significance_image)))%float).

(** The memory check after an append: past the limit, the buffer is turned
    into feature records and emptied. *)
Definition flush_if_full (st : State)
    (s : CandCollection * list CandData) : M (CandCollection * list CandData) :=
  let '(candcollection, canddatalist) := s in
  if over_limit st (length canddatalist) then
    bindM (logger INFO "Accumulated CandData size exceeds memory limit. Running calc_features...")
      (fun _ => ret ((candcollection ++ calc_features ext canddatalist)%list, []))
  else ret (candcollection, canddatalist).

(** One pass of [for i, image in enumerate(images)] in the image1 and
    image1k modes. *)
Definition image_step (st : State) (segment : nat) (data : cube) (dmind dtind : nat)
    (beamnum : nat) (uvw : uvw_t) (spec_std sig_ts : list float)
    (kalman_coeffs : list (float * float)) (ii : nat * image)
    (s : CandCollection * list CandData) : M (CandCollection * list CandData) :=
  let '(integration, image) := ii in
  let '(candcollection, canddatalist) := s in
  let candloc := (segment, integration, dmind, dtind, beamnum) in
  bindM (lift (peak_snr_fftw image)) (fun peak_snr =>
  if PrimFloat.ltb (sigma_image1 st) peak_snr then
    let lm := pixtolm ext st image in
    bindM
      (if String.eqb (searchtype (prefs st)) "image1k" then
         bindM (total_snr st data uvw integration lm spec_std sig_ts
                  kalman_coeffs peak_snr) (fun total_snr =>
         if PrimFloat.ltb (sigma_kalman (prefs st)) total_snr then
           bindM (logger INFO "Got one! SNR1 and SNRk candidate") (fun _ =>
           ret (app canddatalist
                  [{| loc := candloc; cd_image := image;
                      cd_data := snippet st data uvw integration lm;
                      snrk := Some total_snr; snrarm := None |}]))
         else ret canddatalist)
       else if String.eqb (searchtype (prefs st)) "image1" then
         bindM (logger INFO "Got one! SNR1 candidate") (fun _ =>
         ret (app canddatalist
                [{| loc := candloc; cd_image := image;
                    cd_data := snippet st data uvw integration lm;
                    snrk := None; snrarm := None |}]))
       else
         bindM (logger WARN "searchtype not recognized") (fun _ =>
         ret canddatalist))
      (fun canddatalist => flush_if_full st (candcollection, canddatalist))
  else ret (candcollection, canddatalist)).

(** One pass of [for i, snrarm in candisnr] in the arm modes: the buffer
    [canddatalist] is the only state.  [armimage] is a name the function
    never binds. *)
Definition arm_step (st : State) (segment : nat) (data : cube) (dmind dtind : nat)
    (beamnum : nat) (uvw : uvw_t) (integrations : list nat)
    (spec_std sig_ts : list float) (kalman_coeffs : list (float * float))
    (trig : nat * float) (canddatalist : list CandData) : M (list CandData) :=
  let '(i, snrarm_i) := trig in
  match integrations !! i with
  | None => raise IndexError
  | Some integration =>
    let candloc := (segment, integration, dmind, dtind, beamnum) in
    bindM (grid_image data uvw (npixx st) (npixy st) (uvres st) "fftw"
             (nthread (prefs st)) (IntsOne integration)) (fun images =>
    match images with
    | None => raise TypeError
    | Some images =>
      let image := concat images in
      bindM (lift (peak_snr_fftw image)) (fun peak_snr =>
      let lm := pixtolm ext st image in
      if PrimFloat.ltb (sigma_image1 st) peak_snr then
        if String.eqb (searchtype (prefs st)) "imagearmk" then
          bindM (total_snr st data uvw integration lm spec_std sig_ts
                   kalman_coeffs peak_snr) (fun total_snr =>
          if PrimFloat.ltb (sigma_kalman (prefs st)) total_snr then
            bindM (logger INFO "Got one! SNRarm and SNR1 and SNRk candidate")
              (fun _ =>
            ret (app canddatalist
                   [{| loc := candloc; cd_image := image;
                       cd_data := snippet st data uvw integration lm;
                       snrk := Some total_snr; snrarm := Some snrarm_i |}]))
          else ret canddatalist)
        else if String.eqb (searchtype (prefs st)) "imagearm" then
          bindM (logger INFO "Got one! SNRarm and SNR1 candidate") (fun _ =>
          raise NameError)
        else
          bindM (logger WARN "searchtype not recognized") (fun _ =>
          ret canddatalist)
      else ret canddatalist)
    end)
  end.

(** The loop of the arm modes, from an empty buffer. *)
Definition arm_loop (st : State) (segment : nat) (data : cube) (dmind dtind : nat)
    (beamnum : nat) (uvw : uvw_t) (integrations : list nat)
    (spec_std sig_ts : list float) (kalman_coeffs : list (float * float))
    (candisnr : list (nat * float)) : M (list CandData) :=
  forM (arm_step st segment data dmind dtind beamnum uvw integrations
          spec_std sig_ts kalman_coeffs) candisnr [].

(** The loop of the image modes, from an empty collection and an empty
    buffer. *)
Definition image_loop (st : State) (segment : nat) (data : cube) (dmind dtind : nat)
    (beamnum : nat) (uvw : uvw_t) (spec_std sig_ts : list float)
    (kalman_coeffs : list (float * float)) (candcollection : CandCollection)
    (iis : list (nat * image)) : M (CandCollection * list CandData) :=
  forM (image_step st segment data dmind dtind beamnum uvw spec_std sig_ts
          kalman_coeffs) iis (candcollection, []).

Definition is_kalman_mode (s : string) : bool :=
  String.eqb s "image1k" || String.eqb s "imagearmk".

Definition is_image_mode (s : string) : bool :=
  String.eqb s "image1" || String.eqb s "image1k".

Definition is_arm_mode (s : string) : bool :=
  String.eqb s "imagearm" || String.eqb s "imagearmk".

(** The body of [search_thresh_fftw(st, segment, data, dmind, dtind,
    integrations, beamnum)], yielding the locals [candcollection] and
    [canddatalist] as they stand when [return candcollection] is reached
    (an empty buffer where [canddatalist] was never created).
    [raise NotImplemented(...)] calls the constant [NotImplemented], which
    is a [TypeError]. *)
Definition search_thresh_fftw_frame (st : State) (segment : nat) (data : cube)
    (dmind dtind : nat) (integrations : ints_arg) (beamnum : nat)
  : M (CandCollection * list CandData) :=
  let candcollection : CandCollection := [] in
  if negb (np_any data) then
    bindM (logger INFO "Data is all zeros. Skipping search.") (fun _ =>
    ret (candcollection, []))
  else
    let integrations :=
      match integrations with
      | IntsNone => get_search_ints st segment dmind dtind
      | IntsOne i => [i]
      | IntsList l => l
      end in
    if Nat.eqb (length integrations) 0 then ret (candcollection, [])
    else
      bindM
        (if is_kalman_mode (searchtype (prefs st)) then
           bindM (off_spectrum data) (fun spec_std =>
           bindM (with_rng_result
                    (Kalman.kalman_prepare_coeffs (np_log ext) (rng ext)
                       (random_normal ext) (np_percentile ext)
                       (np_polyfit1 ext) spec_std Kalman.SigNone
                       Kalman.default_n_trial))
             (fun '(sig_ts, kalman_coeffs) =>
           ret (spec_std, sig_ts, kalman_coeffs)))
         else ret ([], [], []))
        (fun '(spec_std, sig_ts, kalman_coeffs) =>
      bindM (lift (trial_of st dmind dtind)) (fun _ =>
      bindM (logger INFO "search of ints with fftw") (fun _ =>
      let uvw := get_uvw_segment ext st segment in
      bindM
        (if is_image_mode (searchtype (prefs st)) then
           bindM (grid_image data uvw (npixx st) (npixy st) (uvres st) "fftw"
                    (nthread (prefs st)) (IntsList integrations))
             (fun images =>
           match images with
           | None => raise TypeError
           | Some images =>
             bindM (image_loop st segment data dmind dtind beamnum uvw
                      spec_std sig_ts kalman_coeffs candcollection
                      (combine integrations images))
               (fun '(candcollection, canddatalist) =>
             ret ((candcollection ++ calc_features ext canddatalist)%list,
                  canddatalist))
           end)
         else if is_arm_mode (searchtype (prefs st)) then
           bindM (lift (image_arms st data uvw (IntsList integrations)))
             (fun '(arm1, arm2, arm3) =>
           bindM (match arm1 with
                  | [] => raise IndexError
                  | row :: _ => fakemap (length row)
                  end) (fun map_arm123 =>
           bindM (lift (search_thresh_arms arm1 arm2 arm3 map_arm123
                          (sigma_arm (prefs st)) (sigma_arms (prefs st))))
             (fun candisnr =>
           bindM (arm_loop st segment data dmind dtind beamnum uvw
                    integrations spec_std sig_ts kalman_coeffs candisnr)
             (fun canddatalist =>
           ret (candcollection, canddatalist)))))
         else raise TypeError)
        (fun frame =>
      bindM (logger INFO "candidates returned for (seg, dmind, dtind)")
        (fun _ =>
      ret frame))))).

(** [search_thresh_fftw]: what [return candcollection] hands back. *)
Definition search_thresh_fftw (st : State) (segment : nat) (data : cube)
    (dmind dtind : nat) (integrations : ints_arg) (beamnum : nat)
  : M CandCollection :=
  bindM (search_thresh_fftw_frame st segment data dmind dtind integrations
           beamnum)
    (fun '(candcollection, _) => ret candcollection).

(** [dedisperse_image_fftw(st, segment, data, integrations)] *)
Definition dedisperse_image_fftw (st : State) (segment : nat) (data : cube)
    (integrations : ints_arg) : M CandCollection :=
  let candcollection : CandCollection := [] in
  bindM
    (forM (fun dtind candcollection =>
       forM (fun dmind candcollection =>
         bindM (lift (freq_max (freq st))) (fun fmax =>
         bindM (lift (match dmarr st !! dmind with
                      | Some dm =>
                          calc_delay (pow2 ext) (freq st) fmax dm (inttime st)
                            None
                      | None => Raise IndexError
                      end)) (fun delay =>
         bindM (lift (match dtarr st !! dtind with
                      | Some dt =>
                          Dedisp.dedisperseresample data delay dt
                            (1 <? nthread (prefs st))
                      | None => Raise IndexError
                      end)) (fun data_corr =>
         bindM (search_thresh_fftw st segment data_corr dmind dtind
                  integrations 0) (fun found =>
         ret (candcollection ++ found)%list)))))
         (seq 0 (length (dmarr st))) candcollection)
       (seq 0 (length (dtarr st))) candcollection)
    (fun candcollection =>
  bindM (logger INFO "candidates returned for seg") (fun _ =>
  ret candcollection)).

(** [all([st.dtarr[dtind]*2 == st.dtarr[dtind+1] for dtind in
    range(len(st.dtarr)-1)])] *)
Fixpoint doubles (dts : list Z) : bool :=
  match dts with
  | [] => true
  | a :: rest =>
      match rest with
      | [] => true
      | b :: _ => (a * 2 =? b) && doubles rest
      end
  end.

(** One integration of the GPU search.  Gridding, transform and statistics
    happen on the device ([gpu_image]); the candidate's data snippet is
    recomputed on the host. *)
Definition cuda_step (st : State) (segment : nat) (data : cube)
    (dmind dtind : nat) (beamnum : nat) (uvw : uvw_t) (delay : list Z)
    (i : nat) (s : CandCollection * list CandData)
  : M (CandCollection * list CandData) :=
  let '(candcollection, canddatalist) := s in
  let '(stats, img_data) := gpu_image ext st data dtind dmind i in
  let peak_snr := peak_snr_cuda stats in
  if PrimFloat.ltb (sigma_image1 st) peak_snr then
    let lm := pixtolm ext st img_data in
    let candloc := (segment, i, dmind, dtind, beamnum) in
    bindM (logger INFO "Got one! SNR candidate") (fun _ =>
    bindM (lift (match dtarr st !! dtind with
                 | Some dt =>
                     Dedisp.dedisperseresample data delay dt
                       (1 <? nthread (prefs st))
                 | None => Raise IndexError
                 end)) (fun data_corr =>
    let data_corr := window st i (length data) data_corr in
    let canddatalist :=
      app canddatalist
        [{| loc := candloc; cd_image := img_data;
            cd_data := phase_shift_mean ext data_corr uvw lm;
            snrk := None; snrarm := None |}] in
    flush_if_full st (candcollection, canddatalist)))
  else ret (candcollection, canddatalist).

(** [dedisperse_image_cuda(st, segment, data)].  The choice of the device
    number only reads the worker's name and logs; it is left out. *)
Definition dedisperse_image_cuda (st : State) (segment : nat) (data : cube)
  : M CandCollection :=
  match dtarr st with
  | [] => raise IndexError
  | dt0 :: _ =>
    if negb (dt0 =? 1) then raise AssertionError
    else if negb (doubles (dtarr st)) then raise AssertionError
    else if negb (np_any data) then
      bindM (logger INFO "Data is all zeros. Skipping search.") (fun _ =>
      ret [])
    else
      let candcollection : CandCollection := [] in
      let beamnum := 0%nat in
      let uvw := get_uvw_segment ext st segment in
      let canddatalist : list CandData := [] in
      bindM
        (forM (fun dtind s =>
           forM (fun dmind s =>
             bindM (lift (freq_max (freq st))) (fun fmax =>
             bindM (lift (match dmarr st !! dmind with
                          | Some dm =>
                              calc_delay (pow2 ext) (freq st) fmax dm
                                (inttime st) None
                          | None => Raise IndexError
                          end)) (fun delay =>
             let integrations := get_search_ints st segment dmind dtind in
             if Nat.eqb (length integrations) 0 then ret s
             else
               bindM (logger INFO "Imaging ints with gpu") (fun _ =>
               forM (cuda_step st segment data dmind dtind beamnum uvw delay)
                 integrations s))))
             (seq 0 (length (dmarr st))) s)
           (seq 0 (length (dtarr st))) (candcollection, canddatalist))
        (fun '(candcollection, canddatalist) =>
      let candcollection :=
        (candcollection ++ calc_features ext canddatalist)%list in
      bindM (logger INFO "candidates returned for seg") (fun _ =>
      ret candcollection))
  end.

(** Reading a local name: one that no executed statement has assigned is
    unbound. *)
Definition read_local {A : Type} (v : option A) : M A :=
  match v with
  | Some a => ret a
  | None => raise UnboundLocalError
  end.

(** [prep_and_search(st, segment, data)]: [candcollection] is assigned in
    the 'cuda' and 'fftw' branches only. *)
Definition prep_and_search (st : State) (segment : nat) (data : cube)
  : M CandCollection :=
  bindM (lift (data_prep ext st segment data)) (fun data =>
  bindM
    (if String.eqb (fftmode (prefs st)) "cuda" then
       bindM (dedisperse_image_cuda st segment data) (fun c => ret (Some c))
     else if String.eqb (fftmode (prefs st)) "fftw" then
       bindM (dedisperse_image_fftw st segment data IntsNone)
         (fun c => ret (Some c))
     else
       bindM (logger WARN "fftmode not recognized (cuda, fftw allowed)")
         (fun _ => ret None))
    (fun candcollection =>
  bindM (read_local candcollection) (fun c =>
  bindM (lift (save_cands ext st c)) (fun _ =>
  bindM (read_local candcollection) (fun c =>
  ret c))))).

End Driver.

Arguments ret {ext A} a.
Arguments raise {ext A} e.
Arguments bindM {ext A B} m k.
Arguments lift {ext A} r.
Arguments forM {ext A S} body xs s.
Arguments read_local {ext A} v.

(** *** Stand-ins for the collaborators, for examples

    A feature record is the candidate's location; the transform returns a
    fixed image; the GPU returns fixed statistics with that image; the
    square is one rounded multiplication. *)
Definition bright_image : image :=
  [[0; 1]; [2; 9]]%float.

Definition flat_image : image :=
  [[1; 1]; [1; 2]]%float.

Definition blank_image : image :=
  [[0; 0]; [0; 0]]%float.

Definition toy_gpu (img : image) (stats : gpu_stats) : externals := {|
  rng := unit;
  Feature := candloc;
  data_prep := fun _ _ data => Ok data;
  save_cands := fun _ _ => Ok tt;
  calc_features := map loc;
  get_uvw_segment := fun _ _ => ([[0%Q]], [[0%Q]], [[0%Q]]);
  image_fftw := map (fun _ => img);
  pixtolm := fun _ _ => (0, 0)%float;
  phase_shift_mean := fun data _ _ => concat data;
  noise_spectrum := fun _ g => ([1; 1]%float, g);
  phased_spectrum := fun _ _ _ _ => [1; 2]%float;
  norm_logsf := fun x => (- x)%float;
  np_log := Kalman.flat_log;
  random_normal := Kalman.flat_normal;
  np_percentile := Kalman.top_percentile;
  np_polyfit1 := Kalman.unit_fit;
  pow2 := square;
  uv_distance := fun u _ => u;
  image_fftw_arm := fun g => Ok (map (map (fun _ => 1%float)) g);
  normal_map := fun n g => (replicate n (replicate n 0%float), g);
  gpu_image := fun _ _ _ _ _ => (stats, img)
|}.

Definition toy (img : image) : externals :=
  toy_gpu img {| rms := 0; max := 0 |}.

Definition toy_prefs (mode stype : string) : Prefs := {|
  fftmode := mode;
  searchtype := stype;
  nthread := 1;
  timewindow := 2;
  memory_limit := 1%float;
  sigma_kalman := 0%float;
  sigma_arm := 3%float;
  sigma_arms := 5%float
|}.

Definition toy_state (mode stype : string) : State := {|
  prefs := toy_prefs mode stype;
  dtarr := [1];
  dmarr := [0%float];
  freq := [1%float];
  inttime := 1%float;
  blarr_arms := [["N"; "N"]];
  npixx := 2;
  npixy := 2;
  nchan := 1;
  npol := 1;
  uvres := 1;
  sigma_image1 := 3%float;
  get_search_ints := fun _ _ _ => [0%nat]
|}.

(** Two integrations of one baseline, one channel, one polarization. *)
Definition toy_data : cube := [[[[c_of_int 1]]]; [[[c_of_int 2]]]].

(** Ten integrations of the same shape. *)
Definition toy_series : cube :=
  map (fun n => [[[c_of_int (Z.of_nat n)]]]) (seq 1 10).

Definition start (ext : externals) (g : rng ext) : world ext :=
  {| gen := g; log := [] |}.

End Search.

(** ** The kernels of [search.py], cell by cell *)

Module Cells.
Import Arrays Dedisp.

(** [np.all(data)]: no sample is zero (no sample is flagged). *)
Definition np_all (data : cube) : bool :=
  forallb (forallb (forallb (forallb cnonzero))) data.

(** [a[i + delay[k], j, k, l]], read in an array of [nint] integrations. *)
Definition read_shifted (nint : nat) (delay : list Z) (p : cell) (a : cube)
  : complex :=
  let '(i, j, k, l) := p in
  get4 a (np_index nint (Z.of_nat i + delay_at delay k)) j k l.

(** [data[i + delay[k], j, k, l]], what [_dedisperse_jit] stores in
    [result[i, j, k, l]]. *)
Definition shifted (data : cube) (delay : list Z) (p : cell) : complex :=
  read_shifted (length data) delay p data.

(** The [dt] samples [a[i*dt + delay[k] + r, j, k, l]], [r] in [[0, dt)],
    read in an array of [nint] integrations. *)
Definition read_samples (nint : nat) (delay : list Z) (dt : Z) (p : cell)
    (a : cube) : list complex :=
  let '(i, j, k, l) := p in
  map (fun r =>
         get4 a (np_index nint (Z.of_nat i * dt + delay_at delay k + Z.of_nat r))
              j k l)
      (seq 0 (Z.to_nat dt)).

(** The [dt] samples [a[i*dt + r, j, k, l]]. *)
Definition read_block (nint : nat) (dt : Z) (p : cell) (a : cube)
  : list complex :=
  let '(i, j, k, l) := p in
  map (fun r => get4 a (np_index nint (Z.of_nat i * dt + Z.of_nat r)) j k l)
      (seq 0 (Z.to_nat dt)).

(** The lexicographic order of loop counters: the order in which four
    nested [for] loops visit their cells. *)
Definition lex4 (x y : nat * nat * nat * nat) : Prop :=
  let '(a, b, c, d) := x in
  let '(a', b', c', d') := y in
  (a < a')%nat
  \/ (a = a' /\ ((b < b')%nat
                 \/ (b = b' /\ ((c < c')%nat \/ (c = c' /\ (d < d')%nat))))).

(** The cells a kernel working in place reads for the cell [p]: those of
    the same baseline, channel and polarization at the same time or
    later. *)
Definition later (p q : cell) : Prop :=
  let '(i, j, k, l) := p in
  let '(t, j', k', l') := q in
  (j, k, l) = (j', k', l') /\ (i <= t)%nat.

(** A list in increasing order of [R]: every element is below all those
    after it. *)
Fixpoint increasing {A : Type} (R : A -> A -> Prop) (l : list A) : Prop :=
  match l with
  | [] => True
  | x :: l' => Forall (R x) l' /\ increasing R l'
  end.

(** The order of visit of the cells [mk a b c d]: the lexicographic order
    of the loop counters. *)
Definition visited_before (mk : nat -> nat -> nat -> nat -> cell) (q q' : cell)
  : Prop :=
  exists a b c d a' b' c' d',
    q = mk a b c d /\ q' = mk a' b' c' d' /\ lex4 (a, b, c, d) (a', b', c', d').

(** The [dt] input samples [data[i*dt + r, j, k, l]], [r] in [[0, dt)]. *)
Definition block (data : cube) (dt : Z) (i j k l : nat) : list complex :=
  map (fun r =>
         get4 data (np_index (length data) (Z.of_nat i * dt + Z.of_nat r)) j k l)
      (seq 0 (Z.to_nat dt)).

(** The plain mean of [dt] samples: their sum divided by [dt], zeros
    included. *)
Definition block_mean (vals : list complex) (dt : Z) : complex :=
  cdiv_int (fold_left cadd vals czero) dt.

(** What one pass of the loop body of [_resample_jit] leaves in the cell
    [p]. *)
Definition resampled (data : cube) (dt : Z) (p : cell) : complex :=
  let '(i, j, k, l) := p in block_mean (block data dt i j k l) dt.

(** The sum and the count of non-zero samples the in-place kernel
    [_dedisperseresample_gu] builds in a cell: the first sample is stored,
    the others are added to it. *)
Definition gu_value (vals : list complex) : complex :=
  match vals with
  | [] => c_of_int 0
  | v :: rest =>
      if 0 <? weight_of vals
      then cdiv_int (fold_left cadd rest v) (weight_of vals)
      else c_of_int (weight_of vals)
  end.

(** The value [_resample_gu] leaves in a cell. *)
Definition gu_mean (vals : list complex) (dt : Z) : complex :=
  match vals with
  | [] => czero
  | v :: rest => cdiv_int (fold_left cadd rest v) dt
  end.

(** An array without flags: three integrations, one baseline, two
    channels, one polarization. *)
Definition unflagged_cube : cube :=
  [ [[[c_of_int 1]; [c_of_int 2]]];
    [[[c_of_int 3]; [c_of_int 4]]];
    [[[c_of_int 5]; [c_of_int 6]]] ].

End Cells.

(** ** Announced candidates, and more stand-in states for examples *)

Module SearchAux.
Import Util Arrays Grid Search.

Local Open Scope string_scope.
Local Open Scope Z_scope.




(** The stand-in state with another decimation ladder. *)
Definition ladder_state (dts : list Z) : State := {|
  prefs := toy_prefs "cuda" "image1";
  dtarr := dts;
  dmarr := [0%float];
  freq := [1%float];
  inttime := 1%float;
  blarr_arms := [["N"; "N"]];
  npixx := 2;
  npixy := 2;
  nchan := 1;
  npol := 1;
  uvres := 1;
  sigma_image1 := 3%float;
  get_search_ints := fun _ _ _ => [0%nat]
|}.

(** The stand-in state in mode 'image1' with a memory limit of zero: any
    buffered candidate is over the limit. *)
Definition tight_state : State := {|
  prefs := {| fftmode := "fftw"; searchtype := "image1"; nthread := 1;
              timewindow := 2; memory_limit := 0%float;
              sigma_kalman := 0%float; sigma_arm := 3%float;
              sigma_arms := 5%float |};
  dtarr := [1];
  dmarr := [0%float];
  freq := [1%float];
  inttime := 1%float;
  blarr_arms := [["N"; "N"]];
  npixx := 2;
  npixy := 2;
  nchan := 1;
  npol := 1;
  uvres := 1;
  sigma_image1 := 3%float;
  get_search_ints := fun _ _ _ => [0%nat]
|}.

(** The stand-in collaborators with a noise spectrum whose second channel
    is flagged. *)
Definition flagged_toy : externals := {|
  rng := unit;
  Feature := candloc;
  data_prep := fun _ _ data => Ok data;
  save_cands := fun _ _ => Ok tt;
  calc_features := map loc;
  get_uvw_segment := fun _ _ => ([[0%Q]], [[0%Q]], [[0%Q]]);
  image_fftw := map (fun _ => bright_image);
  pixtolm := fun _ _ => (0, 0)%float;
  phase_shift_mean := fun data _ _ => concat data;
  noise_spectrum := fun _ g => ([1; 0]%float, g);
  phased_spectrum := fun _ _ _ _ => [1; 2]%float;
  norm_logsf := fun x => (- x)%float;
  np_log := Kalman.flat_log;
  random_normal := Kalman.flat_normal;
  np_percentile := Kalman.top_percentile;
  np_polyfit1 := Kalman.unit_fit;
  pow2 := square;
  uv_distance := fun u _ => u;
  image_fftw_arm := fun g => Ok (map (map (fun _ => 1%float)) g);
  normal_map := fun n g => (replicate n (replicate n 0%float), g);
  gpu_image := fun _ _ _ _ _ => ({| rms := 0; max := 0 |}, bright_image)
|}.

End SearchAux.

(** ** [rfpipe/util.py]: mean subtraction and phasing *)

Module UtilMore.
Import Arrays Dedisp Grid.

Local Open Scope string_scope.
Local Open Scope Z_scope.

(** *** [meantsub] *)

Definition csub (a b : complex) : complex :=
  Cx (re a - re b) (im a - im b).

(** The time series of one (baseline, channel, polarization):
    [data[l, i, j, k]] for [l] in [range(nint)]. *)
Definition column (data : cube) (nint i j k : nat) : list complex :=
  map (fun l => get4 data l i j k) (seq 0 nint).

(** The first loop over [l] of [_meantsub_jit]: the sum [ss] and the
    number [weight] of non-zero samples of a time series. *)
Definition column_sum (data : cube) (nint i j k : nat) : complex * Z :=
  for_range nint (fun l '(ss, weight) =>
    (cadd ss (get4 data l i j k),
     if cnonzero (get4 data l i j k) then weight + 1 else weight))
    (czero, 0).

(** The body of the loop over [k]: the mean of one time series, then the
    second loop over [l] that subtracts it from the non-zero samples. *)
Definition series_pass (nint i j k : nat) (data : cube) : cube :=
  let '(ss, weight) := column_sum data nint i j k in
  let mean := if 0 <? weight then cdiv_int ss weight else czero in
  if cnonzero mean then
    for_range nint (fun l data =>
      if cnonzero (get4 data l i j k)
      then upd4 (fun c => csub c mean) l i j k data
      else data) data
  else data.

(** [_meantsub_jit(data)]: works in place; [if mean:] tests the mean
    against zero. *)
Definition _meantsub_jit (data : cube) : cube :=
  let '(nint, nbl, nchan, npol) := shape4 data in
  for_range nbl (fun i =>
    for_range nchan (fun j =>
      for_range npol (fun k data => series_pass nint i j k data)))
    data.

(** [meantsub(data, parallel)], on a writable array (the kernel then works
    on the array itself and [return data] hands it back): both branches
    call [_meantsub_jit]; the parallel one logs a warning after it.
    Returns the array and the warnings logged. *)
Definition meantsub (data : cube) (parallel : bool) : cube * list string :=
  if parallel
  then (_meantsub_jit data,
        ["Parallel implementation of meantsub not working with flags. Using single threaded version."])
  else (_meantsub_jit data, []).

(** The mean of the non-zero samples of a time series, zero when there is
    none. *)
Definition col_mean (data : cube) (i j k : nat) : complex :=
  weighted_mean (column data (length data) i j k).

(** What [_meantsub_jit] does to a sample [c] of a time series whose mean
    is [mean]. *)
Definition subtracted (mean c : complex) : complex :=
  if cnonzero c && cnonzero mean then csub c mean else c.

(** The (baseline, channel, polarization) triples in the order the three
    outer loops visit them. *)
Definition series3 (nbl nchan npol : nat) : list (nat * nat * nat) :=
  i ← seq 0 nbl; j ← seq 0 nchan; k ← seq 0 npol; [(i, j, k)].

(** *** [phase_shift] *)

Definition cmul (a b : complex) : complex :=
  Cx (re a * re b - im a * im b) (re a * im b + im a * re b).

(** An index into an axis of length [n] in compiled code: a negative one
    counts from the end, and nothing checks the bounds.  An access outside
    the axis is dropped here; the properties below keep every index
    inside. *)
Definition wrap_index (n : nat) (i : Z) : option nat :=
  if (- Z.of_nat n <=? i) && (i <? Z.of_nat n)
  then Some (np_index n i)
  else None.

(** How often the integration [a] is named in [ints]. *)
Definition occurrences (n : nat) (ints : list Z) (a : nat) : nat :=
  length (List.filter (fun i => bool_decide (wrap_index n i = Some a)) ints).

Section Phase.

(** [np.exp(-2j*np.pi*x)] for a real [x], to the precision of the
    samples. *)
Variable phasor : Q -> complex.

(** The phasor of a (baseline, channel) pair for the offset [(dl, dm)]. *)
Definition frot (uvw : coords * coords * coords) (dl dm : Q) (j k : nat)
  : complex :=
  let '(u, v, w) := uvw in
  phasor (dl * coord_at u j k + dm * coord_at v j k)%Q.

(** The assignment the kernel makes at a cell. *)
Definition rot (uvw : coords * coords * coords) (dl dm : Q) (p : cell)
  : complex -> complex :=
  let '(i, j, k, l) := p in fun c => cmul c (frot uvw dl dm j k).

(** [_phaseshift_jit(data, uvw, dl, dm, ints)]: works in place. *)
Definition _phaseshift_jit (data : cube) (uvw : coords * coords * coords)
    (dl dm : Q) (ints : list Z) : cube :=
  let '(sh0, sh1, sh2, sh3) := shape4 data in
  if negb (Qeq_bool dl 0) || negb (Qeq_bool dm 0) then
    for_range sh1 (fun j =>
      for_range sh2 (fun k data =>
        let frot := frot uvw dl dm j k in
        fold_left (fun data i =>
          match wrap_index sh0 i with
          | Some i =>
              for_range sh3 (fun l data =>
                upd4 (fun c => cmul c frot) i j k l data) data
          | None => data
          end) ints data))
      data
  else data.

(** [phase_shift(data, uvw, dl, dm, ints)], on a writable array: the
    result is what the array holds afterwards.  The two assertions compare
    the baseline and channel axes of the data with the shape of [u].  The
    compiled kernel cannot take an empty list ([ValueError]: the list has
    no element to give it a type). *)
Definition phase_shift (data : cube) (uvw : coords * coords * coords)
    (dl dm : Q) (ints : option (list Z)) : outcome cube :=
  let '(u, v, w) := uvw in
  let '(sh0, sh1, sh2, sh3) := shape4 data in
  if negb (Nat.eqb sh1 (length u)) then Raise AssertionError
  else if negb (Nat.eqb sh2 (length (nth 0 u []))) then Raise AssertionError
  else
    let ints :=
      match ints with
      | None => map Z.of_nat (seq 0 (length data))
      | Some l => l
      end in
    match ints with
    | [] => Raise ValueError
    | _ => Ok (_phaseshift_jit data uvw dl dm ints)
    end.

(** The cells the kernel assigns, in order. *)
Definition phase_cells (sh0 sh1 sh2 sh3 : nat) (ints : list Z) : list cell :=
  j ← seq 0 sh1; k ← seq 0 sh2; i ← ints;
  match wrap_index sh0 i with
  | Some i => l ← seq 0 sh3; [(i, j, k, l)]
  | None => []
  end.

End Phase.

(** How often the cell [q] is in the list [ps]. *)
Definition count_cell (q : cell) (ps : list cell) : nat :=
  length (List.filter (fun p => bool_decide (p = q)) ps).

(** *** [calc_delay] *)

(** A binary64 number proper: neither [nan] nor an infinity. *)
Definition is_number (x : float) : bool :=
  match Prim2SF x with
  | S754_zero _ | S754_finite _ _ _ => true
  | _ => false
  end.

(** A zero of either sign. *)
Definition is_zero (x : float) : bool :=
  match Prim2SF x with
  | S754_zero _ => true
  | _ => false
  end.

(** The bracket [1./freq[i]**2 - 1./freqref**2] of a channel. *)
Definition bracket (pow2 : float -> float) (freqi freqref : float) : float :=
  (1 / pow2 freqi - 1 / pow2 freqref)%float.

End UtilMore.
(** ** [rfpipe/search.py]: index tables of the arm search *)

Module Tables.
Import Arrays.

(** An integer table [T[i, j]]. *)
Abbreviation table := (list (list Z)).

(** [table[i, j]] *)
Definition table_at (t : table) (i j : nat) : Z := nth j (nth i t []) 0.

(** [np.zeros_like(table)] *)
Definition zeros_like (t : table) : table := map (map (fun _ => 0)) t.

(** [row[k] = v] in compiled code: a negative [k] counts from the end, and
    nothing checks the bounds.  A write outside the row is dropped here;
    the properties below keep every index inside. *)
Definition row_set (k v : Z) (row : list Z) : list Z :=
  if (- Z.of_nat (length row) <=? k) && (k <? Z.of_nat (length row))
  then <[np_index (length row) k := v]> row
  else row.

(** [output_table[i][k] = v] *)
Definition table_set (i : nat) (k v : Z) (t : table) : table :=
  alter (row_set k v) i t.

(** [indices_out == (a, b)] *)
Definition pair_eqb (x y : Z * Z) : bool :=
  (fst x =? fst y) && (snd x =? snd y).

(** [change_table_indices(table, indices_out)] *)
Definition change_table_indices (t : table) (indices_out : Z * Z) : table :=
  let output_table := zeros_like t in
  for_range (length output_table) (fun i =>
    for_range (length (nth 0 output_table [])) (fun j output_table =>
      let output_table :=
        if pair_eqb indices_out (1, 3)
        then table_set i (table_at t i j) (Z.of_nat j) output_table
        else output_table in
      if pair_eqb indices_out (2, 3)
      then table_set j (table_at t i j) (Z.of_nat i) output_table
      else output_table))
    output_table.

(** Every row of the table is a rearrangement of [0, 1, ..., m-1]. *)
Definition permutation_rows (t : table) (m : nat) : Prop :=
  Forall (fun row => row ≡ₚ Z.of_nat <$> seq 0 m) t.

(** A table of [n] rows of [m] entries. *)
Definition rect (t : table) (n m : nat) : Prop :=
  length t = n /\ Forall (fun row => length row = m) t.

(** One assignment [output_table[r][c] = v]. *)
Definition apply_write (t : table) (w : nat * Z * Z) : table :=
  let '(r, c, v) := w in table_set r c v t.

Definition target (w : nat * Z * Z) : nat * Z :=
  let '(r, c, _) := w in (r, c).

(** The assignments of the two loops, in order, for [indices_out == (1, 3)]
    and for [indices_out == (2, 3)]. *)
Definition writes13 (t : table) (n m : nat) : list (nat * Z * Z) :=
  i ← seq 0 n; j ← seq 0 m; [(i, table_at t i j, Z.of_nat j)].

Definition writes23 (t : table) (n m : nat) : list (nat * Z * Z) :=
  i ← seq 0 n; j ← seq 0 m; [(j, table_at t i j, Z.of_nat i)].

(** The entries of the table are column indices. *)
Definition entries_in_range (t : table) (m : nat) : Prop :=
  Forall (Forall (fun x => 0 <= x < Z.of_nat m)) t.

(** A table whose rows are rearrangements of 0, 1, 2. *)
Definition arm_table : table := [[2; 0; 1]; [0; 1; 2]; [1; 0; 2]].

End Tables.

(** * Properties

    ** [calc_delay] *)

Module UtilFacts.
Import Util.

Lemma map_result_ok {A B : Type} (f : A -> outcome B) (g : A -> B) (l : list A) :
  Forall (fun x => f x = Ok (g x)) l -> map_result f l = Ok (map g l).
Proof.
  induction 1 as [|x l Hx _ IH]; simpl; [reflexivity|].
  now rewrite Hx, IH.
Qed.

Lemma py_int_floor (x : Q) : (0 <= x)%Q -> py_int x = Qfloor x.
Proof.
  destruct x as [n d]. unfold Qle, py_int, Qfloor. simpl. intros H.
  apply Z.quot_div_nonneg; lia.
Qed.

(** *** Truncation and floor of a binary64 number *)

(** Toward zero and toward minus infinity are the same direction for a
    number that is not negative. *)
Lemma int_of_float_nonneg (x : float) :
  PrimFloat.leb 0 x = true -> int_of_float x = floor_of_float x.
Proof.
  rewrite leb_spec. unfold int_of_float, floor_of_float, float_to_Z.
  change (Prim2SF 0) with (S754_zero false).
  destruct (Prim2SF x) as [s|s| |s m e]; try reflexivity.
  destruct s; [discriminate|]. intros _.
  destruct (Z.leb_spec 0 e); [reflexivity|].
  f_equal. apply Z.quot_div_nonneg; [lia|]. apply Z.pow_pos_nonneg; lia.
Qed.

(** Neither [nan] nor an infinity has an integer. *)
Lemma int_of_float_not_finite (x : float) :
  match Prim2SF x with
  | S754_nan | S754_infinity _ => True
  | _ => False
  end ->
  int_of_float x = Raise ValueError \/ int_of_float x = Raise OverflowError.
Proof.
  unfold int_of_float, float_to_Z.
  destruct (Prim2SF x); intros H; try contradiction; auto.
Qed.

(** C9: the delay is the expression truncated toward zero, which is not its
    floor where the expression is negative.  A channel above the reference
    frequency ([freq = 2], [freqref = 1], [dm = 1000], [inttime = 1]) has
    the value -3.1116: [calc_delay] returns -3, the floor that the docstring
    and the specification promise is -4.  The squares of 2 and of 1 are
    exact in any C library. *)
Theorem calc_delay_not_floor (pow2 : float -> float) :
  pow2 2%float = 4%float ->
  pow2 1%float = 1%float ->
  calc_delay pow2 [2%float] 1 1000 1 None = Ok [-3]
  /\ delay_floor pow2 default_scale 1000 1 1 2 = Ok (-4).
Proof.
  intros H2 H1.
  unfold calc_delay, calc_delay_chan, delay_floor, delay_value. simpl.
  rewrite H2, H1. split; vm_compute; reflexivity.
Qed.

Lemma calc_delay_not_floor_witness :
  calc_delay square [2%float] 1 1000 1 None = Ok [-3]
  /\ delay_floor square default_scale 1000 1 1 2 = Ok (-4).
Proof.
  apply (calc_delay_not_floor square); reflexivity.
Defined.

(** The expression is rounded at every operation before [int( )] sees it.
    With [freq = 1], [freqref = 2], [inttime = 0.005] and
    [dm = 4.820671037408407] the real value is a little under 3 and the
    computed one is 3.0: the delay is 3.  Three channels at 1, 1.5 and 2 GHz
    against the top of the band with [dm = 1000] get the delays 622, 161
    and 0. *)
Lemma calc_delay_examples :
  calc_delay square [1%float] 2 0x1.3485dfd09c625p+2 0x1.47ae147ae147bp-8 None
  = Ok [3]
  /\ calc_delay square [1; 0x1.8p+0; 2]%float 2 1000 0x1.47ae147ae147bp-8 None
     = Ok [622; 161; 0].
Proof.
  split; vm_compute; reflexivity.
Qed.

End UtilFacts.

(** ** Arrays: cells, shapes and loops *)

Module ArrayFacts.
Import Arrays.

(** *** Samples *)

Lemma Qc_zero_this (q : Qc) : Qeq_bool (this q) 0 = true -> q = 0%Qc.
Proof.
  intros H. apply Qeq_bool_iff in H. apply Qc_is_canon. exact H.
Qed.

Lemma cnonzero_false (a : complex) : cnonzero a = false <-> a = czero.
Proof.
  unfold cnonzero. split.
  - intros H. apply negb_false_iff, andb_true_iff in H. destruct H as [Hr Hi].
    destruct a as [r i]. simpl in *.
    now rewrite (Qc_zero_this _ Hr), (Qc_zero_this _ Hi).
  - intros ->. reflexivity.
Qed.

Lemma cnonzero_true (a : complex) : cnonzero a = true <-> a <> czero.
Proof.
  rewrite <- not_false_iff_true, cnonzero_false. reflexivity.
Qed.

Lemma cadd_0_l (a : complex) : cadd czero a = a.
Proof.
  destruct a as [r i]. unfold cadd. simpl. now rewrite !Qcplus_0_l.
Qed.

Lemma cadd_0_r (a : complex) : cadd a czero = a.
Proof.
  destruct a as [r i]. unfold cadd. simpl. now rewrite !Qcplus_0_r.
Qed.

Lemma cdiv_int_1 (a : complex) : cdiv_int a 1 = a.
Proof.
  destruct a as [r i]. unfold cdiv_int. simpl.
  assert (E : Qc_of_Z 1 = 1%Qc) by (now apply Qc_is_canon).
  rewrite E. now rewrite !(right_id 1%Qc Qcdiv).
Qed.

(** *** Loops *)

Lemma fold_left_bind {A B S : Type} (g : S -> B -> S) (f : A -> list B)
    (l : list A) (s : S) :
  fold_left g (l ≫= f) s = fold_left (fun s x => fold_left g (f x) s) l s.
Proof.
  revert s. induction l as [|x l IH]; intros s; csimpl; [reflexivity|].
  now rewrite fold_left_app, IH.
Qed.

Lemma for_range_bind {A S : Type} (n : nat) (f : nat -> list A)
    (g : S -> A -> S) (s : S) :
  for_range n (fun i s => fold_left g (f i) s) s = fold_left g (seq 0 n ≫= f) s.
Proof.
  unfold for_range. now rewrite fold_left_bind.
Qed.

Lemma for_each_ok {A S : Type} (body : A -> S -> outcome S) (xs : list A) (s : S) :
  (forall x, body x s = Ok s) -> for_each body xs s = Ok s.
Proof.
  intros H. induction xs as [|x xs IH]; simpl; [reflexivity|].
  now rewrite H.
Qed.

(** *** Cells *)

Lemma lookup4_upd4 (f : complex -> complex) (i j k l i' j' k' l' : nat)
    (a : cube) :
  lookup4 (upd4 f i j k l a) i' j' k' l'
  = if decide ((i, j, k, l) = (i', j', k', l'))
    then f <$> lookup4 a i' j' k' l'
    else lookup4 a i' j' k' l'.
Proof.
  unfold lookup4, upd4. rewrite list_lookup_alter.
  destruct (decide (i = i')) as [->|Hi].
  2:{ rewrite decide_False by congruence. reflexivity. }
  destruct (a !! i') as [x|] eqn:Hx; simpl.
  2:{ now destruct (decide _). }
  rewrite list_lookup_alter.
  destruct (decide (j = j')) as [->|Hj].
  2:{ rewrite decide_False by congruence. reflexivity. }
  destruct (x !! j') as [y|] eqn:Hy; simpl.
  2:{ now destruct (decide _). }
  rewrite list_lookup_alter.
  destruct (decide (k = k')) as [->|Hk].
  2:{ rewrite decide_False by congruence. reflexivity. }
  destruct (y !! k') as [z|] eqn:Hz; simpl.
  2:{ now destruct (decide _). }
  rewrite list_lookup_alter.
  destruct (decide (l = l')) as [->|Hl].
  - rewrite decide_True by reflexivity. reflexivity.
  - rewrite decide_False by congruence. reflexivity.
Qed.

Lemma get4_lookup4 (a : cube) (i j k l : nat) (x : complex) :
  lookup4 a i j k l = Some x -> get4 a i j k l = x.
Proof.
  unfold lookup4, get4. intros H.
  destruct (a !! i) as [b|] eqn:Hb; simpl in H; [|discriminate].
  destruct (b !! j) as [c|] eqn:Hc; simpl in H; [|discriminate].
  destruct (c !! k) as [d|] eqn:Hd; simpl in H; [|discriminate].
  rewrite (list_lookup_total_correct _ _ _ Hb).
  rewrite (list_lookup_total_correct _ _ _ Hc).
  rewrite (list_lookup_total_correct _ _ _ Hd).
  now apply list_lookup_total_correct.
Qed.

Lemma upd4_upd4 (f g : complex -> complex) (i j k l : nat) (a : cube) :
  upd4 f i j k l (upd4 g i j k l a) = upd4 (fun c => f (g c)) i j k l a.
Proof.
  unfold upd4. rewrite list_alter_alter_eq. apply list_alter_ext; [|done].
  intros b _. simpl. rewrite list_alter_alter_eq. apply list_alter_ext; [|done].
  intros c _. simpl. rewrite list_alter_alter_eq. apply list_alter_ext; [|done].
  intros d _. simpl. now rewrite list_alter_alter_eq.
Qed.

Lemma skel4_upd4 (f : complex -> complex) (i j k l : nat) (a : cube) :
  skel4 (upd4 f i j k l a) = skel4 a.
Proof.
  unfold skel4, upd4.
  erewrite (list_fmap_alter _ _ id); [now apply list_alter_id|].
  apply Forall_forall. intros b _. unfold id.
  erewrite (list_fmap_alter _ _ id); [now apply list_alter_id|].
  apply Forall_forall. intros c _. unfold id.
  erewrite (list_fmap_alter _ _ id); [now apply list_alter_id|].
  apply Forall_forall. intros d _. unfold id. apply length_alter.
Qed.

Lemma for_range_ext {S : Type} (n : nat) (f g : nat -> S -> S) (s : S) :
  (forall i s, (i < n)%nat -> f i s = g i s) -> for_range n f s = for_range n g s.
Proof.
  unfold for_range. intros H.
  assert (Hin : forall i, i ∈ seq 0 n -> (i < n)%nat).
  { intros i Hi. apply elem_of_seq in Hi. lia. }
  revert s Hin. generalize (seq 0 n). intros l.
  induction l as [|x l IH]; intros s Hin; simpl; [reflexivity|].
  rewrite H by (apply Hin; left). apply IH. intros i Hi. apply Hin. now right.
Qed.

Lemma for_range_cells {S : Type} (n : nat) (mk : nat -> cell)
    (step : S -> cell -> S) (s : S) :
  for_range n (fun i s => step s (mk i)) s
  = fold_left step (i ← seq 0 n; [mk i]) s.
Proof.
  rewrite <- for_range_bind. reflexivity.
Qed.

Lemma elem_of_cells4 (n1 n2 n3 n4 : nat) (mk : nat -> nat -> nat -> nat -> cell)
    (p : cell) :
  p ∈ cells4 n1 n2 n3 n4 mk
  <-> exists a b c d, (a < n1 /\ b < n2 /\ c < n3 /\ d < n4)%nat /\ p = mk a b c d.
Proof.
  unfold cells4. split.
  - intros H.
    apply list_elem_of_bind in H as (a & H & Ha).
    apply list_elem_of_bind in H as (b & H & Hb).
    apply list_elem_of_bind in H as (c & H & Hc).
    apply list_elem_of_bind in H as (d & H & Hd).
    apply list_elem_of_singleton in H.
    apply elem_of_seq in Ha, Hb, Hc, Hd.
    exists a, b, c, d. split; [lia | exact H].
  - intros (a & b & c & d & (Ha & Hb & Hc & Hd) & ->).
    apply list_elem_of_bind. exists a. split; [|apply elem_of_seq; lia].
    apply list_elem_of_bind. exists b. split; [|apply elem_of_seq; lia].
    apply list_elem_of_bind. exists c. split; [|apply elem_of_seq; lia].
    apply list_elem_of_bind. exists d. split; [|apply elem_of_seq; lia].
    now apply list_elem_of_singleton.
Qed.

Lemma NoDup_cells4 (n1 n2 n3 n4 : nat) (mk : nat -> nat -> nat -> nat -> cell) :
  (forall a b c d a' b' c' d',
      mk a b c d = mk a' b' c' d' -> a = a' /\ b = b' /\ c = c' /\ d = d') ->
  NoDup (cells4 n1 n2 n3 n4 mk).
Proof.
  intros Hinj. unfold cells4.
  apply NoDup_bind; [| |apply NoDup_seq].
  { intros a a' p _ _ H H'.
    apply list_elem_of_bind in H as (b & H & _).
    apply list_elem_of_bind in H as (c & H & _).
    apply list_elem_of_bind in H as (d & H & _).
    apply list_elem_of_bind in H' as (b' & H' & _).
    apply list_elem_of_bind in H' as (c' & H' & _).
    apply list_elem_of_bind in H' as (d' & H' & _).
    apply list_elem_of_singleton in H, H'. subst p.
    now apply Hinj in H'. }
  intros a _. apply NoDup_bind; [| |apply NoDup_seq].
  { intros b b' p _ _ H H'.
    apply list_elem_of_bind in H as (c & H & _).
    apply list_elem_of_bind in H as (d & H & _).
    apply list_elem_of_bind in H' as (c' & H' & _).
    apply list_elem_of_bind in H' as (d' & H' & _).
    apply list_elem_of_singleton in H, H'. subst p.
    now apply Hinj in H'. }
  intros b _. apply NoDup_bind; [| |apply NoDup_seq].
  { intros c c' p _ _ H H'.
    apply list_elem_of_bind in H as (d & H & _).
    apply list_elem_of_bind in H' as (d' & H' & _).
    apply list_elem_of_singleton in H, H'. subst p.
    now apply Hinj in H'. }
  intros c _. apply NoDup_bind; [| |apply NoDup_seq].
  { intros d d' p _ _ H H'.
    apply list_elem_of_singleton in H, H'. subst p.
    now apply Hinj in H'. }
  intros d _. apply NoDup_singleton.
Qed.

(** A pass over distinct cells, each changed by its own function, changes
    exactly the visited cells, each once. *)
Lemma lookup_fold_cells (F : cell -> complex -> complex) (ps : list cell)
    (a : cube) (q : cell) :
  NoDup ps ->
  lookup_cell (fold_left (fun a p => upd_cell (F p) p a) ps a) q
  = if decide (q ∈ ps) then F q <$> lookup_cell a q else lookup_cell a q.
Proof.
  intros Hnd. revert a. induction Hnd as [|p ps Hp Hnd IH]; intros a.
  { destruct (decide (q ∈ [])) as [H|_]; [|reflexivity].
    now apply not_elem_of_nil in H. }
  cbn [fold_left]. rewrite IH.
  assert (Hup : lookup_cell (upd_cell (F p) p a) q
                = if decide (p = q) then F p <$> lookup_cell a q
                  else lookup_cell a q).
  { destruct p as [[[i j] k] l], q as [[[i' j'] k'] l']. apply lookup4_upd4. }
  rewrite Hup. destruct (decide (p = q)) as [->|Hne].
  - rewrite decide_False by exact Hp.
    rewrite decide_True by (left). reflexivity.
  - destruct (decide (q ∈ ps)) as [Hin|Hnin].
    + rewrite decide_True by (now right). reflexivity.
    + rewrite decide_False; [reflexivity|].
      intros H. apply elem_of_cons in H as [->|H]; [now apply Hne | now apply Hnin].
Qed.

Lemma skel4_fold_cells (F : cell -> complex -> complex) (ps : list cell)
    (a : cube) :
  skel4 (fold_left (fun a p => upd_cell (F p) p a) ps a) = skel4 a.
Proof.
  revert a. induction ps as [|p ps IH]; intros a; simpl; [reflexivity|].
  rewrite IH. destruct p as [[[i j] k] l]. apply skel4_upd4.
Qed.

End ArrayFacts.

(** ** Dedispersion and resampling *)

Module DedispFacts.
Import Arrays ArrayFacts Dedisp.

(** The quotient of a numpy integer by zero is what [Z]'s division says. *)
Lemma np_floordiv_div (a b : Z) : np_floordiv a b = a / b.
Proof.
  unfold np_floordiv. destruct (Z.eqb_spec b 0) as [->|]; [|reflexivity].
  now rewrite Z.div_0_r.
Qed.

(** *** Shapes *)

Lemma list_eq_fmap {A B : Type} (f : A -> B) (l l' : list A) :
  f <$> l = f <$> l' ->
  (forall i x x', l !! i = Some x -> l' !! i = Some x' -> f x = f x' -> x = x') ->
  l = l'.
Proof.
  intros Hf H. apply list_eq. intros i.
  apply (f_equal (fun m => m !! i)) in Hf. rewrite !list_lookup_fmap in Hf.
  destruct (l !! i) as [x|] eqn:Hx, (l' !! i) as [x'|] eqn:Hx';
    simpl in Hf; try discriminate; [|reflexivity].
  f_equal. apply (H i); [exact Hx | exact Hx' | congruence].
Qed.

(** Two cubes with the same shape and the same cells are equal. *)
Lemma cube_ext (a a' : cube) :
  skel4 a = skel4 a' ->
  (forall i j k l x x',
      lookup4 a i j k l = Some x -> lookup4 a' i j k l = Some x' -> x = x') ->
  a = a'.
Proof.
  unfold skel4, lookup4. intros Hs H.
  apply (list_eq_fmap _ _ _ Hs). intros i b b' Hb Hb' Hsb.
  apply (list_eq_fmap _ _ _ Hsb). intros j c c' Hc Hc' Hsc.
  apply (list_eq_fmap _ _ _ Hsc). intros k d d' Hd Hd' Hsd.
  apply list_eq. intros l.
  destruct (d !! l) as [x|] eqn:Hx, (d' !! l) as [x'|] eqn:Hx'.
  - f_equal. apply (H i j k l); rewrite ?Hb, ?Hb'; simpl;
      rewrite ?Hc, ?Hc'; simpl; rewrite ?Hd, ?Hd'; simpl; assumption.
  - apply lookup_lt_Some in Hx. apply lookup_ge_None in Hx'. lia.
  - apply lookup_lt_Some in Hx'. apply lookup_ge_None in Hx. lia.
  - reflexivity.
Qed.

(** In a rectangular cube the cells are exactly those within the shape. *)
Lemma lookup4_rect (a : cube) (n b c p i j k l : nat) :
  skel4 a = replicate n (replicate b (replicate c p)) ->
  is_Some (lookup4 a i j k l) <-> (i < n /\ j < b /\ k < c /\ l < p)%nat.
Proof.
  unfold skel4, lookup4. intros Hs.
  pose proof (f_equal (fun m => m !! i) Hs) as Hi. simpl in Hi.
  rewrite list_lookup_fmap in Hi.
  destruct (a !! i) as [x|] eqn:Hx; simpl in *.
  2:{ symmetry in Hi. apply lookup_replicate_None in Hi.
      split; [intros [? ?]; discriminate | lia]. }
  symmetry in Hi. apply lookup_replicate in Hi as [Hi Hin].
  pose proof (f_equal (fun m => m !! j) Hi) as Hj. simpl in Hj.
  rewrite list_lookup_fmap in Hj.
  destruct (x !! j) as [y|] eqn:Hy; simpl in *.
  2:{ symmetry in Hj. apply lookup_replicate_None in Hj.
      split; [intros [? ?]; discriminate | lia]. }
  symmetry in Hj. apply lookup_replicate in Hj as [Hj Hjn].
  pose proof (f_equal (fun m => m !! k) Hj) as Hk. simpl in Hk.
  rewrite list_lookup_fmap in Hk.
  destruct (y !! k) as [z|] eqn:Hz; simpl in *.
  2:{ symmetry in Hk. apply lookup_replicate_None in Hk.
      split; [intros [? ?]; discriminate | lia]. }
  symmetry in Hk. apply lookup_replicate in Hk as [Hk Hkn].
  rewrite lookup_lt_is_Some. lia.
Qed.

Lemma skel4_zeros4 (n b c p : nat) :
  skel4 (zeros4 n b c p) = replicate n (replicate b (replicate c p)).
Proof.
  unfold skel4, zeros4. rewrite !fmap_replicate. now rewrite length_replicate.
Qed.

Lemma lookup4_zeros4 (n b c p i j k l : nat) (x : complex) :
  lookup4 (zeros4 n b c p) i j k l = Some x -> x = czero.
Proof.
  unfold lookup4, zeros4. intros H.
  destruct (replicate n _ !! i) as [a|] eqn:Ha; simpl in H; [|discriminate].
  apply lookup_replicate in Ha as [-> _].
  destruct (replicate b _ !! j) as [a|] eqn:Ha; simpl in H; [|discriminate].
  apply lookup_replicate in Ha as [-> _].
  destruct (replicate c _ !! k) as [a|] eqn:Ha; simpl in H; [|discriminate].
  apply lookup_replicate in Ha as [-> _].
  now apply lookup_replicate in H as [-> _].
Qed.

Lemma wf_cube_skel (a : cube) :
  wf_cube a = true ->
  skel4 a = replicate (length a)
              (replicate (length (a !!! 0%nat))
                 (replicate (length ((a !!! 0%nat) !!! 0%nat))
                    (length (((a !!! 0%nat) !!! 0%nat) !!! 0%nat)))).
Proof.
  unfold wf_cube, shape4. intros H. now apply bool_decide_eq_true in H.
Qed.

Lemma existsb_lookup {A : Type} (f : A -> bool) (l : list A) :
  existsb f l = true -> exists i x, l !! i = Some x /\ f x = true.
Proof.
  intros H. apply existsb_exists in H as (x & Hin & Hx).
  apply list_elem_of_In, list_elem_of_lookup in Hin as [i Hi]. eauto.
Qed.

Lemma np_any_lookup4 (a : cube) :
  np_any a = true ->
  exists i j k l x, lookup4 a i j k l = Some x /\ cnonzero x = true.
Proof.
  unfold np_any, lookup4. intros H.
  apply existsb_lookup in H as (i & b & Hb & H).
  apply existsb_lookup in H as (j & c & Hc & H).
  apply existsb_lookup in H as (k & d & Hd & H).
  apply existsb_lookup in H as (l & x & Hx & H).
  exists i, j, k, l, x. rewrite Hb. simpl. rewrite Hc. simpl. rewrite Hd. simpl.
  now split.
Qed.

(** *** The sequential fused kernel, cell by cell *)

Lemma weight_of_cons (v : complex) (vs : list complex) :
  weight_of (v :: vs) = (if cnonzero v then 1 else 0) + weight_of vs.
Proof.
  unfold weight_of. simpl. destruct (cnonzero v); simpl; lia.
Qed.

Lemma weight_of_nonneg (vs : list complex) : 0 <= weight_of vs.
Proof. unfold weight_of. lia. Qed.

Lemma accumulate_fold (val : nat -> complex) (i j k l : nat) (rs : list nat)
    (res : cube) (w0 : Z) :
  fold_left
    (fun (s : cube * Z) r =>
       let '(result, weight) := s in
       (upd4 (fun c => cadd c (val r)) i j k l result,
        if cnonzero (val r) then weight + 1 else weight))
    rs (res, w0)
  = (upd4 (fun c => fold_left cadd (map val rs) c) i j k l res,
     w0 + weight_of (map val rs)).
Proof.
  revert res w0. induction rs as [|r rs IH]; intros res w0; simpl.
  - f_equal; [|unfold weight_of; simpl; lia].
    unfold upd4. symmetry. apply list_alter_id. intros b.
    apply list_alter_id. intros c. apply list_alter_id. intros d.
    now apply list_alter_id.
  - rewrite IH. rewrite upd4_upd4. f_equal.
    rewrite weight_of_cons. destruct (cnonzero (val r)); lia.
Qed.

Lemma accumulate_jit_eq (data : cube) (delay : list Z) (dt : Z)
    (i j k l : nat) (res : cube) :
  accumulate_jit data delay dt (length data) i j k l res
  = (upd4 (fun c => fold_left cadd (samples data delay dt i j k l) c) i j k l res,
     weight_of (samples data delay dt i j k l)).
Proof.
  unfold accumulate_jit, for_range, samples.
  exact (accumulate_fold _ i j k l _ res 0).
Qed.

Lemma fold_left_ext {A S : Type} (f g : S -> A -> S) (l : list A) (s : S) :
  (forall s x, f s x = g s x) -> fold_left f l s = fold_left g l s.
Proof.
  intros H. revert s. induction l as [|x l IH]; intros s; simpl; [reflexivity|].
  now rewrite H, IH.
Qed.

Lemma upd4_ext (f g : complex -> complex) (i j k l : nat) (a : cube) :
  (forall c, f c = g c) -> upd4 f i j k l a = upd4 g i j k l a.
Proof.
  intros H. unfold upd4. apply list_alter_ext; [|done].
  intros b _. apply list_alter_ext; [|done].
  intros c _. apply list_alter_ext; [|done].
  intros d _. apply list_alter_ext; [|done]. intros x _. apply H.
Qed.

(** The loop nest of [_dedisperseresample_jit] is one pass over the cells of
    the result, each rewritten from the input samples alone. *)
Lemma jit_as_fold (data : cube) (delay : list Z) (dt : Z) (result : cube) :
  _dedisperseresample_jit data delay dt result
  = fold_left (fun a p => upd_cell (jit_cell data delay dt p) p a)
      (cells4 (length (data !!! 0%nat))
              (length (((data !!! 0%nat) !!! 0%nat) !!! 0%nat))
              (length ((data !!! 0%nat) !!! 0%nat))
              (length result)
              (fun j l k i => (i, j, k, l)))
      result.
Proof.
  unfold _dedisperseresample_jit, shape4, cells4, for_range.
  rewrite !fold_left_bind.
  apply fold_left_ext. intros s1 j. rewrite !fold_left_bind.
  apply fold_left_ext. intros s2 l. rewrite !fold_left_bind.
  apply fold_left_ext. intros s3 k. rewrite !fold_left_bind.
  apply fold_left_ext. intros s4 i. cbn [fold_left].
  rewrite accumulate_jit_eq. unfold upd_cell, jit_cell.
  destruct (0 <? weight_of (samples data delay dt i j k l));
    rewrite upd4_upd4; reflexivity.
Qed.

Lemma cells_jit_NoDup (n1 n2 n3 n4 : nat) :
  NoDup (cells4 n1 n2 n3 n4 (fun j l k i => (i, j, k, l))).
Proof.
  apply NoDup_cells4. intros a b c d a' b' c' d' H. now inversion H.
Qed.

Lemma c_of_int_0 : c_of_int 0 = czero.
Proof.
  unfold c_of_int, czero. f_equal. now apply Qc_is_canon.
Qed.

(** The cell of the output at [(i, j, k, l)], from an all-zero result
    buffer. *)
Lemma jit_cell_lookup (data : cube) (delay : list Z) (dt : Z)
    (n i j k l : nat) :
  let b := length (data !!! 0%nat) in
  let c := length ((data !!! 0%nat) !!! 0%nat) in
  let p := length (((data !!! 0%nat) !!! 0%nat) !!! 0%nat) in
  (i < n)%nat -> (j < b)%nat -> (k < c)%nat -> (l < p)%nat ->
  lookup4 (_dedisperseresample_jit data delay dt (zeros4 n b c p)) i j k l
  = Some (jit_cell data delay dt (i, j, k, l) czero).
Proof.
  intros b c p Hi Hj Hk Hl. rewrite jit_as_fold.
  fold b c p.
  assert (Hlen : length (zeros4 n b c p) = n) by apply length_replicate.
  rewrite Hlen.
  pose proof (lookup_fold_cells (jit_cell data delay dt)
                (cells4 b p c n (fun j l k i => (i, j, k, l)))
                (zeros4 n b c p) (i, j, k, l) (cells_jit_NoDup _ _ _ _)) as H.
  simpl in H. rewrite H. clear H.
  rewrite decide_True.
  2:{ apply elem_of_cells4. exists j, l, k, i. split; [lia | reflexivity]. }
  destruct (proj2 (lookup4_rect _ n b c p i j k l (skel4_zeros4 n b c p)))
    as [x Hx]; [lia|].
  rewrite Hx. simpl. now rewrite (lookup4_zeros4 _ _ _ _ _ _ _ _ _ Hx).
Qed.

Lemma fold_cadd_zeros (zs : list complex) (c : complex) :
  Forall (fun z => z = czero) zs -> fold_left cadd zs c = c.
Proof.
  intros H. revert c. induction H as [|z zs -> _ IH]; intros c; simpl;
    [reflexivity|].
  now rewrite cadd_0_r.
Qed.

Lemma weight_of_zeros (zs : list complex) :
  Forall (fun z => z = czero) zs -> weight_of zs = 0.
Proof.
  induction 1 as [|z zs -> _ IH]; [reflexivity|].
  rewrite weight_of_cons, IH. reflexivity.
Qed.

Lemma weight_of_app (xs ys : list complex) :
  weight_of (xs ++ ys) = weight_of xs + weight_of ys.
Proof.
  induction xs as [|x xs IH]; [reflexivity|].
  simpl. rewrite !weight_of_cons, IH. lia.
Qed.

Lemma jit_cell_mean (data : cube) (delay : list Z) (dt : Z) (i j k l : nat) :
  jit_cell data delay dt (i, j, k, l) czero
  = weighted_mean (samples data delay dt i j k l).
Proof.
  unfold jit_cell, weighted_mean.
  destruct (0 <? weight_of (samples data delay dt i j k l)) eqn:E;
    [reflexivity|].
  apply Z.ltb_ge in E.
  pose proof (weight_of_nonneg (samples data delay dt i j k l)) as H.
  replace (weight_of (samples data delay dt i j k l)) with 0 by lia.
  apply c_of_int_0.
Qed.

Lemma weighted_mean_single (before after : list complex) (v : complex) :
  Forall (fun z => z = czero) before -> Forall (fun z => z = czero) after ->
  v <> czero -> weighted_mean (before ++ v :: after) = v.
Proof.
  intros Hb Ha Hv. unfold weighted_mean.
  rewrite weight_of_app, weight_of_cons, (weight_of_zeros _ Hb),
    (weight_of_zeros _ Ha).
  apply cnonzero_true in Hv. rewrite Hv. simpl.
  rewrite fold_left_app. simpl. rewrite (fold_cadd_zeros _ _ Hb), cadd_0_l.
  rewrite (fold_cadd_zeros _ _ Ha). apply cdiv_int_1.
Qed.

Lemma weighted_mean_flagged (vals : list complex) :
  Forall (fun z => z = czero) vals -> weighted_mean vals = czero.
Proof.
  intros H. unfold weighted_mean. now rewrite (weight_of_zeros _ H).
Qed.

(** C7: in the fused kernel, started on a zeroed result buffer as the wrapper
    does, the output cell [(i, j, k, l)] holds the sum of the [dt] input
    samples [in[i*dt + delay[k] + r]] divided by the number of non-zero
    samples among them, or zero when there is none; with exactly one
    non-zero sample the cell is that sample, with none it is exactly 0. *)
Theorem dedisperseresample_jit_cell (data : cube) (delay : list Z) (dt : Z)
    (nintout i j k l : nat) :
  let nbl := length (data !!! 0%nat) in
  let nchan := length ((data !!! 0%nat) !!! 0%nat) in
  let npol := length (((data !!! 0%nat) !!! 0%nat) !!! 0%nat) in
  let out :=
    _dedisperseresample_jit data delay dt (zeros4 nintout nbl nchan npol) in
  let vals := samples data delay dt i j k l in
  (i < nintout)%nat -> (j < nbl)%nat -> (k < nchan)%nat -> (l < npol)%nat ->
  get4 out i j k l = weighted_mean vals
  /\ (forall before v after,
         vals = before ++ v :: after ->
         Forall (fun z => z = czero) before ->
         Forall (fun z => z = czero) after ->
         v <> czero ->
         get4 out i j k l = v)
  /\ (Forall (fun z => z = czero) vals -> get4 out i j k l = czero).
Proof.
  intros nbl nchan npol out vals Hi Hj Hk Hl.
  assert (Hget : get4 out i j k l = weighted_mean vals).
  { apply get4_lookup4. unfold vals. rewrite <- jit_cell_mean.
    exact (jit_cell_lookup data delay dt nintout i j k l Hi Hj Hk Hl). }
  split; [exact Hget|]. split.
  - intros before v after Hv Hb Ha Hnz. rewrite Hget, Hv.
    now apply weighted_mean_single.
  - intros Hz. rewrite Hget. now apply weighted_mean_flagged.
Qed.

(** On the example cube with [dt = 2] the first output cell of channel 0
    averages the samples 1 and 0 (flagged): it is 1, not 1/2. *)
Lemma dedisperseresample_jit_cell_witness :
  get4 (_dedisperseresample_jit example_cube [0; 0] 2 (zeros4 2 1 2 1))
       0 0 0 0 = c_of_int 1.
Proof.
  destruct (dedisperseresample_jit_cell example_cube [0; 0] 2 2 0 0 0 0)
    as (_ & H & _); try (simpl; lia).
  apply (H [] (c_of_int 1) [c_of_int 0]).
  - reflexivity.
  - constructor.
  - constructor; [apply c_of_int_0 | constructor].
  - intros E. apply (f_equal cnonzero) in E. vm_compute in E. discriminate.
Defined.

(** In the sequential mode the wrapper returns what the kernel leaves in a
    zeroed buffer of [(nint - delay.max())//dt] integrations. *)
Lemma dedisperseresample_sequential (data : cube) (delay : list Z)
    (dt dmax : Z) :
  np_any data = true ->
  delay_max delay = Ok dmax ->
  dt <> 0 ->
  0 <= (Z.of_nat (length data) - dmax) / dt ->
  dedisperseresample data delay dt false
  = Ok (_dedisperseresample_jit data delay dt
          (zeros4 (Z.to_nat ((Z.of_nat (length data) - dmax) / dt))
             (length (data !!! 0%nat))
             (length ((data !!! 0%nat) !!! 0%nat))
             (length (((data !!! 0%nat) !!! 0%nat) !!! 0%nat)))).
Proof.
  intros Hany Hmax Hdt Hn. unfold dedisperseresample.
  rewrite Hany, Hmax. simpl. rewrite !np_floordiv_div.
  destruct (Z.ltb_spec ((Z.of_nat (length data) - dmax) / dt) 0);
    [lia | reflexivity].
Qed.

Lemma delay_max_zeros (delay : list Z) :
  delay <> [] -> Forall (fun d => d = 0) delay -> delay_max delay = Ok 0.
Proof.
  intros Hne H. destruct H as [|d ds -> H]; [congruence|]. simpl. f_equal.
  clear Hne. induction H as [|d ds -> _ IH]; [reflexivity|]. exact IH.
Qed.

Lemma samples_identity (data : cube) (delay : list Z) (i j k l : nat) :
  Forall (fun d => d = 0) delay ->
  samples data delay 1 i j k l = [get4 data i j k l].
Proof.
  intros Hz. unfold samples. simpl.
  assert (Hd : delay_at delay k = 0).
  { unfold delay_at. destruct (nth_in_or_default k delay 0) as [Hin|E];
      [|exact E].
    rewrite Forall_forall in Hz. apply Hz. now apply list_elem_of_In. }
  rewrite Hd. unfold np_index.
  replace (Z.of_nat i * 1 + 0 + Z.of_nat 0) with (Z.of_nat i) by lia.
  destruct (Z.of_nat i <? 0) eqn:E; [apply Z.ltb_lt in E; lia|].
  now rewrite Nat2Z.id.
Qed.

Lemma jit_cell_identity (data : cube) (delay : list Z) (i j k l : nat) :
  Forall (fun d => d = 0) delay ->
  jit_cell data delay 1 (i, j, k, l) czero = get4 data i j k l.
Proof.
  intros Hz. rewrite jit_cell_mean, (samples_identity _ _ _ _ _ _ Hz).
  destruct (cnonzero (get4 data i j k l)) eqn:E.
  - apply (weighted_mean_single [] []); [constructor | constructor|].
    now apply cnonzero_true.
  - apply cnonzero_false in E. rewrite E.
    apply weighted_mean_flagged. now repeat constructor.
Qed.

(** C6, as stated, fails on an all-zero cube: the wrapper returns the empty
    array before any kernel runs, in both modes. *)
Lemma dedisperseresample_zero_cube_not_identity :
  dedisperseresample (zeros4 2 1 1 1) [0] 1 false = Ok []
  /\ dedisperseresample (zeros4 2 1 1 1) [0] 1 true = Ok []
  /\ dedisperseresample (zeros4 2 1 1 1) [0] 1 false <> Ok (zeros4 2 1 1 1).
Proof.
  repeat split. discriminate.
Qed.

(** C6 (amended): for every rectangular visibility cube [C] with at least
    one non-zero sample, fused dedispersion and resampling with all delays
    zero and [dt = 1] returns [C], in the sequential and in the parallel
    mode. *)
Theorem dedisperseresample_identity (C : cube) (delay : list Z)
    (parallel : bool) :
  wf_cube C = true ->
  np_any C = true ->
  length delay = length ((C !!! 0%nat) !!! 0%nat) ->
  Forall (fun d => d = 0) delay ->
  dedisperseresample C delay 1 parallel = Ok C.
Proof.
  intros Hwf Hany Hlen Hz.
  pose proof (wf_cube_skel _ Hwf) as Hsk.
  destruct (np_any_lookup4 _ Hany) as (i0 & j0 & k0 & l0 & x0 & Hx0 & _).
  pose proof (proj1 (lookup4_rect _ _ _ _ _ i0 j0 k0 l0 Hsk)
                    (ex_intro _ x0 Hx0)) as (_ & _ & Hk0 & _).
  assert (Hne : delay <> []).
  { intros ->. simpl in Hlen. lia. }
  pose proof (delay_max_zeros _ Hne Hz) as Hmax.
  unfold dedisperseresample. rewrite Hany, Hmax. simpl.
  rewrite !np_floordiv_div, Z.sub_0_r, Z.div_1_r. destruct parallel.
  - assert (Hgu : _dedisperseresample_gu C delay 1 = Ok C).
    { unfold _dedisperseresample_gu. simpl. rewrite Hlen, Nat.eqb_refl. simpl.
      apply for_each_ok.
      intros b. unfold _dedisperseresample_gu_core. simpl.
      now rewrite Hmax. }
    rewrite Hgu. simpl. f_equal. unfold slice_to.
    rewrite !np_floordiv_div, Z.sub_0_r, Z.div_1_r.
    destruct (Z.of_nat (length C) <? 0) eqn:E; [apply Z.ltb_lt in E; lia|].
    rewrite Nat2Z.id. apply firstn_all.
  - destruct (Z.of_nat (length C) <? 0) eqn:E; [apply Z.ltb_lt in E; lia|].
    rewrite Nat2Z.id. f_equal. apply cube_ext.
    + rewrite jit_as_fold, skel4_fold_cells, skel4_zeros4. now rewrite Hsk.
    + intros i j k l x x' Hx Hx'.
      pose proof (proj1 (lookup4_rect _ _ _ _ _ i j k l Hsk)
                        (ex_intro _ x' Hx')) as (Hi & Hj & Hk & Hl).
      rewrite (jit_cell_lookup C delay 1 _ i j k l Hi Hj Hk Hl) in Hx.
      rewrite (jit_cell_identity _ _ _ _ _ _ Hz) in Hx.
      rewrite (get4_lookup4 _ _ _ _ _ _ Hx') in Hx. congruence.
Qed.

(** The example cube comes back unchanged from both modes. *)
Lemma dedisperseresample_identity_witness :
  dedisperseresample example_cube [0; 0] 1 false = Ok example_cube
  /\ dedisperseresample example_cube [0; 0] 1 true = Ok example_cube.
Proof.
  split; apply dedisperseresample_identity;
    first [ reflexivity | repeat constructor ].
Defined.

(** C8: on an all-zero cube each of [dedisperse], [resample] and
    [dedisperseresample] returns the empty array, whatever the delays, the
    factor and the mode, and raises nothing. *)
Theorem all_zero_returns_empty (data : cube) (delay : list Z) (dt : Z)
    (parallel : bool) :
  np_any data = false ->
  dedisperse data delay parallel = Ok []
  /\ resample data dt parallel = Ok []
  /\ dedisperseresample data delay dt parallel = Ok [].
Proof.
  intros H. unfold dedisperse, resample, dedisperseresample.
  rewrite H. simpl. repeat split.
Qed.

(** A cube of zeros, an empty delay table and a zero factor: still the empty
    array, not [ValueError] or [ZeroDivisionError]. *)
Lemma all_zero_returns_empty_witness :
  np_any (zeros4 3 2 2 1) = false
  /\ dedisperse (zeros4 3 2 2 1) [] true = Ok []
  /\ resample (zeros4 3 2 2 1) 0 false = Ok []
  /\ dedisperseresample (zeros4 3 2 2 1) [] 0 true = Ok [].
Proof.
  split; [reflexivity|].
  apply (all_zero_returns_empty (zeros4 3 2 2 1) [] 0 true). reflexivity.
Defined.

End DedispFacts.

(** ** Gridding *)

Module GridFacts.
Import Arrays ArrayFacts Grid.

(** *** Loops over lists of grids *)

Lemma for_range_S {S : Type} (n : nat) (body : nat -> S -> S) (s : S) :
  for_range (Datatypes.S n) body s = body n (for_range n body s).
Proof.
  unfold for_range. rewrite seq_S, fold_left_app. reflexivity.
Qed.

(** A loop that keeps changing the same element is one change of it. *)
Lemma for_range_alter {A : Type} (m i : nat) (F : nat -> A -> A) (gs : list A) :
  for_range m (fun l gs => alter (F l) i gs) gs
  = alter (fun g => for_range m F g) i gs.
Proof.
  induction m as [|m IH].
  - unfold for_range. simpl. symmetry. now apply list_alter_id.
  - rewrite for_range_S, IH, list_alter_alter_eq.
    apply list_alter_ext; [|reflexivity]. intros g _. simpl.
    now rewrite for_range_S.
Qed.

(** A loop over [i] that changes element [i] changes every element below
    the bound, once. *)
Lemma lookup_for_range_alter {A : Type} (n i : nat) (F : nat -> A -> A)
    (gs : list A) :
  for_range n (fun i gs => alter (F i) i gs) gs !! i
  = if decide (i < n)%nat then F i <$> gs !! i else gs !! i.
Proof.
  induction n as [|n IH].
  - unfold for_range. cbn [seq fold_left]. case_decide; [lia | reflexivity].
  - rewrite for_range_S, list_lookup_alter.
    destruct (decide (n = i)) as [->|Hne]; rewrite IH;
      repeat case_decide; try lia; reflexivity.
Qed.

(** If every pass acts on element [i] through [h], so does the loop. *)
Lemma lookup_for_range {A : Type} (n i : nat)
    (body : nat -> list A -> list A) (h : nat -> A -> A) (gs : list A) :
  (forall x gs, body x gs !! i = h x <$> gs !! i) ->
  for_range n body gs !! i = (fun g => for_range n h g) <$> gs !! i.
Proof.
  intros H. induction n as [|n IH].
  - unfold for_range. simpl. now destruct (gs !! i).
  - rewrite for_range_S, H, IH. destruct (gs !! i); simpl; [|reflexivity].
    now rewrite for_range_S.
Qed.

Lemma lookup_for_range_id {A : Type} (n i : nat)
    (body : nat -> list A -> list A) (gs : list A) :
  (forall x gs, body x gs !! i = gs !! i) ->
  for_range n body gs !! i = gs !! i.
Proof.
  intros H. induction n as [|n IH]; [reflexivity|].
  now rewrite for_range_S, H, IH.
Qed.

(** *** The pair-major nest, one integration at a time *)

Lemma pairs_kernel_lookup (keep : nat -> nat -> bool)
    (cu cv : nat -> nat -> nat) (data : cube) (nint nbl nchan npol : nat)
    (grids : list uvgrid) (i : nat) :
  pairs_kernel keep cu cv data nint nbl nchan npol grids !! i
  = if decide (i < nint)%nat
    then per_int keep cu cv (data !!! i) nbl nchan npol <$> grids !! i
    else grids !! i.
Proof.
  unfold pairs_kernel, per_int.
  assert (Hbody : forall j k gs,
    (if keep j k
     then for_range nint (fun i =>
            for_range npol (fun l grids =>
              upd3 (fun c => cadd c (get4 data i j k l))
                   i (cu j k) (cv j k) grids)) gs
     else gs) !! i
    = if decide (i < nint)%nat
      then pair_acc keep cu cv (data !!! i) npol j k <$> gs !! i
      else gs !! i).
  { intros j k gs. unfold pair_acc. destruct (keep j k).
    - erewrite for_range_ext.
      2:{ intros i' s _. unfold upd3. apply for_range_alter. }
      apply (lookup_for_range_alter nint i
               (fun i' g => for_range npol
                  (fun l g => upd2 (fun c => cadd c (get4 data i' j k l))
                                (cu j k) (cv j k) g) g)).
    - destruct (decide (i < nint)%nat); [|reflexivity].
      now destruct (gs !! i). }
  destruct (decide (i < nint)%nat) as [Hi|Hi].
  - apply lookup_for_range. intros j gs.
    apply lookup_for_range. intros k gs'. now rewrite Hbody.
  - apply lookup_for_range_id. intros j gs.
    apply lookup_for_range_id. intros k gs'. now rewrite Hbody.
Qed.

(** *** Shapes of the slabs of a rectangular cube *)

Lemma skel3_shape (d d' : slab) :
  map (map length) d = map (map length) d' ->
  length d = length d'
  /\ length (d !!! 0%nat) = length (d' !!! 0%nat)
  /\ length ((d !!! 0%nat) !!! 0%nat) = length ((d' !!! 0%nat) !!! 0%nat).
Proof.
  intros H. split.
  { apply (f_equal length) in H. now rewrite !length_map in H. }
  destruct d as [|x d], d' as [|x' d']; simpl in H; try discriminate;
    [now split|].
  injection H as Hx _. split.
  { apply (f_equal length) in Hx. now rewrite !length_map in Hx. }
  destruct x as [|y x], x' as [|y' x']; simpl in Hx; try discriminate;
    [reflexivity|].
  now injection Hx as Hy _.
Qed.

Lemma wf_slab_shape (data : cube) (i : nat) :
  wf_cube data = true -> (i < length data)%nat ->
  length (data !!! i) = length (data !!! 0%nat)
  /\ length ((data !!! i) !!! 0%nat) = length ((data !!! 0%nat) !!! 0%nat)
  /\ length (((data !!! i) !!! 0%nat) !!! 0%nat)
     = length (((data !!! 0%nat) !!! 0%nat) !!! 0%nat).
Proof.
  intros Hwf Hi. pose proof (DedispFacts.wf_cube_skel _ Hwf) as Hsk.
  unfold skel4 in Hsk.
  assert (Hrow : forall i', (i' < length data)%nat ->
            map (map length) (data !!! i')
            = replicate (length (data !!! 0%nat))
                (replicate (length ((data !!! 0%nat) !!! 0%nat))
                   (length (((data !!! 0%nat) !!! 0%nat) !!! 0%nat)))).
  { intros i' Hi'.
    destruct (lookup_lt_is_Some_2 data i' Hi') as [x Hx].
    rewrite (list_lookup_total_correct _ _ _ Hx).
    pose proof (f_equal (fun m => m !! i') Hsk) as E. simpl in E.
    rewrite list_lookup_fmap, Hx in E. simpl in E. symmetry in E.
    apply lookup_replicate in E as [E _]. exact E. }
  apply skel3_shape. rewrite (Hrow i Hi). symmetry. apply Hrow. lia.
Qed.

Lemma empty_cube_shape (data : cube) :
  length data = 0%nat -> length (data !!! 0%nat) = 0%nat.
Proof. now destruct data. Qed.

(** *** The three gridders as passes over single integrations *)

Lemma grid_pairs_as_kernel (rnd : Q -> Z) (data : cube) (u v : coords)
    (npixx npixy uvres : Z) (grids : list uvgrid) :
  grid_pairs rnd data u v npixx npixy uvres grids
  = pairs_kernel (in_field rnd u v npixx npixy uvres)
      (cell_of rnd u npixx uvres) (cell_of rnd v npixy uvres) data
      (length data) (length (data !!! 0%nat))
      (length ((data !!! 0%nat) !!! 0%nat))
      (length (((data !!! 0%nat) !!! 0%nat) !!! 0%nat)) grids.
Proof.
  unfold grid_pairs, pairs_kernel, shape4.
  apply for_range_ext. intros j s _. apply for_range_ext. intros k s' _.
  unfold in_field, cell_of.
  now destruct (_ || _).
Qed.

Lemma field_test_agrees (a b h h' : Z) :
  - h < a -> - h' < b ->
  np_abs_bool (a <? h) && np_abs_bool (b <? h')
  = negb ((h <=? Z.abs a) || (h' <=? Z.abs b)).
Proof.
  intros Ha Hb. unfold np_abs_bool.
  destruct (Z.ltb_spec a h), (Z.ltb_spec b h'), (Z.leb_spec h (Z.abs a)),
    (Z.leb_spec h' (Z.abs b)); simpl; try reflexivity; lia.
Qed.

Lemma jit_as_kernel (data : cube) (u v : coords) (npixx npixy uvres : Z)
    (grids : list uvgrid) :
  all_pairs data (fun j k =>
    - (npixx / 2) < Util.py_int (scaled u uvres j k)
    /\ - (npixy / 2) < Util.py_int (scaled v uvres j k)) ->
  for_range (length (data !!! 0%nat)) (fun j =>
    for_range (length ((data !!! 0%nat) !!! 0%nat)) (fun k grids =>
      let ubl := Util.py_int (scaled u uvres j k) in
      let vbl := Util.py_int (scaled v uvres j k) in
      if np_abs_bool (ubl <? npixx / 2) && np_abs_bool (vbl <? npixy / 2)
      then
        let umod := ubl mod npixx in
        let vmod := vbl mod npixy in
        for_range (length data) (fun i =>
          for_range (length (((data !!! 0%nat) !!! 0%nat) !!! 0%nat))
            (fun l grids =>
               upd3 (fun c => cadd c (get4 data i j k l))
                    i (Z.to_nat umod) (Z.to_nat vmod) grids)) grids
      else grids)) grids
  = pairs_kernel (in_field Util.py_int u v npixx npixy uvres)
      (cell_of Util.py_int u npixx uvres) (cell_of Util.py_int v npixy uvres)
      data (length data) (length (data !!! 0%nat))
      (length ((data !!! 0%nat) !!! 0%nat))
      (length (((data !!! 0%nat) !!! 0%nat) !!! 0%nat)) grids.
Proof.
  intros Hall. unfold pairs_kernel.
  apply for_range_ext. intros j s Hj. apply for_range_ext. intros k s' Hk.
  destruct (Hall j k Hj Hk) as [Hu Hv]. cbv zeta.
  rewrite (field_test_agrees _ _ _ _ Hu Hv). reflexivity.
Qed.

Lemma gu_core_as_per_int (d : slab) (us vs ws : coords)
    (npixx npixy uvres : Z) (g : uvgrid) :
  _grid_visibilities_gu_core d us vs ws npixx npixy uvres g
  = per_int (in_field np_round us vs npixx npixy uvres)
      (cell_of np_round us npixx uvres) (cell_of np_round vs npixy uvres)
      d (length d) (length (d !!! 0%nat))
      (length ((d !!! 0%nat) !!! 0%nat)) g.
Proof.
  unfold _grid_visibilities_gu_core, per_int, pair_acc.
  apply for_range_ext. intros j s _. apply for_range_ext. intros k s' _.
  unfold in_field, cell_of. cbv zeta.
  destruct (Z.ltb_spec (Z.abs (np_round (scaled us uvres j k))) (npixx / 2)),
    (Z.ltb_spec (Z.abs (np_round (scaled vs uvres j k))) (npixy / 2)),
    (Z.leb_spec (npixx / 2) (Z.abs (np_round (scaled us uvres j k)))),
    (Z.leb_spec (npixy / 2) (Z.abs (np_round (scaled vs uvres j k))));
    simpl; try reflexivity; lia.
Qed.

(** The sequential backend is the specified gridder with truncation, as
    long as no truncated coordinate is at or below minus half the grid. *)
Lemma jit_is_spec (data : cube) (u v w : coords) (npixx npixy uvres : Z) :
  all_pairs data (fun j k =>
    - (npixx / 2) < Util.py_int (scaled u uvres j k)
    /\ - (npixy / 2) < Util.py_int (scaled v uvres j k)) ->
  grid_visibilities data (u, v, w) npixx npixy uvres false
  = grid_spec Util.py_int data (u, v, w) npixx npixy uvres.
Proof.
  intros Hall. unfold grid_visibilities, grid_spec, _grid_visibilities_jit, shape4.
  destruct ((npixx <? 0) || (npixy <? 0)); [reflexivity|].
  assert (Hg : Nat.eqb (length (data !!! 0%nat)
                        * length ((data !!! 0%nat) !!! 0%nat)) 0
               = Nat.eqb (length data * length (data !!! 0%nat)
                          * length ((data !!! 0%nat) !!! 0%nat)) 0).
  { destruct (length data) eqn:E.
    - rewrite (empty_cube_shape _ E). reflexivity.
    - destruct (Nat.eqb_spec (length (data !!! 0%nat)
                              * length ((data !!! 0%nat) !!! 0%nat)) 0) as [Z0|NZ].
      + symmetry. apply Nat.eqb_eq. nia.
      + symmetry. apply Nat.eqb_neq. nia. }
  rewrite Hg. destruct (_ && _); [reflexivity|]. f_equal.
  rewrite grid_pairs_as_kernel. now apply jit_as_kernel.
Qed.

(** The data-parallel backend is the specified gridder with rounding. *)
Lemma gu_is_spec (data : cube) (u v w : coords) (npixx npixy uvres : Z) :
  wf_cube data = true ->
  grid_visibilities data (u, v, w) npixx npixy uvres true
  = grid_spec np_round data (u, v, w) npixx npixy uvres.
Proof.
  intros Hwf. unfold grid_visibilities, grid_spec, _grid_visibilities_gu, shape4.
  destruct ((npixx <? 0) || (npixy <? 0)); [reflexivity|].
  destruct (_ && _); [reflexivity|]. f_equal.
  rewrite grid_pairs_as_kernel. apply list_eq. intros i.
  rewrite pairs_kernel_lookup, lookup_for_range_alter.
  destruct (decide (i < length data)%nat) as [Hi|Hi]; [|reflexivity].
  destruct (wf_slab_shape data i Hwf Hi) as (H1 & H2 & H3).
  rewrite <- H1, <- H2, <- H3.
  destruct (zero_grids (length data) npixx npixy !! i); simpl; [|reflexivity].
  f_equal. apply gu_core_as_per_int.
Qed.

(** The specified gridder depends on the rounding only through the
    coordinates of the pairs. *)
Lemma grid_spec_ext (r1 r2 : Q -> Z) (data : cube) (u v w : coords)
    (npixx npixy uvres : Z) :
  all_pairs data (fun j k =>
    r1 (scaled u uvres j k) = r2 (scaled u uvres j k)
    /\ r1 (scaled v uvres j k) = r2 (scaled v uvres j k)) ->
  grid_spec r1 data (u, v, w) npixx npixy uvres
  = grid_spec r2 data (u, v, w) npixx npixy uvres.
Proof.
  intros Hall. unfold grid_spec, grid_pairs, shape4.
  destruct ((npixx <? 0) || (npixy <? 0)); [reflexivity|].
  destruct (_ && _); [reflexivity|]. f_equal.
  apply for_range_ext. intros j s Hj. apply for_range_ext. intros k s' Hk.
  destruct (Hall j k Hj Hk) as [Hu Hv]. cbv zeta. now rewrite Hu, Hv.
Qed.

Lemma all_pairs_b_spec (data : cube) (P : nat -> nat -> bool) :
  all_pairs_b data P = true -> all_pairs data (fun j k => P j k = true).
Proof.
  unfold all_pairs_b, all_pairs. intros H j k Hj Hk.
  rewrite forallb_forall in H.
  assert (Hjin : In j (seq 0 (length (data !!! 0%nat)))) by (apply in_seq; lia).
  specialize (H j Hjin). rewrite forallb_forall in H.
  apply H. apply in_seq. lia.
Qed.

(** C4, as stated, fails: a sample at [u = 0.6] cells goes to cell 0 in the
    sequential backend, which truncates, and to cell 1 in the data-parallel
    backend, which rounds. *)
Lemma gridding_backends_differ :
  lit (grid_visibilities one_sample off_centre 4 4 1 false) 0 0 = true
  /\ lit (grid_visibilities one_sample off_centre 4 4 1 true) 0 0 = false
  /\ lit (grid_visibilities one_sample off_centre 4 4 1 true) 1 0 = true
  /\ grid_visibilities one_sample off_centre 4 4 1 false
     <> grid_visibilities one_sample off_centre 4 4 1 true.
Proof.
  repeat split. intros H.
  apply (f_equal (fun r => lit r 0 0)) in H. vm_compute in H. discriminate.
Qed.

(** C4 (amended): on a rectangular cube the two backends produce the same
    grids whenever truncation and rounding give the same grid coordinates
    for every (baseline, channel) pair and no coordinate is at or below
    minus half the grid size. *)
Theorem gridding_backends_agree (data : cube) (u v w : coords)
    (npixx npixy uvres : Z) :
  wf_cube data = true ->
  all_pairs_b data (coords_agree u v uvres) = true ->
  all_pairs_b data (above_lower_edge u v npixx npixy uvres) = true ->
  grid_visibilities data (u, v, w) npixx npixy uvres false
  = grid_visibilities data (u, v, w) npixx npixy uvres true.
Proof.
  intros Hwf Hagree Hedge.
  apply all_pairs_b_spec in Hagree, Hedge.
  rewrite (gu_is_spec _ _ _ _ _ _ _ Hwf).
  rewrite jit_is_spec.
  - apply grid_spec_ext. intros j k Hj Hk. specialize (Hagree j k Hj Hk).
    unfold coords_agree in Hagree. simpl in Hagree.
    apply andb_true_iff in Hagree as [Hu Hv].
    now apply Z.eqb_eq in Hu, Hv.
  - intros j k Hj Hk. specialize (Hedge j k Hj Hk).
    unfold above_lower_edge in Hedge. simpl in Hedge.
    apply andb_true_iff in Hedge as [Hu Hv].
    now apply Z.ltb_lt in Hu, Hv.
Qed.

(** Two integrations, two baselines on integral cells: both backends give
    the same two grids. *)
Lemma gridding_backends_agree_witness :
  grid_visibilities grid_example grid_example_uvw 4 4 1 false
  = grid_visibilities grid_example grid_example_uvw 4 4 1 true.
Proof.
  apply gridding_backends_agree; reflexivity.
Defined.

(** C5, as stated, fails for the sequential backend: it truncates instead
    of rounding, so the sample at [u = 0.6] cells is not accumulated at the
    rounded cell 1 but at cell 0. *)
Lemma gridder_jit_not_rounded :
  lit (grid_spec np_round one_sample off_centre 4 4 1) 1 0 = true
  /\ lit (grid_visibilities one_sample off_centre 4 4 1 false) 1 0 = false
  /\ grid_visibilities one_sample off_centre 4 4 1 false
     <> grid_spec np_round one_sample off_centre 4 4 1.
Proof.
  repeat split. intros H.
  apply (f_equal (fun r => lit r 1 0)) in H. vm_compute in H. discriminate.
Qed.

(** C5 (amended): the data-parallel gridder is the specified one with
    [u' = round(u/cellRes)], [v' = round(v/cellRes)]: pairs with
    [|u'| >= npixx//2] or [|v'| >= npixy//2] discarded, kept coordinates
    folded by modulo, all polarizations accumulated at the cell for every
    integration.  The sequential gridder is the same with truncation toward
    zero in place of rounding, on every input whose truncated coordinates
    all exceed minus half the grid size. *)
Theorem gridder_contract (data : cube) (u v w : coords)
    (npixx npixy cellRes : Z) :
  wf_cube data = true ->
  grid_visibilities data (u, v, w) npixx npixy cellRes true
  = grid_spec np_round data (u, v, w) npixx npixy cellRes
  /\ (all_pairs_b data (above_lower_edge u v npixx npixy cellRes) = true ->
      grid_visibilities data (u, v, w) npixx npixy cellRes false
      = grid_spec Util.py_int data (u, v, w) npixx npixy cellRes).
Proof.
  intros Hwf. split; [now apply gu_is_spec|].
  intros Hedge. apply all_pairs_b_spec in Hedge. apply jit_is_spec.
  intros j k Hj Hk. specialize (Hedge j k Hj Hk).
  unfold above_lower_edge in Hedge. simpl in Hedge.
  apply andb_true_iff in Hedge as [Hu Hv].
  now apply Z.ltb_lt in Hu, Hv.
Qed.

(** On the off-centre sample the two gridders meet their two
    specifications, which differ. *)
Lemma gridder_contract_witness :
  grid_visibilities one_sample off_centre 4 4 1 true
  = grid_spec np_round one_sample off_centre 4 4 1
  /\ grid_visibilities one_sample off_centre 4 4 1 false
     = grid_spec Util.py_int one_sample off_centre 4 4 1.
Proof.
  destruct (gridder_contract one_sample [[3 # 5]]%Q [[0]]%Q [[0]]%Q 4 4 1)
    as [H1 H2]; [reflexivity|].
  split; [exact H1 | apply H2; reflexivity].
Defined.

End GridFacts.

(** ** Kalman significance *)

Module KalmanFacts.
Import Util Kalman.

Lemma default_sig_ts_length (spec_std : list float) :
  length (default_sig_ts spec_std) = 4%nat.
Proof. reflexivity. Qed.

(** With a zero noise level the filter divides by zero in its first
    channel, whatever the spectrum and the smoothness scale. *)
Lemma detector_zero_noise (np_log : float -> float) (z : float)
    (zs : list float) :
  kalman_filter_detector np_log (z :: zs) [0%float] 0%float
  = Raise ZeroDivisionError.
Proof.
  unfold kalman_filter_detector.
  change (np_median [0%float]) with 0%float.
  cbn [map combine for_each]. destruct zs; reflexivity.
Qed.

(** So does the preparation of the coefficients, for any random generator
    that returns as many draws as it is asked for. *)
Lemma prepare_zero_noise (np_log : float -> float) (rng : Type)
    (random_normal : list float -> nat -> rng -> list float * rng)
    (np_percentile : list float -> float -> float)
    (np_polyfit1 : list float -> list float -> float * float)
    (n_trial : nat) (g : rng) :
  (forall std n g, length (fst (random_normal std n g)) = n) ->
  kalman_prepare_coeffs np_log rng random_normal np_percentile np_polyfit1
    [0%float] (SigList (default_sig_ts [0%float])) (S n_trial) g
  = Raise ZeroDivisionError.
Proof.
  intros Hlen. unfold kalman_prepare_coeffs.
  change (default_sig_ts [0%float]) with [0; 0; 0; 0]%float.
  cbn [prepare_loop random_scores length].
  pose proof (Hlen [0%float] 1%nat g) as H.
  destruct (random_normal [0%float] 1%nat g) as [draw g1]. simpl in H.
  destruct draw as [|x [|y draw]]; try discriminate.
  cbn [map]. rewrite detector_zero_noise. reflexivity.
Qed.

(** C10, as stated, fails on a noise vector with a zero: the coefficient
    preparation itself raises [ZeroDivisionError], before the assertion is
    reached. *)
Lemma kalman_fallback_zero_noise :
  kalman_significance flat_log unit flat_normal top_percentile unit_fit
    [1%float] [0%float] [] [] tt = Raise ZeroDivisionError
  /\ kalman_significance flat_log unit flat_normal top_percentile unit_fit
       [1%float] [0%float] [] [] tt <> Raise AssertionError.
Proof.
  assert (H : kalman_significance flat_log unit flat_normal top_percentile
                unit_fit [1%float] [0%float] [] [] tt
              = Raise ZeroDivisionError).
  { unfold kalman_significance. cbn [length Nat.eqb].
    change default_n_trial with (S (Nat.pred default_n_trial)).
    rewrite prepare_zero_noise; [reflexivity|].
    intros std n g. unfold flat_normal. simpl.
    now rewrite length_map, length_seq. }
  split; [exact H|]. rewrite H. discriminate.
Qed.

(** C10 (amended): called without coefficients and with the default four
    smoothness scales, [kalman_significance] never produces a value: it
    raises [AssertionError] whenever [kalman_prepare_coeffs] returns (its
    two-element result is bound to [coeffs] as a whole, and 4 is not 2),
    and otherwise passes on the exception of the preparation. *)
Theorem kalman_fallback_never_returns (np_log : float -> float) (rng : Type)
    (random_normal : list float -> nat -> rng -> list float * rng)
    (np_percentile : list float -> float -> float)
    (np_polyfit1 : list float -> list float -> float * float)
    (spec spec_std : list float) (g : rng) :
  let fallback :=
    kalman_significance np_log rng random_normal np_percentile np_polyfit1
      spec spec_std [] [] g in
  let prepared :=
    kalman_prepare_coeffs np_log rng random_normal np_percentile np_polyfit1
      spec_std (SigList (default_sig_ts spec_std)) default_n_trial g in
  returns fallback = false
  /\ (returns prepared = true -> fallback = Raise AssertionError)
  /\ (forall e, prepared = Raise e -> fallback = Raise e).
Proof.
  intros fallback prepared.
  assert (H : fallback
              = bind prepared (fun _ => Raise AssertionError)).
  { unfold fallback, prepared, kalman_significance. cbn [length Nat.eqb].
    destruct (kalman_prepare_coeffs _ _ _ _ _ _ _ _ _) as [[[s c] g']|e];
      reflexivity. }
  rewrite H. destruct prepared as [[[s c] g']|e]; simpl.
  - repeat split; intros; discriminate.
  - repeat split; try discriminate. intros e' E. now injection E as ->.
Qed.

(** With unit noise in two channels the preparation completes and the
    fallback fails its assertion. *)
Lemma kalman_fallback_never_returns_witness :
  returns (kalman_prepare_coeffs flat_log unit flat_normal top_percentile
             unit_fit [1; 1]%float (SigList (default_sig_ts [1; 1]%float))
             default_n_trial tt) = true
  /\ kalman_significance flat_log unit flat_normal top_percentile unit_fit
       [1; 2]%float [1; 1]%float [] [] tt = Raise AssertionError.
Proof.
  assert (Hp : returns (kalman_prepare_coeffs flat_log unit flat_normal
                          top_percentile unit_fit [1; 1]%float
                          (SigList (default_sig_ts [1; 1]%float))
                          default_n_trial tt)
               = true) by (vm_compute; reflexivity).
  split; [exact Hp|].
  destruct (kalman_fallback_never_returns flat_log unit flat_normal
              top_percentile unit_fit [1; 2]%float [1; 1]%float tt)
    as (_ & H & _).
  apply H. exact Hp.
Defined.

End KalmanFacts.

(** ** Searching and thresholding *)

Module SearchFacts.
Import Util Arrays Grid Search.

Local Open Scope string_scope.

(** *** The peak signal-to-noise ratio at zero noise *)

(** C3: with a zero noise estimate the GPU path defines the peak SNR as 0
    (for either sign of zero), but the FFTW path divides by it: on an image
    whose median absolute deviation is 0 the peak SNR is infinite (or nan
    when the peak is 0 too), it exceeds every threshold, and the image
    becomes a candidate. *)
Theorem peak_snr_at_zero_noise :
  (forall mx, peak_snr_cuda {| rms := 0; max := mx |} = 0%float)
  /\ (forall mx, peak_snr_cuda {| rms := (-0)%float; max := mx |} = 0%float)
  /\ madtostd flat_image = 0%float
  /\ peak_snr_fftw flat_image = Ok infinity
  /\ madtostd blank_image = 0%float
  /\ peak_snr_fftw blank_image = Ok nan
  /\ fst (search_thresh_fftw (toy flat_image) (toy_state "fftw" "image1") 0
            toy_data 0 0 IntsNone 0 (start (toy flat_image) tt))
     = Ok [(0, 0, 0, 0, 0)%nat].
Proof.
  repeat split; vm_compute; reflexivity.
Qed.

(** *** The top-level entry point *)

(** C1: with an [fftmode] other than 'cuda' and 'fftw', [prep_and_search]
    logs its warning and then raises [UnboundLocalError] at
    [candidates.save_cands(st, candcollection)]: the name was never
    assigned.  It does not return an empty collection. *)
Theorem prep_and_search_unrecognized_mode (ext : externals) (st : State)
    (segment : nat) (data prepared : cube) (w : world ext) :
  String.eqb (fftmode (prefs st)) "cuda" = false ->
  String.eqb (fftmode (prefs st)) "fftw" = false ->
  data_prep ext st segment data = Ok prepared ->
  prep_and_search ext st segment data w
  = (Raise UnboundLocalError,
     {| gen := gen ext w;
        log := (log ext w
                ++ [(WARN, "fftmode not recognized (cuda, fftw allowed)")])%list |}).
Proof.
  intros Hcuda Hfftw Hprep.
  unfold prep_and_search, bindM, lift. rewrite Hprep, Hcuda, Hfftw.
  reflexivity.
Qed.

(** The mode 'numpy' on the stand-in collaborators. *)
Lemma prep_and_search_unrecognized_mode_witness :
  prep_and_search (toy bright_image) (toy_state "numpy" "image1") 0 toy_data
    (start (toy bright_image) tt)
  = (Raise UnboundLocalError,
     Build_world (toy bright_image) tt
       [(WARN, "fftmode not recognized (cuda, fftw allowed)")]).
Proof.
  apply (prep_and_search_unrecognized_mode (toy bright_image)
           (toy_state "numpy" "image1") 0 toy_data toy_data);
    reflexivity.
Defined.

(** *** Calls that end in an exception *)

Section Outcomes.

Variable ext : externals.

Lemma bindM_ok {A B : Type} (m : M ext A) (k : A -> M ext B)
    (w w' : world ext) (b : B) :
  bindM m k w = (Ok b, w') ->
  exists a w1, m w = (Ok a, w1) /\ k a w1 = (Ok b, w').
Proof.
  unfold bindM. destruct (m w) as [[a|e] w1]; [eauto | discriminate].
Qed.

(** A sequence whose continuation never returns never returns. *)
Lemma bindM_no_return {A B : Type} (m : M ext A) (k : A -> M ext B)
    (w : world ext) :
  (forall a w1, returns (fst (k a w1)) = false) ->
  returns (fst (bindM m k w)) = false.
Proof.
  intros H. unfold bindM. destruct (m w) as [[a|e] w1]; [apply H | reflexivity].
Qed.

(** So does a sequence whose first step never returns. *)
Lemma bindM_no_return_head {A B : Type} (m : M ext A) (k : A -> M ext B)
    (w : world ext) :
  returns (fst (m w)) = false -> returns (fst (bindM m k w)) = false.
Proof.
  unfold bindM. destruct (m w) as [[a|e] w1]; [discriminate | reflexivity].
Qed.

Lemma arm_mode_not_image_mode (s : string) :
  is_arm_mode s = true -> is_image_mode s = false.
Proof.
  unfold is_arm_mode, is_image_mode. intros H.
  apply orb_true_iff in H as [H|H]; apply String.eqb_eq in H; now subst s.
Qed.

End Outcomes.

(** C2: the arm-based modes perform no final flush, because they never get
    as far as returning.  With [searchtype] 'imagearm' or 'imagearmk', on
    data with a non-zero sample and at least one integration to search,
    [search_thresh_fftw] ends in an exception for every state, every
    collaborator and every state of the random generator: whatever the
    steps before it do, [search_thresh_arms] cannot be compiled and raises
    at its first call.  No candidate is buffered and no collection is
    returned. *)
Theorem arm_modes_never_return (ext : externals) (st : State) (segment : nat)
    (data : cube) (dmind dtind : nat) (integrations : ints_arg)
    (beamnum : nat) (w : world ext) :
  is_arm_mode (searchtype (prefs st)) = true ->
  np_any data = true ->
  match integrations with
  | IntsNone => get_search_ints st segment dmind dtind
  | IntsOne i => [i]
  | IntsList l => l
  end <> [] ->
  returns (fst (search_thresh_fftw ext st segment data dmind dtind
                  integrations beamnum w)) = false.
Proof.
  intros Harm Hany Hints.
  unfold search_thresh_fftw. apply bindM_no_return_head.
  unfold search_thresh_fftw_frame. rewrite Hany. simpl negb. cbv iota.
  destruct (match integrations with
            | IntsNone => get_search_ints st segment dmind dtind
            | IntsOne i => [i]
            | IntsList l => l
            end) as [|i0 ints]; [congruence|].
  cbn [length Nat.eqb].
  apply bindM_no_return. intros [[spec_std sig_ts] coeffs] w1.
  apply bindM_no_return. intros _ w2.
  apply bindM_no_return. intros _ w3.
  rewrite (arm_mode_not_image_mode _ Harm), Harm.
  apply bindM_no_return_head.
  apply bindM_no_return. intros [[arm1 arm2] arm3] w4.
  apply bindM_no_return. intros map_arm123 w5.
  reflexivity.
Qed.

(** The stand-in state in mode 'imagearm' on two integrations. *)
Lemma arm_modes_never_return_witness :
  returns (fst (search_thresh_fftw (toy bright_image)
                  (toy_state "fftw" "imagearm") 0 toy_data 0 0 IntsNone 0
                  (start (toy bright_image) tt))) = false.
Proof.
  apply (arm_modes_never_return (toy bright_image)
           (toy_state "fftw" "imagearm") 0 toy_data 0 0 IntsNone 0
           (start (toy bright_image) tt));
    [reflexivity | reflexivity | discriminate].
Defined.

(** What the arm modes raise on the stand-ins: the compilation error of
    [search_thresh_arms] once the arms are gridded and transformed, in mode
    'imagearm' and, from ten integrations on, in mode 'imagearmk'; with
    fewer than ten integrations the Kalman preparation of 'imagearmk' cannot
    draw its off integrations and raises [ValueError] before that. *)
Lemma arm_modes_examples :
  let ext := toy bright_image in
  fst (search_thresh_fftw ext (toy_state "fftw" "imagearm") 0 toy_data 0 0
         IntsNone 0 (start ext tt)) = Raise TypingError
  /\ fst (search_thresh_fftw ext (toy_state "fftw" "imagearmk") 0 toy_series
            0 0 IntsNone 0 (start ext tt)) = Raise TypingError
  /\ fst (search_thresh_fftw ext (toy_state "fftw" "imagearmk") 0 toy_data
            0 0 IntsNone 0 (start ext tt)) = Raise ValueError.
Proof.
  repeat split; vm_compute; reflexivity.
Qed.

End SearchFacts.

(** ** The sequential kernels of [dedisperse] and [resample] *)

Module SeqKernels.
Import Arrays ArrayFacts Dedisp DedispFacts Cells.

(** *** Reading cells *)

Lemma get4_default (a : cube) (i j k l : nat) :
  get4 a i j k l = default czero (lookup4 a i j k l).
Proof.
  unfold get4, lookup4. rewrite !list_lookup_total_alt.
  destruct (a !! i) as [b|]; simpl; [|reflexivity].
  destruct (b !! j) as [c|]; simpl; [|reflexivity].
  destruct (c !! k) as [d|]; simpl; [|reflexivity].
  reflexivity.
Qed.

Lemma get4_ext (a a' : cube) (i j k l : nat) :
  lookup4 a i j k l = lookup4 a' i j k l -> get4 a i j k l = get4 a' i j k l.
Proof. intros H. now rewrite !get4_default, H. Qed.

Lemma shape4_skel (a a' : cube) : skel4 a = skel4 a' -> shape4 a = shape4 a'.
Proof.
  unfold skel4, shape4. intros H.
  assert (H1 : length a = length a').
  { apply (f_equal length) in H. now rewrite !length_map in H. }
  destruct a as [|x a], a' as [|x' a']; simpl in H, H1; try discriminate;
    [reflexivity|].
  injection H as Hx _. simpl.
  assert (H2 : length x = length x').
  { apply (f_equal length) in Hx. now rewrite !length_map in Hx. }
  destruct x as [|y x], x' as [|y' x']; simpl in Hx, H2; try discriminate.
  { now rewrite H1. }
  injection Hx as Hy _. simpl.
  assert (H3 : length y = length y').
  { apply (f_equal length) in Hy. now rewrite !length_map in Hy. }
  destruct y as [|z y], y' as [|z' y']; simpl in Hy, H3; try discriminate.
  { now rewrite H1, H2. }
  injection Hy as Hz _. simpl. now rewrite H1, H2, H3, Hz.
Qed.

(** The shape of a rectangular array with no empty axis among the first
    three. *)
Lemma shape4_rect (a : cube) (n b c p : nat) :
  skel4 a = replicate n (replicate b (replicate c p)) ->
  (0 < n)%nat -> (0 < b)%nat -> (0 < c)%nat ->
  shape4 a = (n, b, c, p).
Proof.
  intros Hs Hn Hb Hc.
  rewrite (shape4_skel a (replicate n (replicate b (replicate c (replicate p czero))))).
  2:{ rewrite Hs. symmetry. apply skel4_zeros4. }
  destruct n as [|n]; [lia|]. destruct b as [|b]; [lia|].
  destruct c as [|c]; [lia|]. unfold shape4. simpl.
  now rewrite !length_replicate.
Qed.

Lemma np_index_nonneg (n : nat) (z : Z) : 0 <= z -> np_index n z = Z.to_nat z.
Proof.
  intros H. unfold np_index. destruct (Z.ltb_spec z 0); [lia | reflexivity].
Qed.

(** *** [_dedisperse_jit] *)

Lemma dedisperse_jit_as_fold (data : cube) (delay : list Z) (dmax : Z)
    (result : cube) :
  delay_max delay = Ok dmax ->
  _dedisperse_jit data delay result
  = Ok (fold_left (fun a p => upd_cell (fun _ => shifted data delay p) p a)
          (cells4 (length ((data !!! 0%nat) !!! 0%nat))
                  (Z.to_nat (Z.of_nat (length data) - dmax))
                  (length (((data !!! 0%nat) !!! 0%nat) !!! 0%nat))
                  (length (data !!! 0%nat))
                  (fun k i l j => (i, j, k, l)))
          result).
Proof.
  intros Hmax. unfold _dedisperse_jit, shape4. rewrite Hmax. simpl. f_equal.
  unfold cells4, for_range. rewrite !fold_left_bind.
  apply fold_left_ext. intros s1 k. rewrite !fold_left_bind.
  apply fold_left_ext. intros s2 i. rewrite !fold_left_bind.
  apply fold_left_ext. intros s3 l. rewrite !fold_left_bind.
  apply fold_left_ext. intros s4 j. reflexivity.
Qed.

Lemma cells_kilj_NoDup (n1 n2 n3 n4 : nat) :
  NoDup (cells4 n1 n2 n3 n4 (fun k i l j => (i, j, k, l))).
Proof.
  apply NoDup_cells4. intros a b c d a' b' c' d' H. now inversion H.
Qed.

(** A pass that rewrites every cell of a zeroed buffer leaves in each
    cell the value of its own function. *)
Lemma lookup_fold_zeros (F : cell -> complex -> complex) (ps : list cell)
    (n b c p i j k l : nat) :
  NoDup ps -> (i, j, k, l) ∈ ps ->
  (i < n)%nat -> (j < b)%nat -> (k < c)%nat -> (l < p)%nat ->
  lookup4 (fold_left (fun a q => upd_cell (F q) q a) ps (zeros4 n b c p)) i j k l
  = Some (F (i, j, k, l) czero).
Proof.
  intros Hnd Hin Hi Hj Hk Hl.
  pose proof (lookup_fold_cells F ps (zeros4 n b c p) (i, j, k, l) Hnd) as H.
  simpl in H. rewrite H. clear H. rewrite decide_True by exact Hin.
  destruct (proj2 (lookup4_rect _ n b c p i j k l (skel4_zeros4 n b c p)))
    as [x Hx]; [lia|].
  rewrite Hx. simpl. now rewrite (lookup4_zeros4 _ _ _ _ _ _ _ _ _ Hx).
Qed.

(** The sequential wrapper, with the kernel's result spelled out. *)
Lemma dedisperse_sequential (data : cube) (delay : list Z) (dmax : Z) :
  np_any data = true ->
  delay_max delay = Ok dmax ->
  dmax <= Z.of_nat (length data) ->
  dedisperse data delay false
  = Ok (fold_left (fun a p => upd_cell (fun _ => shifted data delay p) p a)
          (cells4 (length ((data !!! 0%nat) !!! 0%nat))
                  (Z.to_nat (Z.of_nat (length data) - dmax))
                  (length (((data !!! 0%nat) !!! 0%nat) !!! 0%nat))
                  (length (data !!! 0%nat))
                  (fun k i l j => (i, j, k, l)))
          (zeros4 (Z.to_nat (Z.of_nat (length data) - dmax))
                  (length (data !!! 0%nat))
                  (length ((data !!! 0%nat) !!! 0%nat))
                  (length (((data !!! 0%nat) !!! 0%nat) !!! 0%nat)))).
Proof.
  intros Hany Hmax Hle. unfold dedisperse. rewrite Hany, Hmax. simpl.
  destruct (Z.ltb_spec (Z.of_nat (length data) - dmax) 0); [lia|].
  now apply dedisperse_jit_as_fold.
Qed.

(** X1: on data with a non-zero sample and a delay table whose maximum
    [dmax] does not exceed the number of integrations, sequential
    [dedisperse] returns a rectangular array of [nint - dmax] integrations
    whose cell [(i, j, k, l)] is [data[i + delay[k], j, k, l]]. *)
Theorem dedisperse_sequential_contract (data : cube) (delay : list Z)
    (dmax : Z) :
  let nint := length data in
  let nbl := length (data !!! 0%nat) in
  let nchan := length ((data !!! 0%nat) !!! 0%nat) in
  let npol := length (((data !!! 0%nat) !!! 0%nat) !!! 0%nat) in
  np_any data = true ->
  delay_max delay = Ok dmax ->
  dmax <= Z.of_nat nint ->
  exists out,
    dedisperse data delay false = Ok out
    /\ skel4 out
       = replicate (Z.to_nat (Z.of_nat nint - dmax))
           (replicate nbl (replicate nchan npol))
    /\ forall i j k l,
         (Z.of_nat i < Z.of_nat nint - dmax) ->
         (j < nbl)%nat -> (k < nchan)%nat -> (l < npol)%nat ->
         get4 out i j k l
         = get4 data (np_index nint (Z.of_nat i + delay_at delay k)) j k l.
Proof.
  intros nint nbl nchan npol Hany Hmax Hle.
  eexists. split; [now apply (dedisperse_sequential data delay dmax)|]. split.
  - now rewrite skel4_fold_cells, skel4_zeros4.
  - intros i j k l Hi Hj Hk Hl. apply get4_lookup4.
    rewrite (lookup_fold_zeros (fun p _ => shifted data delay p));
      [reflexivity | apply cells_kilj_NoDup | | lia | exact Hj | exact Hk
      | exact Hl].
    apply elem_of_cells4. exists k, i, l, j. split; [|reflexivity].
    fold nint nbl nchan npol. lia.
Qed.

(** On the example cube, with the delays 1 and 0, the first output
    integration takes channel 0 from integration 1 and channel 1 from
    integration 0. *)
Lemma dedisperse_sequential_contract_witness :
  exists out,
    dedisperse example_cube [1; 0] false = Ok out
    /\ length out = 3%nat
    /\ get4 out 0 0 0 0 = get4 example_cube 1 0 0 0
    /\ get4 out 0 0 1 0 = get4 example_cube 0 0 1 0.
Proof.
  destruct (dedisperse_sequential_contract example_cube [1; 0] 1)
    as (out & Hout & Hsk & Hcell); [reflexivity | reflexivity | vm_compute; discriminate |].
  exists out. split; [exact Hout|]. split.
  - apply (f_equal length) in Hsk. unfold skel4 in Hsk.
    rewrite length_map, length_replicate in Hsk. exact Hsk.
  - split.
    + apply (Hcell 0%nat 0%nat 0%nat 0%nat); simpl; lia.
    + apply (Hcell 0%nat 0%nat 1%nat 0%nat); simpl; lia.
Defined.

(** *** [_resample_jit] *)

Lemma for_range_from_upd (val : nat -> complex) (i j k l : nat)
    (rs : list nat) (res : cube) :
  fold_left (fun res r => upd4 (fun c => cadd c (val r)) i j k l res) rs res
  = upd4 (fun c => fold_left cadd (map val rs) c) i j k l res.
Proof.
  revert res. induction rs as [|r rs IH]; intros res; simpl.
  - unfold upd4. symmetry. apply list_alter_id. intros b.
    apply list_alter_id. intros c. apply list_alter_id. intros d.
    now apply list_alter_id.
  - rewrite IH. now rewrite upd4_upd4.
Qed.

Lemma seq_to_nat_split (dt : Z) :
  0 < dt -> seq 0 (Z.to_nat dt) = 0%nat :: seq 1 (Z.to_nat (dt - 1)).
Proof.
  intros H. replace (Z.to_nat dt) with (S (Z.to_nat (dt - 1))) by lia.
  reflexivity.
Qed.

Lemma resampled_unfold (data : cube) (dt : Z) (i j k l : nat) :
  0 < dt ->
  resampled data dt (i, j, k, l)
  = cdiv_int
      (fold_left cadd
         (map (fun r => get4 data
                          (np_index (length data) (Z.of_nat i * dt + Z.of_nat r))
                          j k l) (seq 1 (Z.to_nat (dt - 1))))
         (get4 data (np_index (length data) (Z.of_nat i * dt)) j k l))
      dt.
Proof.
  intros Hdt. unfold resampled, block_mean, block.
  rewrite (seq_to_nat_split dt Hdt). cbn [map fold_left].
  rewrite cadd_0_l. now rewrite Z.add_0_r.
Qed.

Lemma resample_jit_as_fold (data : cube) (dt : Z) (result : cube) :
  0 < dt ->
  _resample_jit data dt result
  = Ok (fold_left (fun a p => upd_cell (fun _ => resampled data dt p) p a)
          (cells4 (length (data !!! 0%nat))
                  (length ((data !!! 0%nat) !!! 0%nat))
                  (length (((data !!! 0%nat) !!! 0%nat) !!! 0%nat))
                  (Z.to_nat (Z.of_nat (length data) / dt))
                  (fun j k l i => (i, j, k, l)))
          result).
Proof.
  intros Hdt. unfold _resample_jit, shape4.
  destruct (Z.eqb_spec dt 0); [lia|]. f_equal.
  unfold cells4, for_range. rewrite !fold_left_bind.
  apply fold_left_ext. intros s1 j. rewrite !fold_left_bind.
  apply fold_left_ext. intros s2 k. rewrite !fold_left_bind.
  apply fold_left_ext. intros s3 l. rewrite !fold_left_bind.
  apply fold_left_ext. intros s4 i. cbn [fold_left]. cbv zeta.
  unfold for_range_from. rewrite for_range_from_upd, !upd4_upd4.
  unfold upd_cell. apply upd4_ext. intros c.
  now rewrite resampled_unfold.
Qed.

Lemma cells_jkli_NoDup (n1 n2 n3 n4 : nat) :
  NoDup (cells4 n1 n2 n3 n4 (fun j k l i => (i, j, k, l))).
Proof.
  apply NoDup_cells4. intros a b c d a' b' c' d' H. now inversion H.
Qed.

Lemma resample_sequential (data : cube) (dt : Z) :
  np_any data = true -> 0 < dt ->
  resample data dt false
  = Ok (fold_left (fun a p => upd_cell (fun _ => resampled data dt p) p a)
          (cells4 (length (data !!! 0%nat))
                  (length ((data !!! 0%nat) !!! 0%nat))
                  (length (((data !!! 0%nat) !!! 0%nat) !!! 0%nat))
                  (Z.to_nat (Z.of_nat (length data) / dt))
                  (fun j k l i => (i, j, k, l)))
          (zeros4 (Z.to_nat (Z.of_nat (length data) / dt))
                  (length (data !!! 0%nat))
                  (length ((data !!! 0%nat) !!! 0%nat))
                  (length (((data !!! 0%nat) !!! 0%nat) !!! 0%nat)))).
Proof.
  intros Hany Hdt. unfold resample. rewrite Hany. simpl.
  destruct (Z.eqb_spec dt 0); [lia|].
  destruct (Z.ltb_spec (Z.of_nat (length data) / dt) 0) as [H|_].
  { pose proof (Z.div_pos (Z.of_nat (length data)) dt). lia. }
  now apply resample_jit_as_fold.
Qed.

(** X2: on data with a non-zero sample and a factor [dt >= 1], sequential
    [resample] returns a rectangular array of [nint // dt] integrations
    whose cell [(i, j, k, l)] is the sum of the [dt] samples
    [data[i*dt + r, j, k, l]] divided by [dt]: zero (flagged) samples count
    in the divisor, unlike in [dedisperseresample]. *)
Theorem resample_sequential_contract (data : cube) (dt : Z) :
  let nint := length data in
  let nbl := length (data !!! 0%nat) in
  let nchan := length ((data !!! 0%nat) !!! 0%nat) in
  let npol := length (((data !!! 0%nat) !!! 0%nat) !!! 0%nat) in
  np_any data = true ->
  0 < dt ->
  exists out,
    resample data dt false = Ok out
    /\ skel4 out
       = replicate (Z.to_nat (Z.of_nat nint / dt))
           (replicate nbl (replicate nchan npol))
    /\ forall i j k l,
         (Z.of_nat i < Z.of_nat nint / dt) ->
         (j < nbl)%nat -> (k < nchan)%nat -> (l < npol)%nat ->
         get4 out i j k l = block_mean (block data dt i j k l) dt.
Proof.
  intros nint nbl nchan npol Hany Hdt.
  eexists. split; [now apply resample_sequential|]. split.
  - now rewrite skel4_fold_cells, skel4_zeros4.
  - intros i j k l Hi Hj Hk Hl. apply get4_lookup4.
    assert (Hi' : (i < Z.to_nat (Z.of_nat (length data) / dt))%nat).
    { fold nint. revert Hi. generalize (Z.of_nat nint / dt). intros q Hq. lia. }
    rewrite (lookup_fold_zeros (fun p _ => resampled data dt p));
      [reflexivity | apply cells_jkli_NoDup | | exact Hi' | exact Hj
      | exact Hk | exact Hl].
    apply elem_of_cells4. exists j, k, l, i. split; [|reflexivity].
    fold nbl nchan npol. lia.
Qed.

(** On the example cube with [dt = 2] the first output cell of channel 0
    averages the samples 1 and 0 (flagged) to 1/2, where the fused kernel
    gives 1. *)
Lemma resample_sequential_contract_witness :
  exists out,
    resample example_cube 2 false = Ok out
    /\ this (re (get4 out 0 0 0 0)) = (1 # 2)%Q
    /\ this (re (get4 (_dedisperseresample_jit example_cube [0; 0] 2
                         (zeros4 2 1 2 1)) 0 0 0 0)) = 1%Q.
Proof.
  destruct (resample_sequential_contract example_cube 2)
    as (out & Hout & _ & Hcell); [reflexivity | lia |].
  exists out. split; [exact Hout|]. split.
  - rewrite (Hcell 0%nat 0%nat 0%nat 0%nat);
      [reflexivity | reflexivity | simpl; lia ..].
  - vm_compute. reflexivity.
Defined.

(** *** Bad arguments *)

(** X3: on data with a non-zero sample, an empty delay table makes
    [dedisperse] and [dedisperseresample] raise [ValueError] (at
    [delay.max()]), and a zero factor makes [resample] raise
    [ZeroDivisionError] (at [nint//dt]), in the sequential and in the
    parallel mode alike. *)
Theorem wrappers_reject_bad_arguments (data : cube) (dt : Z)
    (parallel : bool) :
  np_any data = true ->
  dedisperse data [] parallel = Raise ValueError
  /\ dedisperseresample data [] dt parallel = Raise ValueError
  /\ resample data 0 parallel = Raise ZeroDivisionError.
Proof.
  intros Hany. unfold dedisperse, dedisperseresample, resample.
  rewrite Hany. simpl. repeat split.
Qed.

Lemma wrappers_reject_bad_arguments_witness :
  dedisperse example_cube [] true = Raise ValueError
  /\ dedisperseresample example_cube [] 2 false = Raise ValueError
  /\ resample example_cube 0 true = Raise ZeroDivisionError.
Proof.
  destruct (wrappers_reject_bad_arguments example_cube 2 true) as (H1 & _ & H3);
    [reflexivity|].
  destruct (wrappers_reject_bad_arguments example_cube 2 false) as (_ & H2 & _);
    [reflexivity|].
  now repeat split.
Defined.

(** X4: when the largest delay exceeds the number of integrations the two
    modes of [dedisperse] part ways (the delay table has one entry per
    channel): the sequential one raises [ValueError] (a negative dimension
    for [np.zeros]); in the parallel one the kernel's loop is empty and the
    slice [data[0:len(data)-delay.max()]], whose stop is negative, returns
    the first [2*nint - dmax] integrations of the input, not dedispersed
    (none when [dmax >= 2*nint]). *)
Theorem dedisperse_delay_beyond_data (data : cube) (delay : list Z)
    (dmax : Z) :
  np_any data = true ->
  length delay = length ((data !!! 0%nat) !!! 0%nat) ->
  delay_max delay = Ok dmax ->
  Z.of_nat (length data) < dmax ->
  dedisperse data delay false = Raise ValueError
  /\ dedisperse data delay true
     = Ok (take (Z.to_nat (2 * Z.of_nat (length data) - dmax)) data).
Proof.
  intros Hany Hlen Hmax Hlt. unfold dedisperse. rewrite Hany, Hmax. simpl. split.
  - destruct (Z.ltb_spec (Z.of_nat (length data) - dmax) 0); [reflexivity | lia].
  - assert (Hgu : _dedisperse_gu data delay = Ok data).
    { unfold _dedisperse_gu, shape4. rewrite Hlen, Nat.eqb_refl. cbn [negb].
      apply for_each_ok. intros b.
      unfold _dedisperse_gu_core, shape4. rewrite Hmax. simpl.
      destruct (Z.ltb_spec 0 dmax); [|reflexivity].
      replace (Z.to_nat (Z.of_nat (length data) - dmax)) with 0%nat by lia.
      reflexivity. }
    rewrite Hgu. simpl. f_equal. unfold slice_to.
    destruct (Z.ltb_spec (Z.of_nat (length data) - dmax) 0); [|lia].
    f_equal. lia.
Qed.

(** Four integrations and a delay of 5: an error in one mode, three
    integrations of the input in the other. *)
Lemma dedisperse_delay_beyond_data_witness :
  dedisperse example_cube [5; 0] false = Raise ValueError
  /\ dedisperse example_cube [5; 0] true = Ok (take 3 example_cube).
Proof.
  apply (dedisperse_delay_beyond_data example_cube [5; 0] 5);
    [reflexivity | reflexivity | reflexivity | simpl; lia].
Defined.

(** *** Resampling by one *)

Lemma for_range_id {S : Type} (n : nat) (body : nat -> S -> S) (s : S) :
  (forall i s, body i s = s) -> for_range n body s = s.
Proof.
  intros H. unfold for_range. induction (seq 0 n) as [|x l IH]; simpl;
    [reflexivity|]. now rewrite H.
Qed.

Lemma resampled_by_one (data : cube) (i j k l : nat) :
  resampled data 1 (i, j, k, l) = get4 data i j k l.
Proof.
  unfold resampled, block_mean, block. simpl.
  rewrite cadd_0_l, cdiv_int_1. rewrite np_index_nonneg by lia.
  f_equal. lia.
Qed.

(** X5: [resample] by the factor 1 returns a rectangular array with a
    non-zero sample unchanged, in both modes. *)
Theorem resample_by_one_is_identity (data : cube) (parallel : bool) :
  wf_cube data = true ->
  np_any data = true ->
  resample data 1 parallel = Ok data.
Proof.
  intros Hwf Hany. pose proof (wf_cube_skel _ Hwf) as Hsk.
  destruct parallel.
  - unfold resample. rewrite Hany. simpl.
    destruct (shape4 data) as [[[nint nbl] nchan] npol] eqn:Hsh. simpl.
    f_equal. unfold _resample_gu. rewrite Hsh.
    rewrite for_range_id.
    2:{ intros l s. apply for_range_id. intros j s'. apply for_range_id.
        intros k s''. unfold _resample_gu_core.
        now destruct (shape4 s'') as [[[n0 n1] n2] n3]. }
    unfold slice_to. rewrite Z.div_1_r.
    destruct (Z.ltb_spec (Z.of_nat (length data)) 0); [lia|].
    rewrite Nat2Z.id. apply firstn_all.
  - rewrite resample_sequential by (assumption || lia). f_equal.
    rewrite Z.div_1_r, Nat2Z.id. apply cube_ext.
    + now rewrite skel4_fold_cells, skel4_zeros4, Hsk.
    + intros i j k l x x' Hx Hx'.
      pose proof (proj1 (lookup4_rect _ _ _ _ _ i j k l Hsk)
                        (ex_intro _ x' Hx')) as (Hi & Hj & Hk & Hl).
      rewrite (lookup_fold_zeros (fun p _ => resampled data 1 p)) in Hx;
        [| apply cells_jkli_NoDup | | assumption ..].
      2:{ apply elem_of_cells4. exists j, k, l, i. split; [lia | reflexivity]. }
      rewrite resampled_by_one, (get4_lookup4 _ _ _ _ _ _ Hx') in Hx.
      congruence.
Qed.

Lemma resample_by_one_is_identity_witness :
  resample example_cube 1 false = Ok example_cube
  /\ resample example_cube 1 true = Ok example_cube.
Proof.
  split; apply resample_by_one_is_identity; reflexivity.
Defined.

(** *** Fused against two steps *)

Lemma fold_max_ge (ds : list Z) (d x : Z) :
  x = d \/ x ∈ ds -> x <= fold_left Z.max ds d.
Proof.
  revert d x. induction ds as [|a ds IH]; intros d x [Hx|H]; simpl.
  - lia.
  - now apply not_elem_of_nil in H.
  - transitivity (Z.max d a); [lia | apply IH; now left].
  - apply elem_of_cons in H as [Hx|H].
    + transitivity (Z.max d a); [lia | apply IH; now left].
    + apply IH. now right.
Qed.

Lemma delay_at_bounds (delay : list Z) (dmax : Z) (k : nat) :
  delay_max delay = Ok dmax ->
  Forall (fun d => 0 <= d) delay ->
  0 <= delay_at delay k <= dmax.
Proof.
  intros Hmax Hpos. unfold delay_at.
  destruct delay as [|d ds]; [discriminate|]. injection Hmax as <-.
  assert (H0 : 0 <= fold_left Z.max ds d).
  { transitivity d; [now apply Forall_inv in Hpos | apply fold_max_ge; now left]. }
  destruct (nth_in_or_default k (d :: ds) 0) as [Hin|E]; [|rewrite E; lia].
  split.
  - rewrite Forall_forall in Hpos. apply Hpos. now apply list_elem_of_In.
  - apply fold_max_ge. apply list_elem_of_In in Hin.
    apply elem_of_cons in Hin as [->|Hin]; [now left | now right].
Qed.

Lemma forallb_lookup {A : Type} (f : A -> bool) (l : list A) (i : nat) (x : A) :
  forallb f l = true -> l !! i = Some x -> f x = true.
Proof.
  intros H Hx. rewrite forallb_forall in H. apply H.
  apply list_elem_of_In. eapply list_elem_of_lookup_2. exact Hx.
Qed.

Lemma np_all_lookup4 (a : cube) (i j k l : nat) (x : complex) :
  np_all a = true -> lookup4 a i j k l = Some x -> cnonzero x = true.
Proof.
  unfold np_all, lookup4. intros H Hx.
  destruct (a !! i) as [b|] eqn:Hb; simpl in Hx; [|discriminate].
  destruct (b !! j) as [c|] eqn:Hc; simpl in Hx; [|discriminate].
  destruct (c !! k) as [d|] eqn:Hd; simpl in Hx; [|discriminate].
  pose proof (forallb_lookup _ _ _ _ H Hb) as H1.
  pose proof (forallb_lookup _ _ _ _ H1 Hc) as H2.
  pose proof (forallb_lookup _ _ _ _ H2 Hd) as H3.
  exact (forallb_lookup _ _ _ _ H3 Hx).
Qed.

Lemma existsb_of_lookup {A : Type} (f : A -> bool) (l : list A) (i : nat) (x : A) :
  l !! i = Some x -> f x = true -> existsb f l = true.
Proof.
  intros Hx H. apply existsb_exists. exists x. split; [|exact H].
  apply list_elem_of_In. eapply list_elem_of_lookup_2. exact Hx.
Qed.

Lemma np_any_of_lookup4 (a : cube) (i j k l : nat) (x : complex) :
  lookup4 a i j k l = Some x -> cnonzero x = true -> np_any a = true.
Proof.
  unfold np_any, lookup4. intros Hx H.
  destruct (a !! i) as [b|] eqn:Hb; simpl in Hx; [|discriminate].
  destruct (b !! j) as [c|] eqn:Hc; simpl in Hx; [|discriminate].
  destruct (c !! k) as [d|] eqn:Hd; simpl in Hx; [|discriminate].
  eapply existsb_of_lookup; [exact Hb|].
  eapply existsb_of_lookup; [exact Hc|].
  eapply existsb_of_lookup; [exact Hd|].
  eapply existsb_of_lookup; [exact Hx | exact H].
Qed.

Lemma weight_of_all (vals : list complex) :
  Forall (fun v => cnonzero v = true) vals ->
  weight_of vals = Z.of_nat (length vals).
Proof.
  induction 1 as [|v vs Hv _ IH]; [reflexivity|].
  rewrite weight_of_cons, Hv, IH. simpl length. lia.
Qed.

(** A sample of a rectangular array without zeros, read inside the array, is
    not zero. *)
Lemma get4_nonzero (a : cube) (n b c p i j k l : nat) :
  skel4 a = replicate n (replicate b (replicate c p)) ->
  np_all a = true ->
  (i < n)%nat -> (j < b)%nat -> (k < c)%nat -> (l < p)%nat ->
  cnonzero (get4 a i j k l) = true.
Proof.
  intros Hsk Hall Hi Hj Hk Hl.
  destruct (proj2 (lookup4_rect _ _ _ _ _ i j k l Hsk)) as [x Hx]; [lia|].
  rewrite (get4_lookup4 _ _ _ _ _ _ Hx). eapply np_all_lookup4; eassumption.
Qed.

Lemma block_index_bound (i r n dt : Z) :
  0 < dt -> 0 <= i < n / dt -> 0 <= r < dt -> 0 <= i * dt + r < n.
Proof.
  intros Hdt Hi Hr.
  assert (H1 : dt * (n / dt) <= n).
  { apply Z.mul_div_le. lia. }
  nia.
Qed.

Lemma skel4_nil (a : cube) : skel4 a = [] -> a = [].
Proof. unfold skel4. now destruct a. Qed.

(** X6: on a rectangular array without a single zero (flagged) sample,
    with delays between 0 and a maximum that does not exceed the number of
    integrations and a factor [dt >= 1], [dedisperse] followed by
    [resample] returns the same array as the fused [dedisperseresample]
    (sequential mode): the two differ only in how they count zeros. *)
Theorem fused_is_dedisperse_then_resample (data : cube) (delay : list Z)
    (dmax dt : Z) :
  wf_cube data = true ->
  np_any data = true ->
  np_all data = true ->
  delay_max delay = Ok dmax ->
  Forall (fun d => 0 <= d) delay ->
  dmax <= Z.of_nat (length data) ->
  0 < dt ->
  bind (dedisperse data delay false) (fun dd => resample dd dt false)
  = dedisperseresample data delay dt false.
Proof.
  intros Hwf Hany Hall Hmax Hpos Hle Hdt.
  pose proof (wf_cube_skel _ Hwf) as Hsk.
  set (nint := length data) in *.
  set (nbl := length (data !!! 0%nat)) in *.
  set (nchan := length ((data !!! 0%nat) !!! 0%nat)) in *.
  set (npol := length (((data !!! 0%nat) !!! 0%nat) !!! 0%nat)) in *.
  destruct (np_any_lookup4 _ Hany) as (i0 & j0 & k0 & l0 & x0 & Hx0 & _).
  pose proof (proj1 (lookup4_rect _ _ _ _ _ i0 j0 k0 l0 Hsk)
                    (ex_intro _ x0 Hx0)) as (Hi0 & Hj0 & Hk0 & Hl0).
  assert (Hq : 0 <= (Z.of_nat nint - dmax) / dt).
  { apply Z.div_pos; lia. }
  rewrite (dedisperseresample_sequential data delay dt dmax Hany Hmax)
    by (assumption || lia).
  rewrite (dedisperse_sequential data delay dmax Hany Hmax Hle).
  fold nint nbl nchan npol. cbn [bind].
  set (n := Z.to_nat (Z.of_nat nint - dmax)).
  set (dd := fold_left _ _ (zeros4 n nbl nchan npol)).
  assert (Hdd : skel4 dd = replicate n (replicate nbl (replicate nchan npol))).
  { unfold dd. now rewrite skel4_fold_cells, skel4_zeros4. }
  assert (Hcell : forall i j k l,
             (i < n)%nat -> (j < nbl)%nat -> (k < nchan)%nat -> (l < npol)%nat ->
             lookup4 dd i j k l = Some (shifted data delay (i, j, k, l))).
  { intros i j k l Hi Hj Hk Hl. unfold dd.
    rewrite (lookup_fold_zeros (fun p _ => shifted data delay p));
      [reflexivity | apply cells_kilj_NoDup | | assumption ..].
    apply elem_of_cells4. exists k, i, l, j. split; [|reflexivity].
    fold n. lia. }
  destruct (decide (n = 0)%nat) as [Hn0|Hn0].
  - (* nothing is left after dedispersion *)
    assert (E : dd = []).
    { apply skel4_nil. rewrite Hdd, Hn0. reflexivity. }
    rewrite E. unfold resample. simpl. f_equal. symmetry.
    apply skel4_nil. rewrite jit_as_fold, skel4_fold_cells, skel4_zeros4.
    replace ((Z.of_nat nint - dmax) / dt) with 0; [reflexivity|].
    symmetry. apply Z.div_small. lia.
  - assert (Hany' : np_any dd = true).
    { apply (np_any_of_lookup4 dd 0 j0 k0 l0 _ (Hcell 0%nat j0 k0 l0
               ltac:(lia) Hj0 Hk0 Hl0)).
      unfold shifted, read_shifted. fold nint.
      pose proof (delay_at_bounds delay dmax k0 Hmax Hpos) as Hb.
      rewrite np_index_nonneg by lia.
      apply (get4_nonzero data nint nbl nchan npol); try assumption. lia. }
    pose proof (shape4_rect dd n nbl nchan npol Hdd ltac:(lia) ltac:(lia)
                  ltac:(lia)) as Hsh.
    unfold shape4 in Hsh. injection Hsh as H1 H2 H3 H4.
    rewrite (resample_sequential dd dt Hany' Hdt).
    rewrite H1, H2, H3, H4. f_equal.
    assert (En : Z.of_nat n = Z.of_nat nint - dmax) by lia.
    rewrite En.
    set (m := Z.to_nat ((Z.of_nat nint - dmax) / dt)).
    apply cube_ext.
    + now rewrite jit_as_fold, !skel4_fold_cells, !skel4_zeros4.
    + intros i j k l x x' Hx Hx'.
      assert (Hr : is_Some (lookup4 (zeros4 m nbl nchan npol) i j k l)).
      { pose proof (lookup_fold_cells (fun p _ => resampled dd dt p)
                      (cells4 nbl nchan npol m (fun j k l i => (i, j, k, l)))
                      (zeros4 m nbl nchan npol) (i, j, k, l)
                      (cells_jkli_NoDup _ _ _ _)) as Hf.
        simpl in Hf. rewrite Hf in Hx.
        destruct (lookup4 (zeros4 m nbl nchan npol) i j k l) eqn:E;
          [eauto|]. now destruct (decide _). }
      apply (lookup4_rect _ _ _ _ _ i j k l (skel4_zeros4 m nbl nchan npol))
        in Hr as (Hi & Hj & Hk & Hl).
      rewrite (lookup_fold_zeros (fun p _ => resampled dd dt p)) in Hx;
        [| apply cells_jkli_NoDup | | assumption ..].
      2:{ apply elem_of_cells4. exists j, k, l, i. split; [lia | reflexivity]. }
      assert (Hjit : lookup4 (_dedisperseresample_jit data delay dt
                                (zeros4 m nbl nchan npol)) i j k l
                     = Some (jit_cell data delay dt (i, j, k, l) czero))
        by exact (jit_cell_lookup data delay dt m i j k l Hi Hj Hk Hl).
      rewrite Hjit in Hx'.
      rewrite jit_cell_mean in Hx'.
      injection Hx as <-. injection Hx' as <-.
      (* the two cells read the same samples *)
      assert (Hblock : block dd dt i j k l = samples data delay dt i j k l).
      { unfold block, samples. apply map_ext_in. intros r Hr.
        apply in_seq in Hr. fold nint. rewrite H1.
        pose proof (block_index_bound (Z.of_nat i) (Z.of_nat r)
                      (Z.of_nat nint - dmax) dt Hdt) as Hb.
        assert (Hi' : 0 <= Z.of_nat i < (Z.of_nat nint - dmax) / dt).
        { unfold m in Hi. lia. }
        specialize (Hb Hi' ltac:(lia)).
        rewrite np_index_nonneg by lia.
        rewrite (get4_lookup4 _ _ _ _ _ _
                   (Hcell (Z.to_nat (Z.of_nat i * dt + Z.of_nat r)) j k l
                      ltac:(lia) Hj Hk Hl)).
        unfold shifted, read_shifted. fold nint. f_equal. f_equal. lia. }
      unfold resampled, block_mean. rewrite Hblock.
      assert (Hw : weight_of (samples data delay dt i j k l) = dt).
      { rewrite weight_of_all.
        - unfold samples. rewrite length_map, length_seq. lia.
        - unfold samples. apply Forall_forall. intros v Hv.
          apply list_elem_of_In, in_map_iff in Hv as (r & <- & Hr).
          apply in_seq in Hr. fold nint.
          pose proof (delay_at_bounds delay dmax k Hmax Hpos) as Hd.
          pose proof (block_index_bound (Z.of_nat i) (Z.of_nat r)
                        (Z.of_nat nint - dmax) dt Hdt) as Hb.
          assert (Hi' : 0 <= Z.of_nat i < (Z.of_nat nint - dmax) / dt).
          { unfold m in Hi. lia. }
          specialize (Hb Hi' ltac:(lia)).
          rewrite np_index_nonneg by lia.
          apply (get4_nonzero data nint nbl nchan npol); try assumption.
          lia. }
      unfold weighted_mean. rewrite Hw.
      destruct (Z.ltb_spec 0 dt); [reflexivity | lia].
Qed.

(** Three integrations of one baseline and two channels without a zero,
    delays 1 and 0, factor 2. *)
Lemma fused_is_dedisperse_then_resample_witness :
  bind (dedisperse unflagged_cube [1; 0] false) (fun dd => resample dd 2 false)
  = dedisperseresample unflagged_cube [1; 0] 2 false.
Proof.
  apply (fused_is_dedisperse_then_resample unflagged_cube [1; 0] 1 2);
    first [ reflexivity | simpl; lia | repeat constructor; lia ].
Defined.

End SeqKernels.

(** ** The parallel kernels, which work in place *)

Module InPlace.
Import Arrays ArrayFacts Dedisp DedispFacts Cells SeqKernels.

(** *** The order of visit *)

Lemma increasing_app {A : Type} (R : A -> A -> Prop) (l1 l2 : list A) :
  increasing R (l1 ++ l2)
  <-> increasing R l1 /\ increasing R l2
      /\ (forall x y, x ∈ l1 -> y ∈ l2 -> R x y).
Proof.
  induction l1 as [|a l1 IH]; simpl.
  - split; [intros H; repeat split; [exact H|] | tauto].
    intros x y Hx. now apply not_elem_of_nil in Hx.
  - rewrite IH, Forall_app, !Forall_forall. split.
    + intros ((H1 & H2) & H3 & H4 & H5). repeat split; try assumption.
      intros x y Hx Hy. apply elem_of_cons in Hx as [->|Hx]; auto.
    + intros ((H1 & H2) & H3 & H4). repeat split; try assumption.
      * intros y Hy. apply H4; [left | exact Hy].
      * intros x y Hx Hy. apply H4; [now right | exact Hy].
Qed.

Lemma increasing_bind {A B : Type} (R1 : A -> A -> Prop) (R : B -> B -> Prop)
    (f : A -> list B) (l : list A) :
  increasing R1 l ->
  (forall x, x ∈ l -> increasing R (f x)) ->
  (forall x y u v, R1 x y -> u ∈ f x -> v ∈ f y -> R u v) ->
  increasing R (l ≫= f).
Proof.
  intros Hl Hf HR. induction l as [|a l IH]; csimpl; [exact I|].
  destruct Hl as [Ha Hl]. apply increasing_app. repeat split.
  - apply Hf. left.
  - apply IH; [exact Hl|]. intros x Hx. apply Hf. now right.
  - intros u v Hu Hv. apply list_elem_of_bind in Hv as (y & Hv & Hy).
    rewrite Forall_forall in Ha. exact (HR a y u v (Ha y Hy) Hu Hv).
Qed.

Lemma increasing_seq (a n : nat) : increasing lt (seq a n).
Proof.
  revert a. induction n as [|n IH]; intros a; simpl; [exact I|].
  split; [|apply IH]. apply Forall_forall. intros x Hx.
  apply elem_of_seq in Hx. lia.
Qed.

Lemma increasing_singleton {A : Type} (R : A -> A -> Prop) (x : A) :
  increasing R [x].
Proof. simpl. split; [constructor | exact I]. Qed.

(** Four nested loops visit their cells in the lexicographic order of the
    counters. *)
Lemma cells4_increasing (n1 n2 n3 n4 : nat)
    (mk : nat -> nat -> nat -> nat -> cell) :
  increasing (visited_before mk) (cells4 n1 n2 n3 n4 mk).
Proof.
  unfold cells4.
  apply (increasing_bind lt); [apply increasing_seq | |].
  2:{ intros a a' u v Ha Hu Hv.
      apply list_elem_of_bind in Hu as (b & Hu & _).
      apply list_elem_of_bind in Hu as (c & Hu & _).
      apply list_elem_of_bind in Hu as (d & Hu & _).
      apply list_elem_of_bind in Hv as (b' & Hv & _).
      apply list_elem_of_bind in Hv as (c' & Hv & _).
      apply list_elem_of_bind in Hv as (d' & Hv & _).
      apply list_elem_of_singleton in Hu, Hv. subst.
      exists a, b, c, d, a', b', c', d'. repeat split. simpl. now left. }
  intros a _. apply (increasing_bind lt); [apply increasing_seq | |].
  2:{ intros b b' u v Hb Hu Hv.
      apply list_elem_of_bind in Hu as (c & Hu & _).
      apply list_elem_of_bind in Hu as (d & Hu & _).
      apply list_elem_of_bind in Hv as (c' & Hv & _).
      apply list_elem_of_bind in Hv as (d' & Hv & _).
      apply list_elem_of_singleton in Hu, Hv. subst.
      exists a, b, c, d, a, b', c', d'. repeat split. simpl.
      right. split; [reflexivity | now left]. }
  intros b _. apply (increasing_bind lt); [apply increasing_seq | |].
  2:{ intros c c' u v Hc Hu Hv.
      apply list_elem_of_bind in Hu as (d & Hu & _).
      apply list_elem_of_bind in Hv as (d' & Hv & _).
      apply list_elem_of_singleton in Hu, Hv. subst.
      exists a, b, c, d, a, b, c', d'. repeat split. simpl.
      right. split; [reflexivity|]. right. split; [reflexivity | now left]. }
  intros c _. apply (increasing_bind lt); [apply increasing_seq | |].
  2:{ intros d d' u v Hd Hu Hv.
      apply list_elem_of_singleton in Hu, Hv. subst.
      exists a, b, c, d, a, b, c, d'. repeat split. simpl.
      right. split; [reflexivity|]. right. split; [reflexivity|].
      right. split; [reflexivity | exact Hd]. }
  intros d _. apply increasing_singleton.
Qed.

Lemma cells4_prefix (n1 n2 n3 n4 : nat) (mk : nat -> nat -> nat -> nat -> cell)
    (ps1 ps2 : list cell) (p q : cell) :
  cells4 n1 n2 n3 n4 mk = ps1 ++ p :: ps2 -> q ∈ ps1 ->
  visited_before mk q p.
Proof.
  intros E Hq. pose proof (cells4_increasing n1 n2 n3 n4 mk) as H.
  rewrite E in H. apply increasing_app in H as (_ & _ & H).
  apply H; [exact Hq | left].
Qed.

(** *** Overwriting cells while reading *)

Lemma lookup_upd_cell (f : complex -> complex) (p q : cell) (a : cube) :
  lookup_cell (upd_cell f p a) q
  = if decide (p = q) then f <$> lookup_cell a q else lookup_cell a q.
Proof.
  destruct p as [[[i j] k] l], q as [[[i' j'] k'] l']. apply lookup4_upd4.
Qed.

(** A pass over distinct cells in which the value written to a cell is
    computed from cells that no earlier step has written does the same as
    the pass that computes every value from the array it started on. *)
Lemma inplace_fold (V : cell -> cube -> complex) (ps : list cell) (a0 : cube) :
  NoDup ps ->
  (forall ps1 p ps2 a,
      ps = ps1 ++ p :: ps2 ->
      (forall q, q ∉ ps1 -> lookup_cell a q = lookup_cell a0 q) ->
      V p a = V p a0) ->
  fold_left (fun a p => upd_cell (fun _ => V p a) p a) ps a0
  = fold_left (fun a p => upd_cell (fun _ => V p a0) p a) ps a0.
Proof.
  induction ps as [|p ps IH] using rev_ind; intros Hnd HV; [reflexivity|].
  apply NoDup_app in Hnd as (Hnd & Hp & _).
  rewrite !fold_left_app. cbn [fold_left].
  rewrite IH; [|exact Hnd|].
  2:{ intros ps1 p' ps2 a E. apply (HV ps1 p' (ps2 ++ [p])).
      rewrite E, <- app_assoc. reflexivity. }
  f_equal.
  rewrite (HV ps p [] _ eq_refl); [reflexivity|].
  intros q Hq.
  rewrite (lookup_fold_cells (fun p _ => V p a0) ps a0 q Hnd).
  now rewrite decide_False.
Qed.

(** The three parallel kernels read, for a cell, cells of the same
    baseline, channel and polarization at the same time or later; in their
    order of visit none of these has been written yet. *)
Lemma inplace_forward (V : cell -> cube -> complex) (n1 n2 n3 n4 : nat)
    (mk : nat -> nat -> nat -> nat -> cell) (a0 : cube) :
  (forall a b c d a' b' c' d',
      mk a b c d = mk a' b' c' d' -> a = a' /\ b = b' /\ c = c' /\ d = d') ->
  (forall p q, visited_before mk q p -> ~ later p q) ->
  (forall p a,
      (forall q, later p q -> lookup_cell a q = lookup_cell a0 q) ->
      V p a = V p a0) ->
  fold_left (fun a p => upd_cell (fun _ => V p a) p a)
    (cells4 n1 n2 n3 n4 mk) a0
  = fold_left (fun a p => upd_cell (fun _ => V p a0) p a)
      (cells4 n1 n2 n3 n4 mk) a0.
Proof.
  intros Hinj Hord HV. apply inplace_fold; [now apply NoDup_cells4|].
  intros ps1 p ps2 a E Ha. apply HV. intros q Hq. apply Ha.
  intros Hin. apply (Hord p q); [|exact Hq].
  exact (cells4_prefix _ _ _ _ _ _ _ _ _ E Hin).
Qed.

(** *** Loops that keep the shape *)

Lemma for_each_fold {A S : Type} (Inv : S -> Prop) (body : A -> S -> outcome S)
    (g : A -> S -> S) (xs : list A) (s0 : S) :
  Inv s0 ->
  (forall x s, Inv s -> body x s = Ok (g x s)) ->
  (forall x s, Inv s -> Inv (g x s)) ->
  for_each body xs s0 = Ok (fold_left (fun s x => g x s) xs s0).
Proof.
  intros H0 Hb Hg. revert s0 H0.
  induction xs as [|x xs IH]; intros s0 H0; simpl; [reflexivity|].
  rewrite (Hb x s0 H0). simpl. apply IH. now apply Hg.
Qed.

Lemma fold_left_inv_ext {A S : Type} (Inv : S -> Prop) (f g : S -> A -> S)
    (xs : list A) (s0 : S) :
  Inv s0 ->
  (forall s x, Inv s -> f s x = g s x) ->
  (forall s x, Inv s -> Inv (g s x)) ->
  fold_left f xs s0 = fold_left g xs s0.
Proof.
  intros H0 Hfg Hg. revert s0 H0.
  induction xs as [|x xs IH]; intros s0 H0; simpl; [reflexivity|].
  rewrite (Hfg s0 x H0). apply IH. now apply Hg.
Qed.

Lemma skel4_fold_upd (step : cube -> cell -> cube) (ps : list cell) (a : cube) :
  (forall a p, skel4 (step a p) = skel4 a) ->
  skel4 (fold_left step ps a) = skel4 a.
Proof.
  intros H. revert a. induction ps as [|p ps IH]; intros a; simpl;
    [reflexivity|]. now rewrite IH, H.
Qed.

Lemma skel4_upd_cell (f : complex -> complex) (p : cell) (a : cube) :
  skel4 (upd_cell f p a) = skel4 a.
Proof. destruct p as [[[i j] k] l]. apply skel4_upd4. Qed.

(** *** Slices *)

Lemma lookup4_take (n : nat) (a : cube) (i j k l : nat) :
  lookup4 (take n a) i j k l
  = if decide (i < n)%nat then lookup4 a i j k l else None.
Proof.
  unfold lookup4. destruct (decide (i < n)%nat) as [H|H].
  - now rewrite lookup_take_lt.
  - rewrite lookup_take_ge by lia. reflexivity.
Qed.

Lemma skel4_take (n m b c p : nat) (a : cube) :
  skel4 a = replicate m (replicate b (replicate c p)) -> (n <= m)%nat ->
  skel4 (take n a) = replicate n (replicate b (replicate c p)).
Proof.
  intros Hs Hn. unfold skel4 in *. rewrite <- firstn_map, Hs, take_replicate.
  f_equal. lia.
Qed.

Lemma skel4_length (a : cube) (n b c p : nat) :
  skel4 a = replicate n (replicate b (replicate c p)) -> length a = n.
Proof.
  intros H. apply (f_equal length) in H. unfold skel4 in H.
  now rewrite length_map, length_replicate in H.
Qed.

Lemma lookup_fold_zeros_inv (F : cell -> complex -> complex) (ps : list cell)
    (n b c p i j k l : nat) (x : complex) :
  lookup4 (fold_left (fun a q => upd_cell (F q) q a) ps (zeros4 n b c p)) i j k l
  = Some x ->
  (i < n /\ j < b /\ k < c /\ l < p)%nat.
Proof.
  intros H. eapply lookup4_rect; [|exists x; exact H].
  now rewrite skel4_fold_cells, skel4_zeros4.
Qed.

(** What an in-place pass leaves in a visited cell of a rectangular
    array. *)
Lemma lookup_fold_rect (F : cell -> complex -> complex) (ps : list cell)
    (a : cube) (n b c p i j k l : nat) :
  skel4 a = replicate n (replicate b (replicate c p)) ->
  NoDup ps -> (i, j, k, l) ∈ ps ->
  (i < n)%nat -> (j < b)%nat -> (k < c)%nat -> (l < p)%nat ->
  lookup4 (fold_left (fun a q => upd_cell (F q) q a) ps a) i j k l
  = Some (F (i, j, k, l) (get4 a i j k l)).
Proof.
  intros Hsk Hnd Hin Hi Hj Hk Hl.
  pose proof (lookup_fold_cells F ps a (i, j, k, l) Hnd) as H.
  simpl in H. rewrite H. clear H. rewrite decide_True by exact Hin.
  destruct (proj2 (lookup4_rect _ _ _ _ _ i j k l Hsk)) as [x Hx]; [lia|].
  rewrite Hx. simpl. now rewrite (get4_lookup4 _ _ _ _ _ _ Hx).
Qed.

(** *** [_dedisperse_gu] *)

Lemma dedisperse_gu_as_fold (data : cube) (delay : list Z) (dmax : Z) :
  length delay = length ((data !!! 0%nat) !!! 0%nat) ->
  delay_max delay = Ok dmax -> 0 < dmax ->
  _dedisperse_gu data delay
  = Ok (fold_left
          (fun a p => upd_cell (fun _ => read_shifted (length data) delay p a) p a)
          (cells4 (length (data !!! 0%nat))
                  (Z.to_nat (Z.of_nat (length data) - dmax))
                  (length ((data !!! 0%nat) !!! 0%nat))
                  (length (((data !!! 0%nat) !!! 0%nat) !!! 0%nat))
                  (fun b i j k => (i, b, j, k)))
          data).
Proof.
  intros Hlen Hmax Hpos. unfold _dedisperse_gu, shape4, cells4.
  rewrite Hlen, Nat.eqb_refl. cbn [negb].
  rewrite fold_left_bind.
  apply (for_each_fold (fun a => skel4 a = skel4 data)); [reflexivity | |].
  - intros b a Ha. unfold _dedisperse_gu_core.
    rewrite (shape4_skel _ _ Ha). unfold shape4. rewrite Hmax. simpl.
    destruct (Z.ltb_spec 0 dmax); [|lia]. f_equal.
    unfold for_range. rewrite !fold_left_bind.
    apply fold_left_ext. intros s1 i. rewrite !fold_left_bind.
    apply fold_left_ext. intros s2 j. rewrite !fold_left_bind.
    apply fold_left_ext. intros s3 k. reflexivity.
  - intros b a Ha. rewrite skel4_fold_upd; [exact Ha|].
    intros a' p. apply skel4_upd_cell.
Qed.

Lemma read_shifted_forward (nint : nat) (delay : list Z) (dmax : Z) (p : cell)
    (a a0 : cube) :
  delay_max delay = Ok dmax ->
  Forall (fun d => 0 <= d) delay ->
  (forall q, later p q -> lookup_cell a q = lookup_cell a0 q) ->
  read_shifted nint delay p a = read_shifted nint delay p a0.
Proof.
  intros Hmax Hpos H. destruct p as [[[i j] k] l]. unfold read_shifted.
  pose proof (delay_at_bounds delay dmax k Hmax Hpos) as Hb.
  apply get4_ext.
  apply (H (np_index nint (Z.of_nat i + delay_at delay k), j, k, l)).
  simpl. split; [reflexivity|]. rewrite np_index_nonneg by lia. lia.
Qed.

(** X7: on a rectangular array with a non-zero sample, with delays between
    0 and a maximum that does not exceed the number of integrations, the
    parallel [dedisperse], which overwrites a copy of the data in place,
    returns the same array as the sequential one.  The delay table has one
    entry per channel, as the layout of the parallel kernel requires. *)
Theorem dedisperse_backends_agree (data : cube) (delay : list Z) (dmax : Z) :
  wf_cube data = true ->
  np_any data = true ->
  length delay = length ((data !!! 0%nat) !!! 0%nat) ->
  delay_max delay = Ok dmax ->
  Forall (fun d => 0 <= d) delay ->
  dmax <= Z.of_nat (length data) ->
  dedisperse data delay true = dedisperse data delay false.
Proof.
  intros Hwf Hany Hlen Hmax Hpos Hle.
  pose proof (wf_cube_skel _ Hwf) as Hsk.
  rewrite (dedisperse_sequential data delay dmax Hany Hmax Hle).
  unfold dedisperse. rewrite Hany, Hmax. simpl.
  set (nint := length data) in *.
  set (nbl := length (data !!! 0%nat)) in *.
  set (nchan := length ((data !!! 0%nat) !!! 0%nat)) in *.
  set (npol := length (((data !!! 0%nat) !!! 0%nat) !!! 0%nat)) in *.
  set (n := Z.to_nat (Z.of_nat nint - dmax)).
  assert (H0 : 0 <= dmax).
  { pose proof (delay_at_bounds delay dmax 0 Hmax Hpos). lia. }
  assert (Hslice : forall A : cube,
             length A = nint ->
             slice_to (Z.of_nat (length A) - dmax) A = take n A).
  { intros A HA. unfold slice_to. rewrite HA.
    destruct (Z.ltb_spec (Z.of_nat nint - dmax) 0); [lia | reflexivity]. }
  assert (Hgu : exists A,
             _dedisperse_gu data delay = Ok A
             /\ skel4 A = skel4 data
             /\ forall i j k l,
                  (i < n)%nat -> (j < nbl)%nat -> (k < nchan)%nat ->
                  (l < npol)%nat ->
                  lookup4 A i j k l = Some (shifted data delay (i, j, k, l))).
  { destruct (Z.ltb_spec 0 dmax) as [Hd|Hd].
    - rewrite (dedisperse_gu_as_fold data delay dmax Hlen Hmax Hd).
      fold nint nbl nchan npol n.
      rewrite (inplace_forward (read_shifted nint delay)).
      + eexists. split; [reflexivity|]. split.
        * apply skel4_fold_cells.
        * intros i j k l Hi Hj Hk Hl.
          rewrite (lookup_fold_rect (fun q _ => read_shifted nint delay q data)
                     _ data nint nbl nchan npol); try assumption;
            [reflexivity | | | lia].
          -- apply NoDup_cells4. intros a b c d a' b' c' d' E.
             now inversion E.
          -- apply elem_of_cells4. exists j, i, k, l.
             split; [lia | reflexivity].
      + intros a b c d a' b' c' d' E. now inversion E.
      + intros [[[i j] k] l] [[[i' j'] k'] l']
          (a & b & c & d & a' & b' & c' & d' & E & E' & Hlex) [Hcol Ht].
        inversion E. inversion E'. inversion Hcol. subst. simpl in Hlex. lia.
      + intros p a Ha. now apply (read_shifted_forward nint delay dmax).
    - assert (Hz : dmax = 0) by lia.
      exists data. split; [|split; [reflexivity|]].
      + unfold _dedisperse_gu, shape4. fold nchan. rewrite Hlen, Nat.eqb_refl.
        cbn [negb]. apply for_each_ok. intros b.
        unfold _dedisperse_gu_core, shape4. rewrite Hmax. simpl.
        destruct (Z.ltb_spec 0 dmax); [lia | reflexivity].
      + intros i j k l Hi Hj Hk Hl.
        destruct (proj2 (lookup4_rect _ _ _ _ _ i j k l Hsk)) as [x Hx];
          [lia|].
        rewrite Hx. f_equal. unfold shifted, read_shifted.
        pose proof (delay_at_bounds delay dmax k Hmax Hpos) as Hb.
        replace (delay_at delay k) with 0 by lia.
        rewrite np_index_nonneg by lia.
        replace (Z.to_nat (Z.of_nat i + 0)) with i by lia.
        symmetry. now apply get4_lookup4. }
  destruct Hgu as (A & -> & HskA & HA). simpl. f_equal.
  rewrite Hslice by (now rewrite (skel4_length A _ _ _ _ (eq_trans HskA Hsk))).
  apply cube_ext.
  - rewrite skel4_fold_cells, skel4_zeros4.
    apply (skel4_take n nint); [now rewrite HskA | lia].
  - intros i j k l x x' Hx Hx'.
    pose proof (lookup_fold_zeros_inv _ _ _ _ _ _ _ _ _ _ _ Hx')
      as (Hi & Hj & Hk & Hl).
    rewrite lookup4_take, decide_True, (HA i j k l Hi Hj Hk Hl) in Hx
      by exact Hi.
    rewrite (lookup_fold_zeros (fun p _ => shifted data delay p)) in Hx';
      [congruence | apply cells_kilj_NoDup | | assumption ..].
    apply elem_of_cells4. exists k, i, l, j. split; [lia | reflexivity].
Qed.

Lemma dedisperse_backends_agree_witness :
  dedisperse example_cube [1; 0] true = dedisperse example_cube [1; 0] false.
Proof.
  apply (dedisperse_backends_agree example_cube [1; 0] 1);
    first [ reflexivity | simpl; lia | repeat constructor; lia ].
Defined.

(** *** [_dedisperseresample_gu] *)

Lemma get4_upd4_ne (f : complex -> complex) (i j k l i' j' k' l' : nat)
    (a : cube) :
  (i, j, k, l) <> (i', j', k', l') ->
  get4 (upd4 f i j k l a) i' j' k' l' = get4 a i' j' k' l'.
Proof.
  intros H. apply get4_ext. rewrite lookup4_upd4. now rewrite decide_False.
Qed.

(** The passes [r >= 1] of the inner loop: the sample is read outside the
    cell that accumulates. *)
Lemma gu_accumulate (t : nat -> nat) (i b k l : nat) (rs : list nat)
    (c : complex) (w : Z) (a : cube) :
  Forall (fun r => r <> 0%nat /\ t r <> i) rs ->
  fold_left
    (fun (s : cube * Z) r =>
       let '(data, weight) := s in
       let val := get4 data (t r) b k l in
       (if Nat.eqb r 0
        then upd4 (fun _ => val) i b k l data
        else upd4 (fun c => cadd c val) i b k l data,
        if cnonzero val then weight + 1 else weight))
    rs (upd4 (fun _ => c) i b k l a, w)
  = (upd4 (fun _ => fold_left cadd (map (fun r => get4 a (t r) b k l) rs) c)
          i b k l a,
     w + weight_of (map (fun r => get4 a (t r) b k l) rs)).
Proof.
  intros H. revert c w. induction H as [|r rs [Hr Ht] _ IH]; intros c w.
  - simpl. f_equal. unfold weight_of. simpl. lia.
  - cbn [fold_left map].
    rewrite get4_upd4_ne by (intros E; inversion E; congruence).
    destruct (Nat.eqb_spec r 0) as [E|_]; [contradiction|].
    rewrite upd4_upd4, IH, weight_of_cons. f_equal.
    destruct (cnonzero (get4 a (t r) b k l)); lia.
Qed.

Lemma gu_value_jit (vals : list complex) :
  gu_value vals
  = if 0 <? weight_of vals
    then cdiv_int (fold_left cadd vals czero) (weight_of vals)
    else c_of_int (weight_of vals).
Proof.
  destruct vals as [|v rest]; [reflexivity|].
  unfold gu_value. cbn [fold_left]. now rewrite cadd_0_l.
Qed.

(** One cell of the fused in-place kernel: the loop over [r] and the
    division leave in the cell the value computed from the samples as they
    were when the loop started. *)
Lemma gu_cell_body (nint : nat) (delay : list Z) (dt : Z) (i b k l : nat)
    (a : cube) :
  0 < dt -> 0 <= delay_at delay k ->
  (let '(data, weight) :=
     for_range (Z.to_nat dt) (fun r '(data, weight) =>
       let iprime := Z.of_nat i * dt + delay_at delay k + Z.of_nat r in
       let val := get4 data (np_index nint iprime) b k l in
       (if Nat.eqb r 0
        then upd4 (fun _ => val) i b k l data
        else upd4 (fun c => cadd c val) i b k l data,
        if cnonzero val then weight + 1 else weight))
       (a, 0) in
   if 0 <? weight
   then upd4 (fun c => cdiv_int c weight) i b k l data
   else upd4 (fun _ => c_of_int weight) i b k l data)
  = upd_cell (fun _ => gu_value (read_samples nint delay dt (i, b, k, l) a))
      (i, b, k, l) a.
Proof.
  intros Hdt Hd. unfold for_range, read_samples.
  rewrite (seq_to_nat_split dt Hdt). cbn [fold_left map Nat.eqb].
  set (t := fun r => np_index nint
                       (Z.of_nat i * dt + delay_at delay k + Z.of_nat r)).
  set (v0 := get4 a (np_index nint
                       (Z.of_nat i * dt + delay_at delay k + Z.of_nat 0)) b k l).
  assert (Hrs : Forall (fun r => r <> 0%nat /\ t r <> i)
                  (seq 1 (Z.to_nat (dt - 1)))).
  { apply Forall_forall. intros r Hr. apply elem_of_seq in Hr.
    split; [lia|]. unfold t. rewrite np_index_nonneg by nia. nia. }
  pose proof (gu_accumulate t i b k l (seq 1 (Z.to_nat (dt - 1))) v0
                (if cnonzero v0 then 1 else 0) a Hrs) as Hacc.
  match goal with
  | |- context [fold_left ?F ?rs ?init] =>
      assert (Hfold : fold_left F rs init
                      = (upd4 (fun _ => fold_left cadd
                                 (map (fun r => get4 a (t r) b k l)
                                      (seq 1 (Z.to_nat (dt - 1)))) v0)
                              i b k l a,
                         (if cnonzero v0 then 1 else 0)
                         + weight_of (map (fun r => get4 a (t r) b k l)
                                          (seq 1 (Z.to_nat (dt - 1))))))
        by exact Hacc;
      rewrite Hfold
  end.
  unfold upd_cell, gu_value. rewrite weight_of_cons.
  fold (t 0%nat) in v0. fold v0.
  change (fun r => get4 a (np_index nint
                             (Z.of_nat i * dt + delay_at delay k + Z.of_nat r))
                        b k l)
    with (fun r => get4 a (t r) b k l).
  destruct (0 <? _); rewrite upd4_upd4; reflexivity.
Qed.

Lemma fused_gu_as_fold (data : cube) (delay : list Z) (dmax dt : Z) :
  length delay = length ((data !!! 0%nat) !!! 0%nat) ->
  delay_max delay = Ok dmax ->
  Forall (fun d => 0 <= d) delay ->
  0 < dt ->
  (0 <? dmax) || (1 <? dt) = true ->
  _dedisperseresample_gu data delay dt
  = Ok (fold_left
          (fun a p =>
             upd_cell
               (fun _ => gu_value (read_samples (length data) delay dt p a)) p a)
          (cells4 (length (data !!! 0%nat))
                  (length (((data !!! 0%nat) !!! 0%nat) !!! 0%nat))
                  (length ((data !!! 0%nat) !!! 0%nat))
                  (Z.to_nat ((Z.of_nat (length data) - dmax) / dt))
                  (fun b l k i => (i, b, k, l)))
          data).
Proof.
  intros Hlen Hmax Hpos Hdt Hguard.
  unfold _dedisperseresample_gu, shape4, cells4.
  rewrite Hlen, Nat.eqb_refl. cbn [negb].
  rewrite fold_left_bind.
  apply (for_each_fold (fun a => skel4 a = skel4 data)); [reflexivity | |].
  - intros b a Ha. unfold _dedisperseresample_gu_core.
    rewrite (shape4_skel _ _ Ha). unfold shape4. rewrite Hmax. simpl.
    rewrite Hguard. destruct (Z.eqb_spec dt 0); [lia|]. f_equal.
    unfold for_range at 1 2 3. rewrite !fold_left_bind.
    apply fold_left_ext. intros s1 l. rewrite !fold_left_bind.
    apply fold_left_ext. intros s2 k. rewrite !fold_left_bind.
    apply fold_left_ext. intros s3 i. cbn [fold_left].
    apply gu_cell_body; [exact Hdt|].
    now pose proof (delay_at_bounds delay dmax k Hmax Hpos).
  - intros b a Ha. rewrite skel4_fold_upd; [exact Ha|].
    intros a' p. apply skel4_upd_cell.
Qed.

Lemma read_samples_forward (nint : nat) (delay : list Z) (dmax dt : Z)
    (p : cell) (a a0 : cube) :
  delay_max delay = Ok dmax ->
  Forall (fun d => 0 <= d) delay ->
  0 < dt ->
  (forall q, later p q -> lookup_cell a q = lookup_cell a0 q) ->
  read_samples nint delay dt p a = read_samples nint delay dt p a0.
Proof.
  intros Hmax Hpos Hdt H. destruct p as [[[i j] k] l]. unfold read_samples.
  pose proof (delay_at_bounds delay dmax k Hmax Hpos) as Hb.
  apply map_ext_in. intros r _. apply get4_ext.
  apply (H (np_index nint (Z.of_nat i * dt + delay_at delay k + Z.of_nat r),
            j, k, l)).
  simpl. split; [reflexivity|]. rewrite np_index_nonneg by nia. nia.
Qed.

Lemma delay_all_zero (delay : list Z) :
  delay_max delay = Ok 0 -> Forall (fun d => 0 <= d) delay ->
  Forall (fun d => d = 0) delay.
Proof.
  intros Hmax Hpos. rewrite Forall_forall in Hpos. apply Forall_forall.
  intros d Hd. specialize (Hpos d Hd).
  destruct delay as [|d0 ds]; [discriminate|]. injection Hmax as Hmax.
  assert (d <= fold_left Z.max ds d0).
  { apply fold_max_ge. apply elem_of_cons in Hd as [->|Hd]; [now left | now right]. }
  lia.
Qed.

(** X8: on a rectangular array with a non-zero sample, with delays between
    0 and a maximum that does not exceed the number of integrations and a
    factor [dt >= 1], the parallel [dedisperseresample], which overwrites a
    copy of the data in place, returns the same array as the sequential
    one.  The delay table has one entry per channel, as the layout of the
    parallel kernel requires. *)
Theorem fused_backends_agree (data : cube) (delay : list Z) (dmax dt : Z) :
  wf_cube data = true ->
  np_any data = true ->
  length delay = length ((data !!! 0%nat) !!! 0%nat) ->
  delay_max delay = Ok dmax ->
  Forall (fun d => 0 <= d) delay ->
  dmax <= Z.of_nat (length data) ->
  0 < dt ->
  dedisperseresample data delay dt true
  = dedisperseresample data delay dt false.
Proof.
  intros Hwf Hany Hlen Hmax Hpos Hle Hdt.
  pose proof (wf_cube_skel _ Hwf) as Hsk.
  assert (H0 : 0 <= dmax).
  { pose proof (delay_at_bounds delay dmax 0 Hmax Hpos). lia. }
  assert (Hq : 0 <= (Z.of_nat (length data) - dmax) / dt).
  { apply Z.div_pos; lia. }
  assert (Hqle : (Z.of_nat (length data) - dmax) / dt
                 <= Z.of_nat (length data)).
  { transitivity (Z.of_nat (length data) - dmax); [|lia].
    apply Z.div_le_upper_bound; nia. }
  rewrite (dedisperseresample_sequential data delay dt dmax Hany Hmax)
    by (assumption || lia).
  unfold dedisperseresample. rewrite Hany, Hmax. simpl.
  set (nint := length data) in *.
  set (nbl := length (data !!! 0%nat)) in *.
  set (nchan := length ((data !!! 0%nat) !!! 0%nat)) in *.
  set (npol := length (((data !!! 0%nat) !!! 0%nat) !!! 0%nat)) in *.
  set (m := Z.to_nat ((Z.of_nat nint - dmax) / dt)).
  assert (Hslice : forall A : cube,
             length A = nint ->
             slice_to ((Z.of_nat (length A) - dmax) / dt) A = take m A).
  { intros A HA. unfold slice_to. rewrite HA.
    destruct (Z.ltb_spec ((Z.of_nat nint - dmax) / dt) 0); [lia | reflexivity]. }
  assert (Hjit : forall i j k l,
             (i < m)%nat -> (j < nbl)%nat -> (k < nchan)%nat -> (l < npol)%nat ->
             lookup4 (_dedisperseresample_jit data delay dt
                        (zeros4 m nbl nchan npol)) i j k l
             = Some (jit_cell data delay dt (i, j, k, l) czero)).
  { intros i j k l. exact (jit_cell_lookup data delay dt m i j k l). }
  assert (Hgu : exists A,
             _dedisperseresample_gu data delay dt = Ok A
             /\ skel4 A = skel4 data
             /\ forall i j k l,
                  (i < m)%nat -> (j < nbl)%nat -> (k < nchan)%nat ->
                  (l < npol)%nat ->
                  lookup4 A i j k l
                  = Some (jit_cell data delay dt (i, j, k, l) czero)).
  { destruct ((0 <? dmax) || (1 <? dt)) eqn:Hguard.
    - rewrite (fused_gu_as_fold data delay dmax dt Hlen Hmax Hpos Hdt Hguard).
      fold nint nbl nchan npol m.
      rewrite (inplace_forward
                 (fun p a => gu_value (read_samples nint delay dt p a))).
      + eexists. split; [reflexivity|]. split.
        * apply skel4_fold_cells.
        * intros i j k l Hi Hj Hk Hl.
          rewrite (lookup_fold_rect
                     (fun q _ => gu_value (read_samples nint delay dt q data))
                     _ data nint nbl nchan npol); try assumption.
          -- f_equal. rewrite gu_value_jit. reflexivity.
          -- apply NoDup_cells4. intros a b c d a' b' c' d' E.
             now inversion E.
          -- apply elem_of_cells4. exists j, l, k, i.
             split; [lia | reflexivity].
          -- lia.
      + intros a b c d a' b' c' d' E. now inversion E.
      + intros [[[i j] k] l] [[[i' j'] k'] l']
          (a & b & c & d & a' & b' & c' & d' & E & E' & Hlex) [Hcol Ht].
        inversion E. inversion E'. inversion Hcol. subst. simpl in Hlex. lia.
      + intros p a Ha. f_equal.
        now apply (read_samples_forward nint delay dmax dt).
    - apply orb_false_iff in Hguard as [Hg1 Hg2].
      apply Z.ltb_ge in Hg1, Hg2.
      assert (Hz : dmax = 0) by lia. assert (Hone : dt = 1) by lia.
      subst dmax dt.
      exists data. split; [|split; [reflexivity|]].
      + unfold _dedisperseresample_gu, shape4. fold nchan.
        rewrite Hlen, Nat.eqb_refl. cbn [negb]. apply for_each_ok. intros b.
        unfold _dedisperseresample_gu_core, shape4. now rewrite Hmax.
      + intros i j k l Hi Hj Hk Hl.
        rewrite (jit_cell_identity data delay i j k l
                   (delay_all_zero delay Hmax Hpos)).
        destruct (proj2 (lookup4_rect _ _ _ _ _ i j k l Hsk)) as [x Hx];
          [unfold m in Hi; lia|].
        rewrite Hx. f_equal. symmetry. now apply get4_lookup4. }
  destruct Hgu as (A & -> & HskA & HA). simpl. f_equal.
  rewrite np_floordiv_div.
  rewrite Hslice by (now rewrite (skel4_length A _ _ _ _ (eq_trans HskA Hsk))).
  apply cube_ext.
  - rewrite jit_as_fold, skel4_fold_cells, skel4_zeros4.
    apply (skel4_take m nint); [now rewrite HskA | lia].
  - intros i j k l x x' Hx Hx'.
    assert (Hr : (i < m /\ j < nbl /\ k < nchan /\ l < npol)%nat).
    { eapply lookup4_rect; [|exists x'; exact Hx'].
      now rewrite jit_as_fold, skel4_fold_cells, skel4_zeros4. }
    destruct Hr as (Hi & Hj & Hk & Hl).
    rewrite lookup4_take, decide_True, (HA i j k l Hi Hj Hk Hl) in Hx
      by exact Hi.
    rewrite (Hjit i j k l Hi Hj Hk Hl) in Hx'. congruence.
Qed.

(** The example cube, with its two flagged samples, delays 1 and 0 and
    the factor 2. *)
Lemma fused_backends_agree_witness :
  dedisperseresample example_cube [1; 0] 2 true
  = dedisperseresample example_cube [1; 0] 2 false.
Proof.
  apply (fused_backends_agree example_cube [1; 0] 1 2);
    first [ reflexivity | simpl; lia | repeat constructor; lia ].
Defined.

(** *** [_resample_gu] *)

Lemma resample_accumulate (t : nat -> nat) (i j k l : nat) (rs : list nat)
    (c : complex) (a : cube) :
  Forall (fun r => t r <> i) rs ->
  fold_left
    (fun data r => upd4 (fun c => cadd c (get4 data (t r) j k l)) i j k l data)
    rs (upd4 (fun _ => c) i j k l a)
  = upd4 (fun _ => fold_left cadd (map (fun r => get4 a (t r) j k l) rs) c)
         i j k l a.
Proof.
  intros H. revert c. induction H as [|r rs Ht _ IH]; intros c;
    [reflexivity|].
  cbn [fold_left map].
  rewrite get4_upd4_ne by (intros E; inversion E; congruence).
  now rewrite upd4_upd4, IH.
Qed.

Lemma gu_mean_block (vals : list complex) (dt : Z) :
  gu_mean vals dt = block_mean vals dt \/ vals = [].
Proof.
  destruct vals as [|v rest]; [now right|]. left.
  unfold gu_mean, block_mean. cbn [fold_left]. now rewrite cadd_0_l.
Qed.

(** One cell of the in-place resampling kernel. *)
Lemma resample_gu_cell_body (nint : nat) (dt : Z) (i j k l : nat) (a : cube) :
  0 < dt ->
  (let iprime := Z.of_nat i * dt in
   let data :=
     upd4 (fun _ => get4 a (np_index nint iprime) j k l) i j k l a in
   let data :=
     for_range_from 1 (Z.to_nat (dt - 1)) (fun r data =>
       upd4 (fun c => cadd c (get4 data (np_index nint (iprime + Z.of_nat r))
                                   j k l))
            i j k l data) data in
   upd4 (fun c => cdiv_int c dt) i j k l data)
  = upd_cell (fun _ => gu_mean (read_block nint dt (i, j, k, l) a) dt)
      (i, j, k, l) a.
Proof.
  intros Hdt. cbv zeta. unfold for_range_from, read_block.
  rewrite (seq_to_nat_split dt Hdt). cbn [map].
  set (t := fun r => np_index nint (Z.of_nat i * dt + Z.of_nat r)).
  assert (Hrs : Forall (fun r => t r <> i) (seq 1 (Z.to_nat (dt - 1)))).
  { apply Forall_forall. intros r Hr. apply elem_of_seq in Hr.
    unfold t. rewrite np_index_nonneg by nia. nia. }
  pose proof (resample_accumulate t i j k l (seq 1 (Z.to_nat (dt - 1)))
                (get4 a (np_index nint (Z.of_nat i * dt)) j k l) a Hrs) as Hacc.
  match goal with
  | |- context [fold_left ?F ?rs ?init] =>
      assert (Hfold : fold_left F rs init
                      = upd4 (fun _ => fold_left cadd
                                (map (fun r => get4 a (t r) j k l)
                                     (seq 1 (Z.to_nat (dt - 1))))
                                (get4 a (np_index nint (Z.of_nat i * dt)) j k l))
                             i j k l a)
        by exact Hacc;
      rewrite Hfold
  end.
  rewrite upd4_upd4. unfold upd_cell, gu_mean. apply upd4_ext. intros _.
  change (Z.of_nat 0) with 0. now rewrite Z.add_0_r.
Qed.

Lemma resample_gu_as_fold (data : cube) (dt : Z) :
  1 < dt ->
  _resample_gu data dt
  = fold_left
      (fun a p =>
         upd_cell (fun _ => gu_mean (read_block (length data) dt p a) dt) p a)
      (cells4 (length (((data !!! 0%nat) !!! 0%nat) !!! 0%nat))
              (length (data !!! 0%nat))
              (length ((data !!! 0%nat) !!! 0%nat))
              (Z.to_nat (Z.of_nat (length data) / dt))
              (fun l j k i => (i, j, k, l)))
      data.
Proof.
  intros Hdt. unfold _resample_gu, shape4, cells4. cbv iota beta.
  unfold for_range at 1 2 3.
  transitivity
    (fold_left
       (fun a (c : nat * nat * nat) =>
          let '(l, j, k) := c in _resample_gu_core dt l j k a)
       (l ← seq 0 (length (((data !!! 0%nat) !!! 0%nat) !!! 0%nat));
        j ← seq 0 (length (data !!! 0%nat));
        k ← seq 0 (length ((data !!! 0%nat) !!! 0%nat)); [(l, j, k)])
       data).
  { rewrite !fold_left_bind.
    apply fold_left_ext. intros s1 l. rewrite !fold_left_bind.
    apply fold_left_ext. intros s2 j. rewrite !fold_left_bind.
    apply fold_left_ext. intros s3 k. reflexivity. }
  rewrite (fold_left_inv_ext (fun a => skel4 a = skel4 data) _
             (fun a (c : nat * nat * nat) =>
                let '(l, j, k) := c in
                fold_left
                  (fun a p =>
                     upd_cell
                       (fun _ => gu_mean (read_block (length data) dt p a) dt)
                       p a)
                  (i ← seq 0 (Z.to_nat (Z.of_nat (length data) / dt));
                   [(i, j, k, l)])
                  a));
    [| reflexivity | |].
  - rewrite !fold_left_bind.
    apply fold_left_ext. intros s1 l. rewrite !fold_left_bind.
    apply fold_left_ext. intros s2 j. rewrite !fold_left_bind.
    apply fold_left_ext. intros s3 k. reflexivity.
  - intros a [[l j] k] Ha. unfold _resample_gu_core.
    rewrite (shape4_skel _ _ Ha). unfold shape4. cbv iota beta.
    destruct (Z.ltb_spec 1 dt); [|lia].
    unfold for_range. rewrite fold_left_bind.
    apply fold_left_ext. intros s i. cbn [fold_left].
    apply resample_gu_cell_body. lia.
  - intros a [[l j] k] Ha. rewrite skel4_fold_upd; [exact Ha|].
    intros a' p. apply skel4_upd_cell.
Qed.

Lemma read_block_forward (nint : nat) (dt : Z) (p : cell) (a a0 : cube) :
  0 < dt ->
  (forall q, later p q -> lookup_cell a q = lookup_cell a0 q) ->
  read_block nint dt p a = read_block nint dt p a0.
Proof.
  intros Hdt H. destruct p as [[[i j] k] l]. unfold read_block.
  apply map_ext_in. intros r _. apply get4_ext.
  apply (H (np_index nint (Z.of_nat i * dt + Z.of_nat r), j, k, l)).
  simpl. split; [reflexivity|]. rewrite np_index_nonneg by nia. nia.
Qed.

(** X9: on a rectangular array with a non-zero sample and a factor
    [dt >= 1], the parallel [resample], which overwrites a copy of the data
    in place, returns the same array as the sequential one. *)
Theorem resample_backends_agree (data : cube) (dt : Z) :
  wf_cube data = true ->
  np_any data = true ->
  0 < dt ->
  resample data dt true = resample data dt false.
Proof.
  intros Hwf Hany Hdt.
  pose proof (wf_cube_skel _ Hwf) as Hsk.
  rewrite (resample_sequential data dt Hany Hdt).
  unfold resample. rewrite Hany. simpl.
  destruct (Z.eqb_spec dt 0); [lia|].
  set (nint := length data) in *.
  set (nbl := length (data !!! 0%nat)) in *.
  set (nchan := length ((data !!! 0%nat) !!! 0%nat)) in *.
  set (npol := length (((data !!! 0%nat) !!! 0%nat) !!! 0%nat)) in *.
  set (m := Z.to_nat (Z.of_nat nint / dt)).
  assert (Hq : 0 <= Z.of_nat nint / dt) by (apply Z.div_pos; lia).
  assert (Hqle : Z.of_nat nint / dt <= Z.of_nat nint).
  { apply Z.div_le_upper_bound; nia. }
  f_equal.
  assert (Hslice : slice_to (Z.of_nat nint / dt) (_resample_gu data dt)
                   = take m (_resample_gu data dt)).
  { unfold slice_to.
    destruct (Z.ltb_spec (Z.of_nat nint / dt) 0); [lia | reflexivity]. }
  rewrite Hslice. clear Hslice.
  assert (Hgu : skel4 (_resample_gu data dt) = skel4 data
                /\ forall i j k l,
                     (i < m)%nat -> (j < nbl)%nat -> (k < nchan)%nat ->
                     (l < npol)%nat ->
                     lookup4 (_resample_gu data dt) i j k l
                     = Some (resampled data dt (i, j, k, l))).
  { destruct (Z.ltb_spec 1 dt) as [Hd|Hd].
    - rewrite (resample_gu_as_fold data dt Hd).
      fold nint nbl nchan npol m.
      rewrite (inplace_forward
                 (fun p a => gu_mean (read_block nint dt p a) dt)).
      + split; [apply skel4_fold_cells|].
        intros i j k l Hi Hj Hk Hl.
        rewrite (lookup_fold_rect
                   (fun q _ => gu_mean (read_block nint dt q data) dt)
                   _ data nint nbl nchan npol); try assumption.
        * f_equal. unfold resampled.
          destruct (gu_mean_block (read_block nint dt (i, j, k, l) data) dt)
            as [E|E]; [exact E|].
          unfold read_block in E. rewrite (seq_to_nat_split dt Hdt) in E.
          discriminate.
        * apply NoDup_cells4. intros a b c d a' b' c' d' E. now inversion E.
        * apply elem_of_cells4. exists l, j, k, i. split; [lia | reflexivity].
        * lia.
      + intros a b c d a' b' c' d' E. now inversion E.
      + intros [[[i j] k] l] [[[i' j'] k'] l']
          (a & b & c & d & a' & b' & c' & d' & E & E' & Hlex) [Hcol Ht].
        inversion E. inversion E'. inversion Hcol. subst. simpl in Hlex. lia.
      + intros p a Ha. f_equal. now apply read_block_forward.
    - assert (Hone : dt = 1) by lia. subst dt.
      assert (Hid : _resample_gu data 1 = data).
      { unfold _resample_gu, shape4. cbv iota beta.
        apply for_range_id. intros l s. apply for_range_id. intros j s'.
        apply for_range_id. intros k s''. unfold _resample_gu_core.
        now destruct (shape4 s'') as [[[n0 n1] n2] n3]. }
      rewrite Hid. split; [reflexivity|].
      intros i j k l Hi Hj Hk Hl. rewrite resampled_by_one.
      destruct (proj2 (lookup4_rect _ _ _ _ _ i j k l Hsk)) as [x Hx];
        [unfold m in Hi; rewrite Z.div_1_r in Hi; lia|].
      rewrite Hx. f_equal. symmetry. now apply get4_lookup4. }
  destruct Hgu as (HskA & HA).
  apply cube_ext.
  - rewrite skel4_fold_cells, skel4_zeros4.
    apply (skel4_take m nint); [now rewrite HskA | lia].
  - intros i j k l x x' Hx Hx'.
    pose proof (lookup_fold_zeros_inv _ _ _ _ _ _ _ _ _ _ _ Hx')
      as (Hi & Hj & Hk & Hl).
    rewrite lookup4_take, decide_True, (HA i j k l Hi Hj Hk Hl) in Hx
      by exact Hi.
    rewrite (lookup_fold_zeros (fun p _ => resampled data dt p)) in Hx';
      [congruence | apply cells_jkli_NoDup | | assumption ..].
    apply elem_of_cells4. exists j, k, l, i. split; [lia | reflexivity].
Qed.

Lemma resample_backends_agree_witness :
  resample example_cube 2 true = resample example_cube 2 false.
Proof.
  apply (resample_backends_agree example_cube 2);
    first [ reflexivity | lia ].
Defined.

End InPlace.

(** ** The search drivers: modes, preconditions and the candidate buffer *)

Module SearchMore.
Import Util Arrays Grid Search SearchFacts SearchAux.

Local Open Scope string_scope.

(** *** [grid_image] *)

(** X10: with an [fftmode] other than 'fftw', [grid_image] grids nothing and
    returns no image: for 'cuda' it logs a warning and returns [None]
    ([image_cuda] is a stub); for any other mode it logs a warning and then
    raises [UnboundLocalError] at [return images].  The data and the
    integrations are not looked at. *)
Theorem grid_image_without_fftw (ext : externals) (data : cube) (uvw : uvw_t)
    (npixx npixy uvres : Z) (fftmode : string) (nthread : Z)
    (integrations : ints_arg) (w : world ext) :
  String.eqb fftmode "fftw" = false ->
  grid_image ext data uvw npixx npixy uvres fftmode nthread integrations w
  = if String.eqb fftmode "cuda"
    then (Ok None,
          {| gen := gen ext w;
             log := (log ext w
                     ++ [(WARN, "Imaging with cuda not yet supported.")])%list |})
    else (Raise UnboundLocalError,
          {| gen := gen ext w;
             log := (log ext w
                     ++ [(WARN, "Imaging fftmode not supported.")])%list |}).
Proof.
  intros H. unfold grid_image. rewrite H.
  destruct (String.eqb fftmode "cuda"); reflexivity.
Qed.

(** The mode 'numpy', on integrations that are not even in the data. *)
Lemma grid_image_without_fftw_witness :
  fst (grid_image (toy bright_image) toy_data ([[0%Q]], [[0%Q]], [[0%Q]])
         2 2 1 "numpy" 1 (IntsOne 7) (start (toy bright_image) tt))
  = Raise UnboundLocalError.
Proof.
  rewrite (grid_image_without_fftw (toy bright_image) toy_data
             ([[0%Q]], [[0%Q]], [[0%Q]]) 2 2 1 "numpy" 1 (IntsOne 7)
             (start (toy bright_image) tt));
    reflexivity.
Defined.

(** *** [dedisperse_image_cuda] *)

(** X11: [dedisperse_image_cuda] checks the decimation ladder before
    anything else: with an empty [st.dtarr] it raises [IndexError], with a
    ladder that does not start at 1 or does not double at every step it
    raises [AssertionError]; nothing is logged and no device call is made,
    even for all-zero data. *)
Theorem cuda_search_checks_dtarr_first (ext : externals) (st : State)
    (segment : nat) (data : cube) (w : world ext) :
  (dtarr st = [] ->
   dedisperse_image_cuda ext st segment data w = (Raise IndexError, w))
  /\ (forall dt0 rest,
        dtarr st = dt0 :: rest ->
        dt0 <> 1 \/ doubles (dtarr st) = false ->
        dedisperse_image_cuda ext st segment data w = (Raise AssertionError, w)).
Proof.
  unfold dedisperse_image_cuda. split.
  - intros ->. reflexivity.
  - intros dt0 rest E H. rewrite E in *.
    destruct (Z.eqb_spec dt0 1) as [->|Hne]; cbn [negb].
    + destruct H as [H|H]; [congruence|]. now rewrite H.
    + reflexivity.
Qed.

(** The ladder [1, 3] is refused, on all-zero data too. *)
Lemma cuda_search_checks_dtarr_first_witness :
  fst (dedisperse_image_cuda (toy bright_image) (ladder_state [1; 3]) 0
         (zeros4 2 1 1 1) (start (toy bright_image) tt))
  = Raise AssertionError.
Proof.
  destruct (cuda_search_checks_dtarr_first (toy bright_image)
              (ladder_state [1; 3]) 0 (zeros4 2 1 1 1)
              (start (toy bright_image) tt)) as [_ H].
  rewrite (H 1 [3]); [reflexivity | reflexivity | now right].
Defined.

(** *** [search_thresh_fftw] *)

(** The integrations a call selects. *)
Lemma search_skips_aux (ext : externals) (st : State) (segment : nat)
    (data : cube) (dmind dtind : nat) (integrations : ints_arg) (beamnum : nat)
    (w : world ext) :
  np_any data = true ->
  match integrations with
  | IntsNone => get_search_ints st segment dmind dtind
  | IntsOne i => [i]
  | IntsList l => l
  end = [] ->
  search_thresh_fftw ext st segment data dmind dtind integrations beamnum w
  = (Ok [], w).
Proof.
  intros Hany Hints.
  unfold search_thresh_fftw, search_thresh_fftw_frame, bindM.
  rewrite Hany. simpl. rewrite Hints. reflexivity.
Qed.

(** X12: [search_thresh_fftw] returns the empty collection without
    gridding, imaging, drawing random numbers or raising, whatever the
    [searchtype] (a supported one or not): on all-zero data, after one log
    record; and on data with a non-zero sample when no integration is
    selected, without any log record. *)
Theorem search_skips_empty_input (ext : externals) (st : State)
    (segment : nat) (data : cube) (dmind dtind : nat)
    (integrations : ints_arg) (beamnum : nat) (w : world ext) :
  (np_any data = false ->
   search_thresh_fftw ext st segment data dmind dtind integrations beamnum w
   = (Ok [],
      {| gen := gen ext w;
         log := (log ext w
                 ++ [(INFO, "Data is all zeros. Skipping search.")])%list |}))
  /\ (np_any data = true ->
      match integrations with
      | IntsNone => get_search_ints st segment dmind dtind
      | IntsOne i => [i]
      | IntsList l => l
      end = [] ->
      search_thresh_fftw ext st segment data dmind dtind integrations beamnum w
      = (Ok [], w)).
Proof.
  split.
  - intros Hany.
    unfold search_thresh_fftw, search_thresh_fftw_frame, bindM.
    rewrite Hany. reflexivity.
  - apply search_skips_aux.
Qed.

(** All-zero data in a mode that is not supported. *)
Lemma search_skips_empty_input_witness :
  fst (search_thresh_fftw (toy bright_image) (toy_state "fftw" "image2") 0
         (zeros4 2 1 1 1) 0 0 IntsNone 0 (start (toy bright_image) tt))
  = Ok [].
Proof.
  destruct (search_skips_empty_input (toy bright_image)
              (toy_state "fftw" "image2") 0 (zeros4 2 1 1 1) 0 0 IntsNone 0
              (start (toy bright_image) tt)) as [H _].
  rewrite H; reflexivity.
Defined.

Lemma trial_of_ok (st : State) (dmind dtind : nat) :
  (dmind < length (dmarr st))%nat ->
  (dtind < length (dtarr st))%nat ->
  exists t, trial_of st dmind dtind = Ok t.
Proof.
  intros Hdm Hdt. unfold trial_of.
  destruct (lookup_lt_is_Some_2 _ _ Hdm) as [dm ->].
  destruct (lookup_lt_is_Some_2 _ _ Hdt) as [dt ->]. eauto.
Qed.

(** X13: on data with a non-zero sample and with an integration to search,
    at a trial [(dmind, dtind)] of the state's tables, a [searchtype]
    outside 'image1', 'image1k', 'imagearm' and 'imagearmk' ends in
    [TypeError] ([raise NotImplemented(...)] calls a constant that is not
    callable), after the log record of the search; no image is made. *)
Theorem search_rejects_unknown_searchtype (ext : externals) (st : State)
    (segment : nat) (data : cube) (dmind dtind : nat)
    (integrations : ints_arg) (beamnum : nat) (w : world ext) :
  np_any data = true ->
  (dmind < length (dmarr st))%nat ->
  (dtind < length (dtarr st))%nat ->
  match integrations with
  | IntsNone => get_search_ints st segment dmind dtind
  | IntsOne i => [i]
  | IntsList l => l
  end <> [] ->
  is_image_mode (searchtype (prefs st)) = false ->
  is_arm_mode (searchtype (prefs st)) = false ->
  search_thresh_fftw ext st segment data dmind dtind integrations beamnum w
  = (Raise TypeError,
     {| gen := gen ext w;
        log := (log ext w ++ [(INFO, "search of ints with fftw")])%list |}).
Proof.
  intros Hany Hdm Hdt Hints Himg Harm.
  destruct (trial_of_ok st dmind dtind Hdm Hdt) as [t Ht].
  assert (Hk : is_kalman_mode (searchtype (prefs st)) = false).
  { unfold is_kalman_mode, is_image_mode, is_arm_mode in *.
    apply orb_false_iff in Himg as [_ H1]. apply orb_false_iff in Harm as [_ H2].
    now rewrite H1, H2. }
  unfold search_thresh_fftw, search_thresh_fftw_frame, bindM.
  rewrite Hany. simpl.
  destruct (match integrations with
            | IntsNone => get_search_ints st segment dmind dtind
            | IntsOne i => [i]
            | IntsList l => l
            end) as [|i0 rest]; [congruence|].
  simpl. rewrite Hk, Himg, Harm. unfold lift. rewrite Ht. reflexivity.
Qed.

(** The search type 'image2' on the stand-in collaborators. *)
Lemma search_rejects_unknown_searchtype_witness :
  fst (search_thresh_fftw (toy bright_image) (toy_state "fftw" "image2") 0
         toy_data 0 0 IntsNone 0 (start (toy bright_image) tt))
  = Raise TypeError.
Proof.
  rewrite (search_rejects_unknown_searchtype (toy bright_image)
             (toy_state "fftw" "image2") 0 toy_data 0 0 IntsNone 0
             (start (toy bright_image) tt));
    first [ reflexivity | discriminate | simpl; lia ].
Defined.

(** *** The buffer and the memory limit *)

Section Buffer.

Variable ext : externals.

Lemma flush_if_full_bounded (st : State) (s s' : CandCollection ext * list CandData)
    (w w' : world ext) :
  flush_if_full ext st s w = (Ok s', w') ->
  snd s' = [] \/ over_limit st (length (snd s')) = false.
Proof.
  unfold flush_if_full. destruct s as [cc buf].
  destruct (over_limit st (length buf)) eqn:E.
  - intros H. apply bindM_ok in H as (u & w1 & _ & H).
    injection H as <- _. now left.
  - intros H. injection H as <- _. right. exact E.
Qed.

Lemma forM_invariant {A S : Type} (P : S -> Prop) (body : A -> S -> M ext S)
    (xs : list A) :
  (forall x s w s' w', P s -> body x s w = (Ok s', w') -> P s') ->
  forall s w s' w', P s -> forM body xs s w = (Ok s', w') -> P s'.
Proof.
  intros Hbody. induction xs as [|x xs IH]; intros s w s' w' Hs H; simpl in H.
  - injection H as <- _. exact Hs.
  - apply bindM_ok in H as (s1 & w1 & H1 & H2).
    eapply IH; [|exact H2]. eapply Hbody; [exact Hs | exact H1].
Qed.

Lemma image_step_bounded (st : State) (segment : nat) (data : cube)
    (dmind dtind beamnum : nat) (uvw : uvw_t) (spec_std sig_ts : list float)
    (kalman_coeffs : list (float * float)) (ii : nat * image)
    (s s' : CandCollection ext * list CandData) (w w' : world ext) :
  snd s = [] \/ over_limit st (length (snd s)) = false ->
  image_step ext st segment data dmind dtind beamnum uvw spec_std sig_ts
    kalman_coeffs ii s w = (Ok s', w') ->
  snd s' = [] \/ over_limit st (length (snd s')) = false.
Proof.
  intros Hs. unfold image_step. destruct ii as [integration image], s as [cc buf].
  intros H. apply bindM_ok in H as (peak & w1 & _ & H).
  destruct (PrimFloat.ltb (sigma_image1 st) peak).
  2:{ injection H as <- _. exact Hs. }
  apply bindM_ok in H as (buf' & w2 & _ & H).
  eapply flush_if_full_bounded. exact H.
Qed.

Lemma cuda_step_bounded (st : State) (segment : nat) (data : cube)
    (dmind dtind beamnum : nat) (uvw : uvw_t) (delay : list Z) (i : nat)
    (s s' : CandCollection ext * list CandData) (w w' : world ext) :
  snd s = [] \/ over_limit st (length (snd s)) = false ->
  cuda_step ext st segment data dmind dtind beamnum uvw delay i s w
  = (Ok s', w') ->
  snd s' = [] \/ over_limit st (length (snd s')) = false.
Proof.
  intros Hs. unfold cuda_step. destruct s as [cc buf].
  destruct (gpu_image ext st data dtind dmind i) as [stats img].
  destruct (PrimFloat.ltb (sigma_image1 st) (peak_snr_cuda stats)).
  2:{ intros H. injection H as <- _. exact Hs. }
  intros H. apply bindM_ok in H as (u & w1 & _ & H).
  apply bindM_ok in H as (data_corr & w2 & _ & H).
  eapply flush_if_full_bounded. exact H.
Qed.

(** X14: the candidate buffer never stays over the memory limit.  Whenever
    the loop over the images of [search_thresh_fftw] (image modes) or a
    loop over integrations of [dedisperse_image_cuda] comes to its end, the
    buffer is empty or its estimated size
    [len(canddatalist)*bytespercd/1000**3] does not exceed
    [st.prefs.memory_limit]. *)
Theorem buffer_within_memory_limit (st : State) (segment : nat) (data : cube)
    (dmind dtind beamnum : nat) (uvw : uvw_t) (spec_std sig_ts : list float)
    (kalman_coeffs : list (float * float)) (delay : list Z) :
  (forall cc0 iis w cc buf w',
      image_loop ext st segment data dmind dtind beamnum uvw spec_std sig_ts
        kalman_coeffs cc0 iis w = (Ok (cc, buf), w') ->
      buf = [] \/ over_limit st (length buf) = false)
  /\ (forall integrations cc0 buf0 w cc buf w',
        buf0 = [] \/ over_limit st (length buf0) = false ->
        forM (cuda_step ext st segment data dmind dtind beamnum uvw delay)
          integrations (cc0, buf0) w = (Ok (cc, buf), w') ->
        buf = [] \/ over_limit st (length buf) = false).
Proof.
  split.
  - intros cc0 iis w cc buf w' H. unfold image_loop in H.
    apply (forM_invariant
             (fun s => snd s = [] \/ over_limit st (length (snd s)) = false)
             _ iis) with (s' := (cc, buf)) in H; [exact H | | now left].
    intros x s w0 s' w0' Hs Hstep. eapply image_step_bounded; eassumption.
  - intros integrations cc0 buf0 w cc buf w' H0 H.
    apply (forM_invariant
             (fun s => snd s = [] \/ over_limit st (length (snd s)) = false)
             _ integrations) with (s' := (cc, buf)) in H; [exact H | | exact H0].
    intros x s w0 s' w0' Hs Hstep. eapply cuda_step_bounded; eassumption.
Qed.

End Buffer.

(** With a memory limit of zero every candidate is flushed at once: after
    two bright images the collection holds both and the buffer is empty. *)
Lemma buffer_within_memory_limit_witness :
  let ext := toy bright_image in
  let st := tight_state in
  exists cc buf,
    fst (image_loop ext st 0 toy_data 0 0 0 (get_uvw_segment ext st 0) [] [] []
           [] [(0%nat, bright_image); (1%nat, bright_image)] (start ext tt))
    = Ok (cc, buf)
    /\ length cc = 2%nat
    /\ (buf = [] \/ over_limit st (length buf) = false).
Proof.
  intros ext st.
  destruct (image_loop ext st 0 toy_data 0 0 0 (get_uvw_segment ext st 0) [] []
              [] [] [(0%nat, bright_image); (1%nat, bright_image)]
              (start ext tt)) as [[[cc buf]|e] w'] eqn:E.
  - exists cc, buf. split; [reflexivity|]. split.
    + vm_compute in E. injection E as <- _ _. reflexivity.
    + destruct (buffer_within_memory_limit ext st 0 toy_data 0 0 0
                  (get_uvw_segment ext st 0) [] [] [] []) as [H _].
      exact (H _ _ _ _ _ _ E).
  - vm_compute in E. discriminate.
Defined.

End SearchMore.

(** ** No candidate is lost: announcements against returned records *)

Module Candidates.
Import Util Arrays Grid Search SearchFacts SearchAux.

Local Open Scope string_scope.


Section Tally.

Variable ext : externals.

(** [candidates.calc_features] makes one feature record per candidate. *)
Hypothesis one_record_each :
  forall l : list CandData, length (calc_features ext l) = length l.

















End Tally.



End Candidates.

(** ** The Kalman detector on a flagged channel, and prepared coefficients *)

Module KalmanMore.
Import Util Kalman.

Local Open Scope float_scope.

(** *** Exceptions of the detector *)

Lemma fdiv_only_zde (x y : float) (e : exn) :
  fdiv x y = Raise e -> e = ZeroDivisionError.
Proof.
  unfold fdiv. destruct (PrimFloat.eqb y 0); [|discriminate].
  intros H. now injection H as <-.
Qed.

Lemma bind_only {A B : Type} (E : exn) (r : outcome A) (k : A -> outcome B) :
  (forall e, r = Raise e -> e = E) ->
  (forall a e, k a = Raise e -> e = E) ->
  forall e, bind r k = Raise e -> e = E.
Proof.
  intros Hr Hk e. destruct r as [a|e']; simpl.
  - apply Hk.
  - intros H. injection H as <-. now apply Hr.
Qed.

Lemma kalman_step_only_zde (np_log : float -> float) (sig_t : float)
    (zs : float * float) (st : float * float * float) (e : exn) :
  kalman_step np_log sig_t zs st = Raise e -> e = ZeroDivisionError.
Proof.
  unfold kalman_step. destruct zs as [cur_z std_i], st as [[l mu] v].
  revert e.
  repeat (apply bind_only; [intros e; apply fdiv_only_zde | intros ?]).
  discriminate.
Qed.

(** A channel whose noise is zero stops the filter: the update of the state
    divides the sample by its variance. *)
Lemma kalman_step_zero_noise (np_log : float -> float) (sig_t z : float)
    (st : float * float * float) :
  kalman_step np_log sig_t (z, 0) st = Raise ZeroDivisionError.
Proof.
  unfold kalman_step. destruct st as [[l mu] v].
  destruct (fdiv _ (v + 0 * 0 + sig_t * sig_t)) as [q|e] eqn:E1; simpl.
  2:{ f_equal. eapply fdiv_only_zde, E1. }
  destruct (fdiv mu v) as [a|e] eqn:E2; simpl.
  2:{ f_equal. eapply fdiv_only_zde, E2. }
  reflexivity.
Qed.

Lemma for_each_raises {A S : Type} (E : exn) (body : A -> S -> outcome S)
    (l1 l2 : list A) (x : A) (s : S) :
  (forall y s e, body y s = Raise e -> e = E) ->
  (forall s, body x s = Raise E) ->
  for_each body (l1 ++ x :: l2) s = Raise E.
Proof.
  intros Hall Hx. revert s. induction l1 as [|a l1 IH]; intros s; simpl.
  - now rewrite Hx.
  - destruct (body a s) as [s'|e] eqn:Ea; simpl; [apply IH|].
    f_equal. eapply Hall, Ea.
Qed.

Lemma for_each_only {A S : Type} (E : exn) (body : A -> S -> outcome S)
    (l : list A) (s : S) (e : exn) :
  (forall y s e, body y s = Raise e -> e = E) ->
  for_each body l s = Raise e -> e = E.
Proof.
  intros Hall. revert s. induction l as [|a l IH]; intros s; simpl;
    [discriminate|].
  destruct (body a s) as [s'|e'] eqn:Ea; simpl; [apply IH|].
  intros H. injection H as <-. eapply Hall, Ea.
Qed.

Lemma combine_split {A B : Type} (l : list A) (l' : list B) (i : nat)
    (a : A) (b : B) :
  l !! i = Some a -> l' !! i = Some b ->
  exists l1 l2, combine l l' = l1 ++ (a, b) :: l2.
Proof.
  revert l l'. induction i as [|i IH]; intros [|x l] [|y l'] Ha Hb;
    try discriminate; simpl in *.
  - injection Ha as ->. injection Hb as ->. now exists [], (combine l l').
  - destruct (IH l l' Ha Hb) as (l1 & l2 & E).
    exists ((x, y) :: l1), l2. now rewrite E.
Qed.

Lemma detector_only_zde (np_log : float -> float) (spec spec_std : list float)
    (sig_t : float) (e : exn) :
  kalman_filter_detector np_log spec spec_std sig_t = Raise e ->
  e = ZeroDivisionError.
Proof.
  unfold kalman_filter_detector.
  destruct (for_each _ _ _) as [[[l mu] v]|e'] eqn:E; simpl; [discriminate|].
  intros H. injection H as <-.
  eapply for_each_only; [|exact E].
  intros y s e0. apply kalman_step_only_zde.
Qed.

Lemma detector_zero_channel (np_log : float -> float)
    (spec spec_std : list float) (sig_t : float) (i : nat) :
  spec_std !! i = Some 0 -> (i < length spec)%nat ->
  kalman_filter_detector np_log spec spec_std sig_t = Raise ZeroDivisionError.
Proof.
  intros Hstd Hi. unfold kalman_filter_detector.
  set (spec' := map (fun x => x - np_mean spec) spec).
  assert (Hz : exists z, spec' !! i = Some z).
  { apply lookup_lt_is_Some. unfold spec'. now rewrite length_map. }
  destruct Hz as [z Hz].
  destruct (combine_split spec' spec_std i z 0 Hz Hstd) as (l1 & l2 & E).
  rewrite E.
  rewrite (for_each_raises ZeroDivisionError); [reflexivity | |].
  - intros y s e. apply kalman_step_only_zde.
  - intros [[l mu] v]. apply kalman_step_zero_noise.
Qed.

(** X17: one channel with zero noise (a fully flagged channel) makes
    [kalman_filter_detector] raise [ZeroDivisionError], whatever the
    spectrum, the other noise levels and the smoothness scale (the function
    is compiled with [nopython=True], where a float division by zero
    raises); and [ZeroDivisionError] is the only exception the detector can
    raise. *)
Theorem detector_raises_on_flagged_channel (np_log : float -> float)
    (spec spec_std : list float) (sig_t : float) (i : nat) :
  spec_std !! i = Some 0 -> (i < length spec)%nat ->
  kalman_filter_detector np_log spec spec_std sig_t = Raise ZeroDivisionError
  /\ forall spec2 spec_std2 sig_t2 e,
       kalman_filter_detector np_log spec2 spec_std2 sig_t2 = Raise e ->
       e = ZeroDivisionError.
Proof.
  intros Hstd Hi. split.
  - now apply (detector_zero_channel np_log spec spec_std sig_t i).
  - intros spec2 spec_std2 sig_t2 e. apply detector_only_zde.
Qed.

(** Three channels, the middle one flagged. *)
Lemma detector_raises_on_flagged_channel_witness :
  kalman_filter_detector flat_log [1; 2; 3] [1; 0; 1] 0x1p-1
  = Raise ZeroDivisionError.
Proof.
  apply (detector_raises_on_flagged_channel flat_log [1; 2; 3] [1; 0; 1]
           0x1p-1 1);
    [reflexivity | simpl; lia].
Defined.

(** *** Coefficients *)

Section Numerics.

Variable np_log : float -> float.
Variable rng : Type.
Variable random_normal : list float -> nat -> rng -> list float * rng.
Variable np_percentile : list float -> float -> float.
Variable np_polyfit1 : list float -> list float -> float * float.

Lemma prepare_loop_length (data_std : list float) (n_trial : nat)
    (sig_ts : list float) (g g' : rng) (coeffs : list (float * float)) :
  prepare_loop np_log rng random_normal np_percentile np_polyfit1
    data_std n_trial sig_ts g = Ok (coeffs, g') ->
  length coeffs = length sig_ts.
Proof.
  revert g g' coeffs. induction sig_ts as [|s rest IH]; intros g g' coeffs;
    simpl.
  - intros H. now injection H as <- _.
  - destruct (random_scores _ _ _ _ _ _ _) as [[scores g1]|e]; simpl;
      [|discriminate].
    destruct (prepare_loop _ _ _ _ _ _ _ _ _) as [[cs g2]|e] eqn:E; simpl;
      [|discriminate].
    intros H. injection H as <- _. simpl. f_equal. eapply IH, E.
Qed.

Lemma map_result_only {A B : Type} (E : exn) (f : A -> outcome B) (l : list A)
    (e : exn) :
  (forall x e, f x = Raise e -> e = E) ->
  map_result f l = Raise e -> e = E.
Proof.
  intros Hf. induction l as [|x l IH]; simpl; [discriminate|].
  destruct (f x) as [y|e'] eqn:Ex; simpl.
  - destruct (map_result f l) as [ys|e'']; simpl; [discriminate|].
    intros H. injection H as <-. now apply IH.
  - intros H. injection H as <-. eapply Hf, Ex.
Qed.

Lemma map_result_length {A B : Type} (f : A -> outcome B) (l : list A)
    (ys : list B) :
  map_result f l = Ok ys -> length ys = length l.
Proof.
  revert ys. induction l as [|x l IH]; intros ys; simpl.
  - intros H. now injection H as <-.
  - destruct (f x) as [y|e]; simpl; [|discriminate].
    destruct (map_result f l) as [ys'|e]; simpl; [|discriminate].
    intros H. injection H as <-. simpl. f_equal. now apply IH.
Qed.

(** X18: [kalman_prepare_coeffs] returns the scales it was given (the four
    default ones for [None]) with exactly one (slope, intercept) pair per
    scale; handed to [kalman_significance] as [sig_ts] and [coeffs], as
    [search_thresh_fftw] does, a non-empty result passes the assertion
    [len(sig_ts) == len(coeffs)]: the call returns a significance, or
    raises the detector's [ZeroDivisionError], and nothing else. *)
Theorem prepared_coeffs_fit (data_std : list float) (arg : sig_ts_arg)
    (n_trial : nat) (g g' : rng) (sig_ts : list float)
    (coeffs : list (float * float)) :
  kalman_prepare_coeffs np_log rng random_normal np_percentile np_polyfit1
    data_std arg n_trial g = Ok (sig_ts, coeffs, g') ->
  length coeffs = length sig_ts
  /\ sig_ts = match arg with
              | SigNone => default_sig_ts data_std
              | SigOne sig_t => [sig_t]
              | SigList l => l
              end
  /\ (sig_ts <> [] ->
      forall spec g2,
        let r := kalman_significance np_log rng random_normal np_percentile
                   np_polyfit1 spec data_std sig_ts coeffs g2 in
        returns r = true \/ r = Raise ZeroDivisionError).
Proof.
  unfold kalman_prepare_coeffs.
  destruct (prepare_loop _ _ _ _ _ _ _ _ _) as [[cs g1]|e] eqn:E; simpl;
    [|discriminate].
  intros H. injection H as <- <- <-.
  pose proof (prepare_loop_length _ _ _ _ _ _ E) as Hlen.
  set (sig_ts := match arg with
                 | SigNone => default_sig_ts data_std
                 | SigOne sig_t => [sig_t]
                 | SigList l => l
                 end) in *.
  split; [exact Hlen|]. split; [reflexivity|].
  intros Hne spec g2. unfold kalman_significance.
  assert (Hs : Nat.eqb (length sig_ts) 0 = false).
  { apply Nat.eqb_neq. destruct sig_ts; [congruence | simpl; lia]. }
  rewrite Hs. rewrite Hlen, Hs. simpl. unfold py_len.
  rewrite Hlen, Nat.eqb_refl. simpl.
  unfold detector_scores.
  destruct (map_result _ sig_ts) as [scores|e] eqn:Es; simpl.
  - left.
    pose proof (map_result_length _ _ _ Es) as Hsc.
    destruct scores as [|sc scores], cs as [|c cs], sig_ts as [|s0 rest];
      simpl in *; try lia; try congruence.
  - right. f_equal. eapply map_result_only; [|exact Es].
    intros x e0. apply detector_only_zde.
Qed.

End Numerics.

(** With unit noise in two channels and the stand-in numerical library the
    preparation returns four pairs for the four default scales, and the
    significance computed with them is a value. *)
Lemma prepared_coeffs_fit_witness :
  exists sig_ts coeffs,
    kalman_prepare_coeffs flat_log unit flat_normal top_percentile unit_fit
      [1; 1] SigNone 3 tt = Ok (sig_ts, coeffs, tt)
    /\ length coeffs = 4%nat
    /\ returns (kalman_significance flat_log unit flat_normal top_percentile
                  unit_fit [1; 2] [1; 1] sig_ts coeffs tt) = true.
Proof.
  destruct (kalman_prepare_coeffs flat_log unit flat_normal top_percentile
              unit_fit [1; 1] SigNone 3 tt) as [[[sig_ts coeffs] []]|e] eqn:E.
  - exists sig_ts, coeffs. split; [reflexivity|].
    destruct (prepared_coeffs_fit flat_log unit flat_normal top_percentile
                unit_fit [1; 1] SigNone 3 tt tt sig_ts coeffs E)
      as (Hlen & Hsig & Hret).
    split.
    + rewrite Hlen, Hsig. reflexivity.
    + vm_compute in E. injection E as <- <-. vm_compute. reflexivity.
  - vm_compute in E. discriminate.
Defined.

(** *** A flagged channel in the search *)

Lemma prepare_flagged_channel (np_log : float -> float) (rng : Type)
    (random_normal : list float -> nat -> rng -> list float * rng)
    (np_percentile : list float -> float -> float)
    (np_polyfit1 : list float -> list float -> float * float)
    (data_std : list float) (n_trial : nat) (g : rng) (i : nat) :
  data_std !! i = Some 0 ->
  (forall std n g, length (fst (random_normal std n g)) = n) ->
  kalman_prepare_coeffs np_log rng random_normal np_percentile np_polyfit1
    data_std SigNone (S n_trial) g
  = Raise ZeroDivisionError.
Proof.
  intros Hstd Hlen. unfold kalman_prepare_coeffs, default_sig_ts.
  cbn [map prepare_loop random_scores].
  pose proof (Hlen data_std (length data_std) g) as Hn.
  destruct (random_normal data_std (length data_std) g) as [nd g1].
  simpl in Hn.
  rewrite (detector_zero_channel np_log _ data_std _ i Hstd); [reflexivity|].
  rewrite length_map, Hn. eapply lookup_lt_Some, Hstd.
Qed.

Import Arrays Search SearchAux.

Local Open Scope string_scope.

(** The off integrations can be drawn from ten integrations on. *)
Lemma off_spectrum_guard (n : nat) :
  (Z.of_nat n <? Z.max 10 (Z.of_nat n / 10))%Z = (n <? 10)%nat.
Proof.
  assert (Hq : (Z.of_nat n / 10 <= Z.of_nat n)%Z).
  { apply Z.div_le_upper_bound; lia. }
  destruct (Nat.ltb_spec n 10); [apply Z.ltb_lt | apply Z.ltb_ge]; lia.
Qed.

(** X19: what aborts the Kalman modes of the search.  In the modes
    'image1k' and 'imagearmk', on data with a non-zero sample and with an
    integration to search, [search_thresh_fftw] raises while it prepares
    the Kalman filter, before any image is made: [ValueError] when the data
    has fewer than ten integrations (there is nothing to draw ten off
    integrations from), and from ten integrations on [ZeroDivisionError] if
    the noise spectrum measured from the data is 0 in some channel, a
    flagged channel (for a random generator that returns as many draws as
    it is asked for). *)
Theorem kalman_search_fails_on_flagged_channel (ext : externals) (st : State)
    (segment : nat) (data : cube) (dmind dtind : nat)
    (integrations : ints_arg) (beamnum : nat) (w : world ext)
    (spec_std : list float) (g1 : Search.rng ext) (i : nat) :
  np_any data = true ->
  match integrations with
  | IntsNone => get_search_ints st segment dmind dtind
  | IntsOne i => [i]
  | IntsList l => l
  end <> [] ->
  is_kalman_mode (searchtype (prefs st)) = true ->
  ((length data < 10)%nat ->
   fst (search_thresh_fftw ext st segment data dmind dtind integrations
          beamnum w)
   = Raise ValueError)
  /\ ((10 <= length data)%nat ->
      noise_spectrum ext data (gen ext w) = (spec_std, g1) ->
      spec_std !! i = Some 0%float ->
      (forall std n g, length (fst (Search.random_normal ext std n g)) = n) ->
      fst (search_thresh_fftw ext st segment data dmind dtind integrations
             beamnum w)
      = Raise ZeroDivisionError).
Proof.
  intros Hany Hints Hk.
  unfold search_thresh_fftw, search_thresh_fftw_frame, bindM.
  rewrite Hany. simpl.
  destruct (match integrations with
            | IntsNone => get_search_ints st segment dmind dtind
            | IntsOne i => [i]
            | IntsList l => l
            end) as [|i0 rest]; [congruence|].
  simpl. rewrite Hk. unfold off_spectrum. rewrite off_spectrum_guard. split.
  - intros Hshort. apply Nat.ltb_lt in Hshort. rewrite Hshort. reflexivity.
  - intros Hlong Hnoise Hstd Hlen. apply Nat.ltb_ge in Hlong. rewrite Hlong.
    unfold with_rng, with_rng_result. rewrite Hnoise. simpl.
    change default_n_trial with (S (Nat.pred default_n_trial)).
    rewrite (prepare_flagged_channel _ _ _ _ _ spec_std _ g1 i Hstd Hlen).
    reflexivity.
Qed.

(** Mode 'image1k': two integrations, and ten integrations with the second
    channel of the noise spectrum flagged. *)
Lemma kalman_search_fails_on_flagged_channel_witness :
  fst (search_thresh_fftw flagged_toy (toy_state "fftw" "image1k") 0 toy_data
         0 0 IntsNone 0 (start flagged_toy tt))
  = Raise ValueError
  /\ fst (search_thresh_fftw flagged_toy (toy_state "fftw" "image1k") 0
            toy_series 0 0 IntsNone 0 (start flagged_toy tt))
     = Raise ZeroDivisionError.
Proof.
  split.
  - apply (kalman_search_fails_on_flagged_channel flagged_toy
             (toy_state "fftw" "image1k") 0 toy_data 0 0 IntsNone 0
             (start flagged_toy tt) [] tt 0);
      first [ reflexivity | discriminate | simpl; lia ].
  - apply (kalman_search_fails_on_flagged_channel flagged_toy
             (toy_state "fftw" "image1k") 0 toy_series 0 0 IntsNone 0
             (start flagged_toy tt) [1; 0]%float tt 1);
      try reflexivity.
    + discriminate.
    + intros std n g. unfold flat_normal. simpl.
      now rewrite length_map, length_seq.
Defined.

End KalmanMore.
(** ** [meantsub]: the mean of every time series is taken off its
    non-zero samples *)

Module MeantsubFacts.
Import Py Arrays ArrayFacts Dedisp DedispFacts Cells SeqKernels InPlace UtilMore.

Lemma column_sum_from (val : nat -> complex) (ls : list nat) (s0 : complex)
    (w0 : Z) :
  fold_left
    (fun (s : complex * Z) l =>
       (fun l '(ss, weight) =>
          (cadd ss (val l), if cnonzero (val l) then weight + 1 else weight))
         l s)
    ls (s0, w0)
  = (fold_left cadd (map val ls) s0, w0 + weight_of (map val ls)).
Proof.
  revert s0 w0. induction ls as [|l ls IH]; intros s0 w0; simpl.
  - unfold weight_of. simpl. f_equal. lia.
  - rewrite IH, weight_of_cons. f_equal. destruct (cnonzero (val l)); lia.
Qed.

Lemma column_sum_eq (a : cube) (nint i j k : nat) :
  column_sum a nint i j k
  = (fold_left cadd (column a nint i j k) czero,
     weight_of (column a nint i j k)).
Proof.
  unfold column_sum, for_range, column.
  exact (column_sum_from (fun l => get4 a l i j k) (seq 0 nint) czero 0).
Qed.

(** Writing a cell only when it is non-zero is writing it always, with a
    function that leaves zero alone. *)
Lemma cond_upd4 (f : complex -> complex) (l i j k : nat) (a : cube) :
  (if cnonzero (get4 a l i j k) then upd4 f l i j k a else a)
  = upd4 (fun c => if cnonzero c then f c else c) l i j k a.
Proof.
  apply cube_ext.
  - destruct (cnonzero (get4 a l i j k)); now rewrite !skel4_upd4.
  - intros l' i' j' k' x x' Hx Hx'.
    rewrite lookup4_upd4 in Hx'.
    destruct (decide ((l, i, j, k) = (l', i', j', k'))) as [E|E].
    + injection E as -> -> -> ->.
      destruct (lookup4 a l' i' j' k') as [c|] eqn:Hc; [|discriminate].
      simpl in Hx'. injection Hx' as <-.
      rewrite (get4_lookup4 _ _ _ _ _ _ Hc) in Hx.
      destruct (cnonzero c).
      * rewrite lookup4_upd4, decide_True, Hc in Hx by reflexivity.
        simpl in Hx. congruence.
      * congruence.
    + destruct (cnonzero (get4 a l i j k)).
      * rewrite lookup4_upd4, decide_False in Hx by exact E. congruence.
      * congruence.
Qed.

Lemma series_cells_NoDup (nint i j k : nat) :
  NoDup (l ← seq 0 nint; [(l, i, j, k)]).
Proof.
  apply NoDup_bind; [| |apply NoDup_seq].
  - intros x1 x2 y _ _ H1 H2.
    apply list_elem_of_singleton in H1, H2. congruence.
  - intros x _. apply NoDup_singleton.
Qed.

Lemma elem_of_series_cells (nint i j k : nat) (q : cell) :
  q ∈ (l ← seq 0 nint; [(l, i, j, k)])
  <-> exists l, (l < nint)%nat /\ q = (l, i, j, k).
Proof.
  rewrite list_elem_of_bind. split.
  - intros (l & Hq & Hl). apply list_elem_of_singleton in Hq.
    apply elem_of_seq in Hl. exists l. split; [lia|exact Hq].
  - intros (l & Hl & ->). exists l. split; [apply list_elem_of_singleton; reflexivity|].
    apply elem_of_seq. lia.
Qed.

Lemma skel4_fold_left {A : Type} (step : cube -> A -> cube) (xs : list A)
    (a : cube) :
  (forall b x, skel4 (step b x) = skel4 b) ->
  skel4 (fold_left step xs a) = skel4 a.
Proof.
  intros H. revert a. induction xs as [|x xs IH]; intros a; simpl; [reflexivity|].
  now rewrite IH, H.
Qed.

Lemma series_pass_skel (nint i j k : nat) (a : cube) :
  skel4 (series_pass nint i j k a) = skel4 a.
Proof.
  unfold series_pass. destruct (column_sum a nint i j k) as [ss weight].
  cbv zeta. destruct (cnonzero _); [|reflexivity].
  unfold for_range. apply skel4_fold_left.
  intros b l. destruct (cnonzero (get4 b l i j k)); [apply skel4_upd4|reflexivity].
Qed.

Lemma lookup4_beyond (a : cube) (l i j k : nat) :
  (length a <= l)%nat -> lookup4 a l i j k = None.
Proof.
  intros H. unfold lookup4. now rewrite (lookup_ge_None_2 a l H).
Qed.

(** One pass over a time series: its samples have the mean of the series
    subtracted (the non-zero ones, when the mean is not zero), every other
    cell is as before. *)
Lemma series_pass_lookup (i j k : nat) (a : cube) (l' i' j' k' : nat) :
  lookup4 (series_pass (length a) i j k a) l' i' j' k'
  = if decide ((i', j', k') = (i, j, k))
    then subtracted (weighted_mean (column a (length a) i j k))
           <$> lookup4 a l' i' j' k'
    else lookup4 a l' i' j' k'.
Proof.
  unfold series_pass. rewrite column_sum_eq. cbv zeta.
  change (if 0 <? weight_of (column a (length a) i j k)
          then cdiv_int (fold_left cadd (column a (length a) i j k) czero)
                 (weight_of (column a (length a) i j k))
          else czero)
    with (weighted_mean (column a (length a) i j k)).
  set (m := weighted_mean (column a (length a) i j k)).
  destruct (cnonzero m) eqn:Hm.
  - rewrite (for_range_ext _ _
               (fun l b => upd_cell (fun c => if cnonzero c then csub c m else c)
                             (l, i, j, k) b))
      by (intros l b _; apply cond_upd4).
    rewrite (for_range_cells (length a) (fun l => (l, i, j, k))
               (fun b p => upd_cell (fun c => if cnonzero c then csub c m else c) p b)).
    change (lookup4 ?b l' i' j' k') with (lookup_cell b (l', i', j', k')).
    rewrite (lookup_fold_cells
               (fun _ c => if cnonzero c then csub c m else c))
      by apply series_cells_NoDup.
    destruct (decide ((l', i', j', k') ∈ (l ← seq 0 (length a); [(l, i, j, k)])))
      as [Hin|Hin].
    + apply elem_of_series_cells in Hin. destruct Hin as (l & Hl & E).
      injection E as -> -> -> ->. rewrite decide_True by reflexivity.
      destruct (lookup_cell a (l, i, j, k)) as [c|]; [|reflexivity].
      simpl. unfold subtracted. now rewrite Hm, andb_true_r.
    + destruct (decide ((i', j', k') = (i, j, k))) as [E|E]; [|reflexivity].
      injection E as -> -> ->.
      assert (Hl : (length a <= l')%nat).
      { destruct (Nat.le_gt_cases (length a) l') as [H|H]; [exact H|].
        exfalso. apply Hin, elem_of_series_cells. now exists l'. }
      simpl. now rewrite lookup4_beyond.
  - destruct (decide ((i', j', k') = (i, j, k))) as [E|E]; [|reflexivity].
    destruct (lookup4 a l' i' j' k') as [c|]; [|reflexivity].
    simpl. unfold subtracted. now rewrite Hm, andb_false_r.
Qed.

Lemma meantsub_jit_as_fold (data : cube) :
  _meantsub_jit data
  = fold_left (fun a t => let '(i, j, k) := t in series_pass (length data) i j k a)
      (series3 (length (data !!! 0%nat))
               (length ((data !!! 0%nat) !!! 0%nat))
               (length (((data !!! 0%nat) !!! 0%nat) !!! 0%nat)))
      data.
Proof.
  unfold _meantsub_jit, shape4, series3.
  rewrite <- for_range_bind. apply for_range_ext. intros i a _.
  rewrite <- for_range_bind. apply for_range_ext. intros j b _.
  rewrite <- for_range_bind. apply for_range_ext. intros k c _.
  reflexivity.
Qed.

Lemma series3_NoDup (nbl nchan npol : nat) : NoDup (series3 nbl nchan npol).
Proof.
  unfold series3.
  apply NoDup_bind; [| |apply NoDup_seq].
  - intros i1 i2 t _ _ H1 H2.
    apply list_elem_of_bind in H1, H2.
    destruct H1 as (j1 & H1 & _), H2 as (j2 & H2 & _).
    apply list_elem_of_bind in H1, H2.
    destruct H1 as (k1 & H1 & _), H2 as (k2 & H2 & _).
    apply list_elem_of_singleton in H1, H2. congruence.
  - intros i _. apply NoDup_bind; [| |apply NoDup_seq].
    + intros j1 j2 t _ _ H1 H2.
      apply list_elem_of_bind in H1, H2.
      destruct H1 as (k1 & H1 & _), H2 as (k2 & H2 & _).
      apply list_elem_of_singleton in H1, H2. congruence.
    + intros j _. apply NoDup_bind; [| |apply NoDup_seq].
      * intros k1 k2 t _ _ H1 H2.
        apply list_elem_of_singleton in H1, H2. congruence.
      * intros k _. apply NoDup_singleton.
Qed.

Lemma elem_of_series3 (nbl nchan npol i j k : nat) :
  (i, j, k) ∈ series3 nbl nchan npol
  <-> (i < nbl /\ j < nchan /\ k < npol)%nat.
Proof.
  unfold series3. rewrite list_elem_of_bind. split.
  - intros (i0 & H & Hi). apply list_elem_of_bind in H.
    destruct H as (j0 & H & Hj). apply list_elem_of_bind in H.
    destruct H as (k0 & H & Hk). apply list_elem_of_singleton in H.
    injection H as -> -> ->.
    apply elem_of_seq in Hi, Hj, Hk. lia.
  - intros (Hi & Hj & Hk). exists i. split; [|apply elem_of_seq; lia].
    apply list_elem_of_bind. exists j. split; [|apply elem_of_seq; lia].
    apply list_elem_of_bind. exists k. split; [|apply elem_of_seq; lia].
    apply list_elem_of_singleton. reflexivity.
Qed.

Lemma skel4_same_length (a b : cube) : skel4 a = skel4 b -> length a = length b.
Proof.
  intros H. apply (f_equal length) in H. unfold skel4 in H.
  now rewrite !length_map in H.
Qed.

Lemma column_ext (a b : cube) (nint i j k : nat) :
  (forall l, lookup4 a l i j k = lookup4 b l i j k) ->
  column a nint i j k = column b nint i j k.
Proof.
  intros H. unfold column. apply map_ext. intros l. apply get4_ext, H.
Qed.

(** The passes over different time series do not meet: after any number of
    them every visited series has had the mean it started with
    subtracted. *)
Lemma fold_series_lookup (ts : list (nat * nat * nat)) (data : cube) :
  NoDup ts ->
  let out :=
    fold_left (fun a t => let '(i, j, k) := t in series_pass (length data) i j k a)
      ts data in
  skel4 out = skel4 data
  /\ forall l i j k,
       lookup4 out l i j k
       = if decide ((i, j, k) ∈ ts)
         then subtracted (weighted_mean (column data (length data) i j k))
                <$> lookup4 data l i j k
         else lookup4 data l i j k.
Proof.
  induction ts as [|t ts IH] using rev_ind; intros Hnd out.
  - split; [reflexivity|]. intros l i j k.
    rewrite decide_False; [reflexivity|]. apply not_elem_of_nil.
  - apply NoDup_app in Hnd. destruct Hnd as (Hnd & Hnot & _).
    destruct (IH Hnd) as [Hsk Hlk]. clear IH.
    subst out. rewrite fold_left_app. simpl.
    set (a := fold_left _ ts data) in *.
    destruct t as [[i0 j0] k0].
    assert (Hlen : length data = length a)
      by (symmetry; now apply skel4_same_length).
    rewrite Hlen. split.
    + now rewrite series_pass_skel.
    + intros l i j k. rewrite series_pass_lookup.
      assert (Ht : (i0, j0, k0) ∉ ts).
      { intros Hin. apply (Hnot _ Hin). apply list_elem_of_singleton. reflexivity. }
      destruct (decide ((i, j, k) = (i0, j0, k0))) as [E|E].
      * injection E as -> -> ->.
        rewrite decide_True
          by (apply elem_of_app; right; apply list_elem_of_singleton; reflexivity).
        rewrite (column_ext a data (length a) i0 j0 k0).
        -- rewrite Hlk. now rewrite decide_False by exact Ht.
        -- intros l0. rewrite Hlk. now rewrite decide_False by exact Ht.
      * rewrite Hlk. rewrite <- Hlen.
        destruct (decide ((i, j, k) ∈ ts)) as [Hin|Hin].
        -- rewrite decide_True by (apply elem_of_app; now left). reflexivity.
        -- rewrite decide_False; [reflexivity|].
           intros H. apply elem_of_app in H. destruct H as [H|H]; [tauto|].
           apply list_elem_of_singleton in H. congruence.
Qed.

(** The cell law of the kernel on a rectangular array. *)
Lemma meantsub_jit_lookup (data : cube) :
  wf_cube data = true ->
  skel4 (_meantsub_jit data) = skel4 data
  /\ forall l i j k,
       lookup4 (_meantsub_jit data) l i j k
       = subtracted (col_mean data i j k) <$> lookup4 data l i j k.
Proof.
  intros Hwf. rewrite meantsub_jit_as_fold.
  destruct (fold_series_lookup _ data (series3_NoDup
              (length (data !!! 0%nat))
              (length ((data !!! 0%nat) !!! 0%nat))
              (length (((data !!! 0%nat) !!! 0%nat) !!! 0%nat))))
    as [Hsk Hlk].
  split; [exact Hsk|]. intros l i j k. rewrite Hlk.
  destruct (decide _) as [Hin|Hin]; [reflexivity|].
  destruct (lookup4 data l i j k) as [c|] eqn:Hc; [|reflexivity].
  exfalso. apply Hin, elem_of_series3.
  pose proof (proj1 (lookup4_rect data _ _ _ _ l i j k (wf_cube_skel _ Hwf))
                (ex_intro _ c Hc)) as H.
  tauto.
Qed.

Lemma csub_diag (v : complex) : csub v v = czero.
Proof.
  unfold csub, czero. f_equal; ring.
Qed.

Lemma subtracted_zero_sample (m : complex) : subtracted m czero = czero.
Proof. reflexivity. Qed.

Lemma subtracted_zero_mean (c : complex) : subtracted czero c = c.
Proof.
  unfold subtracted. change (cnonzero czero) with false.
  now rewrite andb_false_r.
Qed.

Lemma lookup4_in_column (data : cube) (l i j k : nat) (c : complex) :
  lookup4 data l i j k = Some c -> c ∈ column data (length data) i j k.
Proof.
  intros Hc. unfold column. apply list_elem_of_fmap. exists l. split.
  - symmetry. now apply get4_lookup4.
  - apply elem_of_seq. split; [lia|]. simpl.
    destruct (Nat.le_gt_cases (length data) l) as [H|H]; [|exact H].
    rewrite lookup4_beyond in Hc by exact H. discriminate.
Qed.

(** X20.  [meantsub] returns the array with every time series (one baseline,
    channel and polarization, over all integrations) shifted by its mean:
    a sample [c] of a series becomes [c - mean] when both [c] and the mean
    are non-zero and stays [c] otherwise, where the mean is the sum of the
    series over the number of its non-zero samples (zero when there is
    none).  The shape is kept, the [parallel] flag changes the log only: it
    adds one warning. *)
Theorem meantsub_subtracts_series_mean (data : cube) (parallel : bool) :
  wf_cube data = true ->
  skel4 (fst (meantsub data parallel)) = skel4 data
  /\ (forall l i j k,
         lookup4 (fst (meantsub data parallel)) l i j k
         = subtracted (col_mean data i j k) <$> lookup4 data l i j k)
  /\ fst (meantsub data true) = fst (meantsub data false)
  /\ length (snd (meantsub data parallel)) = (if parallel then 1 else 0)%nat.
Proof.
  intros Hwf. destruct (meantsub_jit_lookup data Hwf) as [Hsk Hlk].
  assert (E : fst (meantsub data parallel) = _meantsub_jit data)
    by (now destruct parallel).
  rewrite E. split; [exact Hsk|]. split; [exact Hlk|].
  split; [reflexivity|]. now destruct parallel.
Qed.

Lemma meantsub_subtracts_series_mean_witness :
  wf_cube example_cube = true
  /\ lookup4 (fst (meantsub example_cube true)) 2 0 1 0
     = subtracted (col_mean example_cube 0 1 0) <$> lookup4 example_cube 2 0 1 0
  /\ this (re (col_mean example_cube 0 1 0)) = 4%Q
  /\ this (re (get4 (fst (meantsub example_cube true)) 2 0 1 0)) = 2%Q.
Proof.
  split; [reflexivity|]. split.
  - exact (proj1 (proj2 (meantsub_subtracts_series_mean example_cube true
                           eq_refl)) 2%nat 0%nat 1%nat 0%nat).
  - split; reflexivity.
Defined.

(** X21.  [meantsub] never touches a flagged sample, and leaves a time
    series alone when its mean is zero (in particular a series with no
    unflagged sample): a zero stays zero whatever the mean of its series,
    and with a zero mean every sample of the series is as before. *)
Theorem meantsub_keeps_flags (data : cube) (parallel : bool)
    (l i j k : nat) :
  wf_cube data = true ->
  (lookup4 data l i j k = Some czero ->
   lookup4 (fst (meantsub data parallel)) l i j k = Some czero)
  /\ (col_mean data i j k = czero ->
      lookup4 (fst (meantsub data parallel)) l i j k = lookup4 data l i j k)
  /\ (Forall (fun c => c = czero) (column data (length data) i j k) ->
      lookup4 (fst (meantsub data parallel)) l i j k = lookup4 data l i j k).
Proof.
  intros Hwf. destruct (meantsub_jit_lookup data Hwf) as [_ Hlk].
  assert (E : fst (meantsub data parallel) = _meantsub_jit data)
    by (now destruct parallel).
  rewrite E, Hlk.
  assert (Hzero : col_mean data i j k = czero ->
                  subtracted (col_mean data i j k) <$> lookup4 data l i j k
                  = lookup4 data l i j k).
  { intros ->. destruct (lookup4 data l i j k) as [c|]; [|reflexivity].
    simpl. now rewrite subtracted_zero_mean. }
  split; [|split].
  - intros ->. reflexivity.
  - exact Hzero.
  - intros Hall. apply Hzero. unfold col_mean. now apply weighted_mean_flagged.
Qed.

Lemma meantsub_keeps_flags_witness :
  lookup4 (fst (meantsub [[[[czero]]]; [[[c_of_int 2]]]; [[[c_of_int 4]]]] false))
    0 0 0 0 = Some czero.
Proof.
  exact (proj1 (meantsub_keeps_flags
                  [[[[czero]]]; [[[c_of_int 2]]]; [[[c_of_int 4]]]] false
                  0 0 0 0 eq_refl)
           eq_refl).
Defined.

(** X22.  A time series with a single unflagged sample comes out entirely
    flagged: the mean is that sample, and subtracting it leaves zero. *)
Theorem meantsub_flags_lone_sample (data : cube) (parallel : bool)
    (i j k : nat) (before after : list complex) (v : complex) :
  wf_cube data = true ->
  column data (length data) i j k = before ++ v :: after ->
  Forall (fun z => z = czero) before ->
  Forall (fun z => z = czero) after ->
  v <> czero ->
  forall l, is_Some (lookup4 data l i j k) ->
    lookup4 (fst (meantsub data parallel)) l i j k = Some czero.
Proof.
  intros Hwf Hcol Hb Ha Hv l [c Hc].
  destruct (meantsub_jit_lookup data Hwf) as [_ Hlk].
  assert (E : fst (meantsub data parallel) = _meantsub_jit data)
    by (now destruct parallel).
  rewrite E, Hlk, Hc. simpl. f_equal.
  assert (Hm : col_mean data i j k = v).
  { unfold col_mean. rewrite Hcol. now apply weighted_mean_single. }
  rewrite Hm.
  pose proof (lookup4_in_column data l i j k c Hc) as Hin.
  rewrite Hcol in Hin. apply elem_of_app in Hin.
  rewrite Forall_forall in Hb, Ha.
  destruct Hin as [Hin|Hin].
  - rewrite (Hb c Hin). reflexivity.
  - apply elem_of_cons in Hin. destruct Hin as [->|Hin].
    + unfold subtracted. apply cnonzero_true in Hv. rewrite Hv. simpl.
      apply csub_diag.
    + rewrite (Ha c Hin). reflexivity.
Qed.

Lemma meantsub_flags_lone_sample_witness :
  lookup4 (fst (meantsub [[[[czero]]]; [[[c_of_int 3]]]; [[[czero]]]] true))
    1 0 0 0 = Some czero.
Proof.
  apply (meantsub_flags_lone_sample
           [[[[czero]]]; [[[c_of_int 3]]]; [[[czero]]]] true 0 0 0
           [czero] [czero] (c_of_int 3)).
  - reflexivity.
  - reflexivity.
  - repeat constructor.
  - repeat constructor.
  - apply cnonzero_true. reflexivity.
  - eexists. reflexivity.
Defined.

End MeantsubFacts.
(** ** [calc_delay]: zero delays, floors, and frequencies that end the call *)

Module DelayFacts.
Import Py Util UtilFacts Arrays UtilMore.

(** *** Zeros, infinities and [nan] through the operations *)

Lemma is_zero_number (x : float) : is_zero x = true -> is_number x = true.
Proof. unfold is_zero, is_number. now destruct (Prim2SF x). Qed.

Lemma mul_zero_r (x y : float) :
  is_number x = true -> is_zero y = true -> is_zero (x * y) = true.
Proof.
  unfold is_number, is_zero. rewrite FloatAxioms.mul_spec.
  destruct (Prim2SF x), (Prim2SF y); simpl; congruence.
Qed.

Lemma mul_zero_l (x y : float) :
  is_zero x = true -> is_number y = true -> is_zero (x * y) = true.
Proof.
  unfold is_number, is_zero. rewrite FloatAxioms.mul_spec.
  destruct (Prim2SF x), (Prim2SF y); simpl; congruence.
Qed.

Lemma div_zero_l (x y : float) :
  is_zero x = true -> is_number y = true -> is_zero y = false ->
  is_zero (x / y) = true.
Proof.
  unfold is_number, is_zero. rewrite FloatAxioms.div_spec.
  destruct (Prim2SF x), (Prim2SF y); simpl; congruence.
Qed.

Lemma int_of_zero (x : float) : is_zero x = true -> int_of_float x = Ok 0.
Proof.
  unfold is_zero, int_of_float, float_to_Z.
  destruct (Prim2SF x); congruence.
Qed.

(** The reciprocal of a zero is an infinity. *)
Lemma inv_zero (x : float) : is_zero x = true -> is_number (1 / x) = false.
Proof.
  unfold is_number, is_zero. rewrite FloatAxioms.div_spec.
  change (Prim2SF 1) with (S754_finite false 4503599627370496 (-52)).
  destruct (Prim2SF x); simpl; congruence.
Qed.

(** What is not a number stays so, whatever it is combined with. *)
Lemma sub_not_number (x y : float) :
  is_number x = false -> is_number (x - y) = false.
Proof.
  unfold is_number. rewrite FloatAxioms.sub_spec.
  destruct (Prim2SF x) as [|sx| |]; try discriminate; intros _;
    destruct (Prim2SF y) as [|sy| |]; try reflexivity.
  simpl. now destruct sx, sy.
Qed.

Lemma mul_not_number (x y : float) :
  is_number y = false -> is_number (x * y) = false.
Proof.
  unfold is_number. rewrite FloatAxioms.mul_spec.
  destruct (Prim2SF y); try discriminate; intros _;
    now destruct (Prim2SF x).
Qed.

Lemma div_not_number (x y : float) :
  is_number x = false -> is_number (x / y) = false.
Proof.
  unfold is_number. rewrite FloatAxioms.div_spec.
  destruct (Prim2SF x); try discriminate; intros _;
    now destruct (Prim2SF y).
Qed.

Lemma int_of_not_number (x : float) :
  is_number x = false ->
  int_of_float x = Raise ValueError \/ int_of_float x = Raise OverflowError.
Proof.
  intros H. apply int_of_float_not_finite. unfold is_number in H.
  now destruct (Prim2SF x).
Qed.

(** *** Truncation against floor *)

(** The two ways of dropping the fraction of a negative ratio differ by at
    most one. *)
Lemma quot_div_neg (m d : positive) :
  Z.quot (Zneg m) (Zpos d) = Zneg m / Zpos d
  \/ Z.quot (Zneg m) (Zpos d) = Zneg m / Zpos d + 1.
Proof.
  pose proof (Z.quot_rem' (Zneg m) (Zpos d)) as Hq.
  pose proof (Z.rem_bound_pos_neg (Zneg m) (Zpos d)) as Hr.
  pose proof (Z.div_mod (Zneg m) (Zpos d)) as Hd.
  pose proof (Z.mod_pos_bound (Zneg m) (Zpos d)) as Hm.
  set (q := Z.quot (Zneg m) (Zpos d)) in *.
  set (r := Z.rem (Zneg m) (Zpos d)) in *.
  set (q' := Zneg m / Zpos d) in *.
  set (r' := Zneg m mod Zpos d) in *.
  assert (Hr0 : - Zpos d < r <= 0) by (apply Hr; lia).
  assert (Hm0 : 0 <= r' < Zpos d) by (apply Hm; lia).
  assert (Heq : Zpos d * q + r = Zpos d * q' + r') by lia.
  assert (q = q' \/ q = q' + 1) by nia.
  assumption.
Qed.

Lemma int_of_float_floor (x : float) (n : Z) :
  floor_of_float x = Ok n ->
  int_of_float x = Ok n \/ int_of_float x = Ok (n + 1).
Proof.
  unfold int_of_float, floor_of_float, float_to_Z.
  destruct (Prim2SF x) as [s|s| |s m e]; try discriminate.
  - intros H. now left.
  - destruct (Z.leb_spec 0 e) as [He|He]; [intros H; now left|].
    intros H. injection H as <-.
    assert (Hp : exists d, 2 ^ (- e) = Zpos d).
    { pose proof (Z.pow_pos_nonneg 2 (- e)) as Hpos.
      destruct (2 ^ (- e)) as [|d|d] eqn:E; [lia | eauto | lia]. }
    destruct Hp as [d ->]. destruct s.
    + destruct (quot_div_neg m d) as [-> | ->]; auto.
    + left. f_equal. apply Z.quot_div_nonneg; lia.
Qed.

(** *** The delay table *)

Lemma calc_delay_chan_raises (pow2 : float -> float)
    (scale dm freqref inttime f : float) :
  is_number (delay_value pow2 scale dm f freqref inttime) = false ->
  calc_delay_chan pow2 scale dm freqref inttime f = Raise ValueError
  \/ calc_delay_chan pow2 scale dm freqref inttime f = Raise OverflowError.
Proof.
  intros H. unfold calc_delay_chan.
  destruct (int_of_not_number _ H) as [-> | ->]; auto.
Qed.

(** A channel's pass returns, or raises one of the two errors of the
    conversion. *)
Lemma calc_delay_chan_cases (pow2 : float -> float)
    (scale dm freqref inttime f : float) :
  (exists n, calc_delay_chan pow2 scale dm freqref inttime f = Ok n)
  \/ calc_delay_chan pow2 scale dm freqref inttime f = Raise ValueError
  \/ calc_delay_chan pow2 scale dm freqref inttime f = Raise OverflowError.
Proof.
  unfold calc_delay_chan, int_of_float, float_to_Z, store_int32.
  destruct (Prim2SF _) as [s|s| |s m e]; simpl; auto.
  - left. eauto.
  - match goal with
    | |- context [if ?b then Ok _ else Raise _] => destruct b
    end; eauto.
Qed.

Lemma map_result_raises {A B : Type} (P : exn -> Prop) (f : A -> outcome B)
    (l : list A) (x : A) :
  (forall y, (exists b, f y = Ok b) \/ (exists e, f y = Raise e /\ P e)) ->
  In x l ->
  (exists e, f x = Raise e /\ P e) ->
  exists e, map_result f l = Raise e /\ P e.
Proof.
  intros Hall Hin Hx. induction l as [|y l IH]; [contradiction|]. simpl.
  destruct (Hall y) as [[b Hb]|(e & He & HP)].
  - rewrite Hb. simpl. destruct Hin as [->|Hin].
    + destruct Hx as (e & He & _). congruence.
    + destruct (IH Hin) as (e & -> & HP). simpl. eauto.
  - rewrite He. simpl. eauto.
Qed.

(** X23: without dispersion there is no delay.  With [dm] a zero, a scale
    and an integration time that are numbers (the integration time not
    zero), and every channel's bracket [1/freq**2 - 1/freqref**2] a number
    (no square is zero or so small that its reciprocal overflows),
    [calc_delay] returns a table of zeros. *)
Theorem calc_delay_zero_dm (pow2 : float -> float) (freq : list float)
    (freqref dm inttime : float) (scale : option float) :
  is_zero dm = true ->
  is_number (effective_scale scale) = true ->
  is_number inttime = true ->
  is_zero inttime = false ->
  Forall (fun f => is_number (bracket pow2 f freqref) = true) freq ->
  calc_delay pow2 freq freqref dm inttime scale = Ok (map (fun _ => 0) freq).
Proof.
  intros Hdm Hs Hit Hit0 Hfreq. unfold calc_delay. apply map_result_ok.
  eapply Forall_impl; [exact Hfreq|]. intros f Hf. simpl in Hf.
  unfold calc_delay_chan, delay_value. fold (bracket pow2 f freqref).
  rewrite int_of_zero; [reflexivity|].
  apply div_zero_l; [|exact Hit|exact Hit0].
  apply mul_zero_l; [|exact Hf].
  now apply mul_zero_r.
Qed.

(** Three channels, the reference at the top of the band, 5 ms
    integrations and the default scale. *)
Lemma calc_delay_zero_dm_witness :
  calc_delay square [1; 0x1.8p+0; 2]%float 2 0 0x1.47ae147ae147bp-8 None
  = Ok [0; 0; 0].
Proof.
  apply (calc_delay_zero_dm square [1; 0x1.8p+0; 2]%float 2 0
           0x1.47ae147ae147bp-8 None);
    try reflexivity.
  repeat constructor.
Defined.

(** X24: where the expression is not negative the delay is its floor, as
    the docstring says: if [0 <= scale * dm * (1/freq**2 - 1/freqref**2) /
    inttime] in every channel, [calc_delay] does what the same loop with a
    floor in place of [int( )] does, errors included.  In any channel, the
    integer that [int( )] makes of the expression is its floor or one more
    than its floor. *)
Theorem calc_delay_floor_where_nonnegative (pow2 : float -> float)
    (freq : list float) (freqref dm inttime : float) (scale : option float) :
  let s := effective_scale scale in
  (Forall (fun f => PrimFloat.leb 0 (delay_value pow2 s dm f freqref inttime)
                    = true) freq ->
   calc_delay pow2 freq freqref dm inttime scale
   = map_result (delay_floor pow2 s dm freqref inttime) freq)
  /\ (forall f n,
        floor_of_float (delay_value pow2 s dm f freqref inttime) = Ok n ->
        int_of_float (delay_value pow2 s dm f freqref inttime) = Ok n
        \/ int_of_float (delay_value pow2 s dm f freqref inttime) = Ok (n + 1)).
Proof.
  intros s. split.
  - intros Hpos. unfold calc_delay. fold s.
    induction Hpos as [|f l Hf _ IH]; [reflexivity|]. simpl.
    rewrite IH. unfold calc_delay_chan, delay_floor.
    now rewrite (int_of_float_nonneg _ Hf).
  - intros f n. apply int_of_float_floor.
Qed.

(** Channels at and below the reference frequency with [dm = 1000]: the
    floors 622, 161 and 0. *)
Lemma calc_delay_floor_where_nonnegative_witness :
  calc_delay square [1; 0x1.8p+0; 2]%float 2 1000 0x1.47ae147ae147bp-8 None
  = map_result (delay_floor square default_scale 1000 2 0x1.47ae147ae147bp-8)
      [1; 0x1.8p+0; 2]%float
  /\ map_result (delay_floor square default_scale 1000 2 0x1.47ae147ae147bp-8)
       [1; 0x1.8p+0; 2]%float
     = Ok [622; 161; 0].
Proof.
  split; [|vm_compute; reflexivity].
  apply (calc_delay_floor_where_nonnegative square [1; 0x1.8p+0; 2]%float 2
           1000 0x1.47ae147ae147bp-8 None).
  repeat constructor.
Defined.

(** X25: one channel whose square is zero (a zero frequency, or one so
    small that its square underflows) ends the call in an exception,
    whatever the other channels, the reference frequency, the dispersion
    measure (zero included), the integration time and the scale: the
    reciprocal of the square is infinite, the expression is infinite or
    [nan], and [int( )] raises [OverflowError] or [ValueError] on it (if an
    earlier channel has not raised one of the two already). *)
Theorem calc_delay_zero_square (pow2 : float -> float) (freq : list float)
    (freqref dm inttime : float) (scale : option float) (f : float) :
  In f freq ->
  is_zero (pow2 f) = true ->
  calc_delay pow2 freq freqref dm inttime scale = Raise ValueError
  \/ calc_delay pow2 freq freqref dm inttime scale = Raise OverflowError.
Proof.
  intros Hin Hz. unfold calc_delay.
  set (s := effective_scale scale).
  destruct (map_result_raises (fun e => e = ValueError \/ e = OverflowError)
              (calc_delay_chan pow2 s dm freqref inttime) freq f)
    as (e & -> & [-> | ->]); auto.
  - intros y.
    destruct (calc_delay_chan_cases pow2 s dm freqref inttime y)
      as [H | [H | H]]; [now left | right; eauto | right; eauto].
  - assert (Hv : is_number (delay_value pow2 s dm f freqref inttime) = false).
    { unfold delay_value. apply div_not_number, mul_not_number,
        sub_not_number, inv_zero, Hz. }
    destruct (calc_delay_chan_raises pow2 s dm freqref inttime f Hv)
      as [H | H]; eauto.
Qed.

(** A band whose second channel is at 1e-200: its square underflows to
    zero.  With [dm = 1000] the expression is infinite; with [dm = 0] it
    is [nan]. *)
Lemma calc_delay_zero_square_witness :
  calc_delay square [1; 0x1.87e92154ef7acp-665]%float 2 1000 1 None
  = Raise OverflowError
  /\ calc_delay square [1; 0x1.87e92154ef7acp-665]%float 2 0 1 None
     = Raise ValueError.
Proof.
  split.
  - destruct (calc_delay_zero_square square
                [1; 0x1.87e92154ef7acp-665]%float 2 1000 1 None
                0x1.87e92154ef7acp-665%float) as [H | H];
      [right; left; reflexivity | reflexivity | vm_compute in H; discriminate
      | exact H].
  - destruct (calc_delay_zero_square square
                [1; 0x1.87e92154ef7acp-665]%float 2 0 1 None
                0x1.87e92154ef7acp-665%float) as [H | H];
      [right; left; reflexivity | reflexivity | exact H
      | vm_compute in H; discriminate].
Defined.

End DelayFacts.
(** ** [change_table_indices]: turning an index table around *)

Module TableFacts.
Import Py Arrays ArrayFacts SeqKernels Tables.

Lemma table_at_lookup (t : table) (i j : nat) (row : list Z) (x : Z) :
  t !! i = Some row -> row !! j = Some x -> table_at t i j = x.
Proof.
  intros Hi Hj. unfold table_at.
  rewrite (nth_lookup_Some t i [] row Hi). now apply nth_lookup_Some.
Qed.

Lemma rect_row (t : table) (n m i : nat) :
  rect t n m -> (i < n)%nat -> exists row, t !! i = Some row /\ length row = m.
Proof.
  intros [Hn Hm] Hi. destruct (lookup_lt_is_Some_2 t i) as [row Hrow]; [lia|].
  exists row. split; [exact Hrow|].
  rewrite Forall_forall in Hm. apply Hm. eapply list_elem_of_lookup_2, Hrow.
Qed.

Lemma row_set_inside (k v : Z) (row : list Z) :
  0 <= k < Z.of_nat (length row) ->
  row_set k v row = <[Z.to_nat k := v]> row.
Proof.
  intros H. unfold row_set.
  replace (- Z.of_nat (length row) <=? k) with true by (symmetry; apply Z.leb_le; lia).
  replace (k <? Z.of_nat (length row)) with true by (symmetry; apply Z.ltb_lt; lia).
  simpl. now rewrite np_index_nonneg by lia.
Qed.

Lemma row_set_length (k v : Z) (row : list Z) :
  length (row_set k v row) = length row.
Proof.
  unfold row_set. destruct (_ && _); [apply length_insert|reflexivity].
Qed.

Lemma table_set_rect (t : table) (n m r : nat) (c v : Z) :
  rect t n m -> rect (table_set r c v t) n m.
Proof.
  intros [Hn Hm]. unfold table_set. split.
  - now rewrite length_alter.
  - apply Forall_alter; [exact Hm|]. intros row _ Hrow.
    now rewrite row_set_length.
Qed.

(** Reading the table after one assignment inside it. *)
Lemma table_at_table_set (t : table) (n m r r' c' : nat) (c v : Z) :
  rect t n m -> (r < n)%nat -> 0 <= c < Z.of_nat m ->
  table_at (table_set r c v t) r' c'
  = if decide (r' = r /\ c' = Z.to_nat c) then v else table_at t r' c'.
Proof.
  intros Hrect Hr Hc. destruct (rect_row t n m r Hrect Hr) as (row & Hrow & Hlen).
  unfold table_at, table_set. rewrite !(nth_lookup _ r').
  destruct (decide (r' = r)) as [->|Hne].
  - rewrite list_lookup_alter_eq, Hrow. simpl.
    rewrite row_set_inside by lia. rewrite !nth_lookup.
    destruct (decide (c' = Z.to_nat c)) as [->|Hc'].
    + rewrite decide_True by auto.
      now rewrite list_lookup_insert_eq by lia.
    + rewrite decide_False by tauto.
      now rewrite list_lookup_insert_ne by auto.
  - rewrite list_lookup_alter_ne by auto.
    rewrite decide_False by tauto. reflexivity.
Qed.

Lemma apply_writes_rect (ws : list (nat * Z * Z)) (t : table) (n m : nat) :
  rect t n m -> rect (fold_left apply_write ws t) n m.
Proof.
  revert t. induction ws as [|[[r c] v] ws IH]; intros t H; simpl; [exact H|].
  apply IH. now apply table_set_rect.
Qed.

(** A run of assignments to distinct cells inside the table: every
    assignment is there at the end, and a cell none of them names is as it
    was. *)
Lemma apply_writes_lookup (ws : list (nat * Z * Z)) (t : table) (n m : nat) :
  rect t n m ->
  Forall (fun w => (fst (target w) < n)%nat
                   /\ 0 <= snd (target w) < Z.of_nat m) ws ->
  NoDup (target <$> ws) ->
  (forall r c v, (r, c, v) ∈ ws ->
     table_at (fold_left apply_write ws t) r (Z.to_nat c) = v)
  /\ (forall r c, (forall w, w ∈ ws -> target w <> (r, Z.of_nat c)) ->
        table_at (fold_left apply_write ws t) r c = table_at t r c).
Proof.
  induction ws as [|w ws IH] using rev_ind; intros Hrect Hin Hnd.
  - split; [|reflexivity]. intros r c v H. now apply elem_of_nil in H.
  - apply Forall_app in Hin. destruct Hin as [Hin Hw].
    apply Forall_inv in Hw.
    rewrite fmap_app in Hnd. apply NoDup_app in Hnd.
    destruct Hnd as (Hnd & Hfresh & _).
    destruct (IH Hrect Hin Hnd) as [IHw IHo]. clear IH.
    pose proof (apply_writes_rect ws t n m Hrect) as Hrect'.
    rewrite fold_left_app. simpl.
    destruct w as [[r0 c0] v0]. simpl in Hw. destruct Hw as [Hr0 Hc0].
    simpl. split.
    + intros r c v H. rewrite (table_at_table_set _ n m) by assumption.
      apply elem_of_app in H. destruct H as [H|H].
      * rewrite decide_False; [now apply IHw|].
        intros [-> E]. apply (Hfresh (r0, c)).
        -- apply list_elem_of_fmap. now exists (r0, c, v).
        -- apply list_elem_of_singleton. simpl. f_equal.
           rewrite Forall_forall in Hin. specialize (Hin _ H). simpl in Hin. lia.
      * apply list_elem_of_singleton in H. injection H as -> -> ->.
        now rewrite decide_True.
    + intros r c Hnone. rewrite (table_at_table_set _ n m) by assumption.
      rewrite decide_False.
      * apply IHo. intros w Hw. apply Hnone, elem_of_app. now left.
      * intros [-> ->]. apply (Hnone (r0, c0, v0)).
        -- apply elem_of_app. right. now apply list_elem_of_singleton.
        -- simpl. f_equal. lia.
Qed.

Lemma zeros_like_rect (t : table) (n m : nat) :
  rect t n m -> rect (zeros_like t) n m.
Proof.
  intros [Hn Hm]. unfold zeros_like. split.
  - now rewrite length_map.
  - rewrite Forall_forall in Hm. apply Forall_forall. intros row Hrow.
    apply list_elem_of_fmap in Hrow. destruct Hrow as (row0 & -> & Hrow0).
    rewrite length_map. now apply Hm.
Qed.

Lemma rect_first_row (t : table) (n m : nat) :
  rect t n m -> (0 < n)%nat -> length (nth 0 t []) = m.
Proof.
  intros Hrect Hn. destruct (rect_row t n m 0 Hrect Hn) as (row & Hrow & Hlen).
  now rewrite (nth_lookup_Some t 0 [] row Hrow).
Qed.

Lemma table_at_zeros_like (t : table) (i j : nat) :
  table_at (zeros_like t) i j = 0.
Proof.
  unfold table_at, zeros_like.
  change (map (map (fun _ : Z => 0)) t) with ((fmap (M:=list) (fun _ : Z => 0)) <$> t).
  rewrite (nth_lookup _ i), list_lookup_fmap.
  destruct (t !! i) as [row|].
  - change (nth j ((fun _ : Z => 0) <$> row) 0 = 0).
    rewrite nth_lookup, list_lookup_fmap. now destruct (row !! j).
  - now destruct j.
Qed.

(** The two loops as one run of assignments. *)
Lemma change13_as_writes (t : table) (n m : nat) :
  rect t n m ->
  change_table_indices t (1, 3)
  = fold_left apply_write (writes13 t n m) (zeros_like t).
Proof.
  intros Hrect. unfold change_table_indices, writes13.
  destruct (zeros_like_rect t n m Hrect) as [Hn _].
  rewrite Hn. rewrite <- for_range_bind. apply for_range_ext. intros i a Hi.
  rewrite (rect_first_row _ n m (zeros_like_rect t n m Hrect)) by lia.
  rewrite <- for_range_bind. apply for_range_ext. intros j b _. reflexivity.
Qed.

Lemma change23_as_writes (t : table) (n m : nat) :
  rect t n m ->
  change_table_indices t (2, 3)
  = fold_left apply_write (writes23 t n m) (zeros_like t).
Proof.
  intros Hrect. unfold change_table_indices, writes23.
  destruct (zeros_like_rect t n m Hrect) as [Hn _].
  rewrite Hn. rewrite <- for_range_bind. apply for_range_ext. intros i a Hi.
  rewrite (rect_first_row _ n m (zeros_like_rect t n m Hrect)) by lia.
  rewrite <- for_range_bind. apply for_range_ext. intros j b _. reflexivity.
Qed.

Lemma elem_of_writes13 (t : table) (n m : nat) (w : nat * Z * Z) :
  w ∈ writes13 t n m
  <-> exists i j, (i < n)%nat /\ (j < m)%nat
                  /\ w = (i, table_at t i j, Z.of_nat j).
Proof.
  unfold writes13. rewrite list_elem_of_bind. split.
  - intros (i & H & Hi). apply list_elem_of_bind in H.
    destruct H as (j & H & Hj). apply list_elem_of_singleton in H.
    apply elem_of_seq in Hi, Hj. exists i, j. repeat split; [lia|lia|exact H].
  - intros (i & j & Hi & Hj & ->). exists i. split; [|apply elem_of_seq; lia].
    apply list_elem_of_bind. exists j. split; [|apply elem_of_seq; lia].
    now apply list_elem_of_singleton.
Qed.

Lemma elem_of_writes23 (t : table) (n m : nat) (w : nat * Z * Z) :
  w ∈ writes23 t n m
  <-> exists i j, (i < n)%nat /\ (j < m)%nat
                  /\ w = (j, table_at t i j, Z.of_nat i).
Proof.
  unfold writes23. rewrite list_elem_of_bind. split.
  - intros (i & H & Hi). apply list_elem_of_bind in H.
    destruct H as (j & H & Hj). apply list_elem_of_singleton in H.
    apply elem_of_seq in Hi, Hj. exists i, j. repeat split; [lia|lia|exact H].
  - intros (i & j & Hi & Hj & ->). exists i. split; [|apply elem_of_seq; lia].
    apply list_elem_of_bind. exists j. split; [|apply elem_of_seq; lia].
    now apply list_elem_of_singleton.
Qed.

(** Distinct loop counters assign distinct cells, given that the cell
    determines the counters. *)
Lemma writes_NoDup (f : nat -> nat -> nat * Z * Z) (n m : nat) :
  (forall i j i' j', (i < n)%nat -> (j < m)%nat -> (i' < n)%nat -> (j' < m)%nat ->
     target (f i j) = target (f i' j') -> i = i' /\ j = j') ->
  NoDup (target <$> (i ← seq 0 n; j ← seq 0 m; [f i j])).
Proof.
  intros Hinj.
  assert (E : target <$> (i ← seq 0 n; j ← seq 0 m; [f i j])
              = (i ← seq 0 n; j ← seq 0 m; [target (f i j)])).
  { generalize (seq 0 n). intros l. induction l as [|i l IH]; [reflexivity|].
    csimpl. rewrite fmap_app, IH. f_equal.
    generalize (seq 0 m). intros k. induction k as [|j k IHk]; [reflexivity|].
    csimpl. now rewrite IHk. }
  rewrite E. clear E.
  apply NoDup_bind; [| |apply NoDup_seq].
  - intros i i' p Hi Hi' H H'.
    apply elem_of_seq in Hi, Hi'.
    apply list_elem_of_bind in H, H'.
    destruct H as (j & H & Hj), H' as (j' & H' & Hj').
    apply elem_of_seq in Hj, Hj'.
    apply list_elem_of_singleton in H, H'. subst p.
    apply (Hinj i j i' j'); solve [lia | auto].
  - intros i Hi. apply elem_of_seq in Hi.
    apply NoDup_bind; [| |apply NoDup_seq].
    + intros j j' p Hj Hj' H H'.
      apply elem_of_seq in Hj, Hj'.
      apply list_elem_of_singleton in H, H'. subst p.
      apply (Hinj i j i j'); solve [lia | auto].
    + intros j _. apply NoDup_singleton.
Qed.

(** What a rearrangement of [0 .. m-1] is, read by position. *)
Lemma perm_row_facts (row : list Z) (m : nat) :
  row ≡ₚ Z.of_nat <$> seq 0 m ->
  length row = m
  /\ NoDup row
  /\ (forall x, x ∈ row <-> 0 <= x < Z.of_nat m).
Proof.
  intros H. split; [|split].
  - rewrite H, length_fmap. apply length_seq.
  - rewrite H. apply NoDup_fmap_2; [apply Nat2Z.inj'|apply NoDup_seq].
  - intros x. rewrite H, list_elem_of_fmap. split.
    + intros (k & -> & Hk). apply elem_of_seq in Hk. lia.
    + intros Hx. exists (Z.to_nat x). split; [lia|]. apply elem_of_seq. lia.
Qed.

Lemma perm_rows_rect (t : table) (m : nat) :
  permutation_rows t m -> rect t (length t) m.
Proof.
  intros H. split; [reflexivity|].
  eapply Forall_impl; [exact H|]. intros row Hrow.
  now apply perm_row_facts in Hrow.
Qed.

Lemma perm_rows_at (t : table) (m i j : nat) :
  permutation_rows t m -> (i < length t)%nat -> (j < m)%nat ->
  exists row, t !! i = Some row /\ row ≡ₚ Z.of_nat <$> seq 0 m
              /\ row !! j = Some (table_at t i j)
              /\ 0 <= table_at t i j < Z.of_nat m.
Proof.
  intros H Hi Hj.
  destruct (lookup_lt_is_Some_2 t i Hi) as [row Hrow].
  unfold permutation_rows in H. rewrite Forall_forall in H.
  pose proof (H row (list_elem_of_lookup_2 _ _ _ Hrow)) as Hperm.
  destruct (perm_row_facts row m Hperm) as (Hlen & Hnd & Hel).
  destruct (lookup_lt_is_Some_2 row j) as [x Hx]; [lia|].
  rewrite (table_at_lookup t i j row x Hrow Hx).
  exists row. repeat split; try assumption; apply Hel;
    eapply list_elem_of_lookup_2; exact Hx.
Qed.

(** With rows that are rearrangements a cell fixes the loop counters that
    assign it. *)
Lemma writes13_targets (t : table) (m : nat) (i j i' j' : nat) :
  permutation_rows t m ->
  (i < length t)%nat -> (j < m)%nat -> (i' < length t)%nat -> (j' < m)%nat ->
  (i, table_at t i j) = (i', table_at t i' j') -> i = i' /\ j = j'.
Proof.
  intros H Hi Hj Hi' Hj' E. injection E as <- E. split; [reflexivity|].
  destruct (perm_rows_at t m i j H Hi Hj) as (row & Hrow & Hperm & Hx & _).
  destruct (perm_rows_at t m i j' H Hi Hj') as (row' & Hrow' & _ & Hx' & _).
  rewrite Hrow in Hrow'. injection Hrow' as <-.
  destruct (perm_row_facts row m Hperm) as (_ & Hnd & _).
  rewrite <- E in Hx'. exact (NoDup_lookup row j j' _ Hnd Hx Hx').
Qed.

Lemma table_ext (t t' : table) (n m : nat) :
  rect t n m -> rect t' n m ->
  (forall i j, (i < n)%nat -> (j < m)%nat -> table_at t i j = table_at t' i j) ->
  t = t'.
Proof.
  intros Hr Hr' H.
  apply (list_eq_same_length _ _ n); [apply Hr'|apply Hr|].
  intros i row row' Hi Hrow Hrow'.
  destruct (rect_row t n m i Hr Hi) as (r1 & E1 & L1).
  destruct (rect_row t' n m i Hr' Hi) as (r2 & E2 & L2).
  rewrite Hrow in E1. injection E1 as <-.
  rewrite Hrow' in E2. injection E2 as <-.
  apply (list_eq_same_length _ _ m); [exact L2|exact L1|].
  intros j x y Hj Hx Hy.
  rewrite <- (table_at_lookup t i j row x Hrow Hx).
  rewrite <- (table_at_lookup t' i j row' y Hrow' Hy).
  now apply H.
Qed.

(** The cell law for [indices_out == (1, 3)]. *)
Lemma change13_law (t : table) (m : nat) :
  permutation_rows t m ->
  rect (change_table_indices t (1, 3)) (length t) m
  /\ forall i j, (i < length t)%nat -> (j < m)%nat ->
       table_at (change_table_indices t (1, 3)) i (Z.to_nat (table_at t i j))
       = Z.of_nat j.
Proof.
  intros H. pose proof (perm_rows_rect t m H) as Hrect.
  rewrite (change13_as_writes t (length t) m Hrect).
  split; [apply apply_writes_rect, zeros_like_rect, Hrect|].
  intros i j Hi Hj.
  refine (proj1 (apply_writes_lookup (writes13 t (length t) m) (zeros_like t)
                   (length t) m (zeros_like_rect _ _ _ Hrect) _ _) _ _ _ _).
  - apply Forall_forall. intros w Hw. apply elem_of_writes13 in Hw.
    destruct Hw as (i0 & j0 & Hi0 & Hj0 & ->). simpl.
    destruct (perm_rows_at t m i0 j0 H Hi0 Hj0) as (_ & _ & _ & _ & Hx).
    split; [exact Hi0|exact Hx].
  - apply (writes_NoDup (fun i j => (i, table_at t i j, Z.of_nat j))).
    intros i0 j0 i1 j1 ? ? ? ? E. simpl in E.
    now apply (writes13_targets t m).
  - apply elem_of_writes13. now exists i, j.
Qed.

(** A table that sends a rearrangement back to the positions is itself
    made of rearrangements. *)
Lemma inverse_rows (t out : table) (m : nat) :
  permutation_rows t m -> rect out (length t) m ->
  (forall i j, (i < length t)%nat -> (j < m)%nat ->
     table_at out i (Z.to_nat (table_at t i j)) = Z.of_nat j) ->
  permutation_rows out m.
Proof.
  intros H Hrect Hlaw. unfold permutation_rows. apply Forall_forall.
  intros orow Horow. apply list_elem_of_lookup in Horow.
  destruct Horow as [i Hi].
  assert (Hlt : (i < length t)%nat).
  { destruct Hrect as [Hn _]. rewrite <- Hn. eapply lookup_lt_Some, Hi. }
  destruct (rect_row out _ m i Hrect Hlt) as (orow' & E & Hlen).
  rewrite Hi in E. injection E as <-.
  destruct (lookup_lt_is_Some_2 t i Hlt) as [row Hrow].
  pose proof H as Hall. unfold permutation_rows in Hall.
  rewrite Forall_forall in Hall.
  pose proof (Hall row (list_elem_of_lookup_2 _ _ _ Hrow)) as Hperm.
  destruct (perm_row_facts row m Hperm) as (Hrlen & Hnd & Hel).
  (* every position is the entry of some column *)
  assert (Hsur : forall p, (p < m)%nat ->
            exists j, (j < m)%nat /\ table_at t i j = Z.of_nat p).
  { intros p Hp. assert (Hin : Z.of_nat p ∈ row) by (apply Hel; lia).
    apply list_elem_of_lookup in Hin. destruct Hin as [j Hj].
    exists j. split; [rewrite <- Hrlen; eapply lookup_lt_Some, Hj|].
    now apply (table_at_lookup t i j row). }
  assert (Hval : forall p x, orow !! p = Some x ->
            exists j, (j < m)%nat /\ table_at t i j = Z.of_nat p
                      /\ x = Z.of_nat j).
  { intros p x Hx.
    assert (Hp : (p < m)%nat) by (rewrite <- Hlen; eapply lookup_lt_Some, Hx).
    destruct (Hsur p Hp) as (j & Hj & Ej). exists j. repeat split; try assumption.
    rewrite <- (Hlaw i j Hlt Hj), Ej, Nat2Z.id.
    symmetry. now apply (table_at_lookup out i p orow). }
  apply NoDup_Permutation.
  - apply NoDup_alt. intros p p' x Hp Hp'.
    destruct (Hval p x Hp) as (j & _ & Ej & ->).
    destruct (Hval p' _ Hp') as (j' & _ & Ej' & E).
    apply Nat2Z.inj in E. subst j'. lia.
  - apply NoDup_fmap_2; [apply Nat2Z.inj'|apply NoDup_seq].
  - intros x. rewrite list_elem_of_fmap, list_elem_of_lookup. split.
    + intros [p Hp]. destruct (Hval p x Hp) as (j & Hj & _ & ->).
      exists j. split; [reflexivity|]. apply elem_of_seq. lia.
    + intros (j & -> & Hj). apply elem_of_seq in Hj.
      assert (Hj' : (j < m)%nat) by lia.
      destruct (perm_rows_at t m i j H Hlt Hj') as (_ & _ & _ & _ & Hx).
      exists (Z.to_nat (table_at t i j)).
      destruct (lookup_lt_is_Some_2 orow (Z.to_nat (table_at t i j)))
        as [y Hy]; [lia|].
      rewrite Hy. f_equal.
      rewrite <- (Hlaw i j Hlt Hj'). symmetry.
      now apply (table_at_lookup out i _ orow).
Qed.

(** X26.  On a table whose rows are rearrangements of [0 .. m-1],
    [change_table_indices(table, (1, 3))] turns every row into its
    inverse: from [T[i, j] = k] it makes [T'[i, k] = j]; the result is
    again such a table, and turning it around once more gives the table
    that was put in. *)
Theorem change_table_indices_round_trip (t : table) (m : nat) :
  permutation_rows t m ->
  let out := change_table_indices t (1, 3) in
  rect out (length t) m
  /\ permutation_rows out m
  /\ (forall i j, (i < length t)%nat -> (j < m)%nat ->
        table_at out i (Z.to_nat (table_at t i j)) = Z.of_nat j)
  /\ change_table_indices out (1, 3) = t.
Proof.
  intros H out. destruct (change13_law t m H) as [Hrect Hlaw]. fold out in Hrect, Hlaw.
  pose proof (inverse_rows t out m H Hrect Hlaw) as Hperm.
  split; [exact Hrect|]. split; [exact Hperm|]. split; [exact Hlaw|].
  assert (Hlen : length out = length t) by apply Hrect.
  destruct (change13_law out m Hperm) as [Hrect2 Hlaw2].
  rewrite Hlen in Hrect2, Hlaw2.
  apply (table_ext _ _ (length t) m); [exact Hrect2|now apply perm_rows_rect|].
  intros i j Hi Hj.
  destruct (perm_rows_at t m i j H Hi Hj) as (_ & _ & _ & _ & Hx).
  assert (Hk : (Z.to_nat (table_at t i j) < m)%nat) by lia.
  pose proof (Hlaw2 i _ Hi Hk) as E.
  rewrite (Hlaw i j Hi Hj), Nat2Z.id in E. rewrite E. lia.
Qed.

Lemma change_table_indices_round_trip_witness :
  change_table_indices (change_table_indices arm_table (1, 3)) (1, 3)
  = arm_table
  /\ table_at (change_table_indices arm_table (1, 3)) 0 1 = 2.
Proof.
  assert (H : permutation_rows arm_table 3).
  { unfold permutation_rows, arm_table.
    change (Z.of_nat <$> seq 0 3) with [0; 1; 2].
    repeat (apply Forall_cons_2;
            [apply NoDup_Permutation;
             [refine (bool_decide_unpack _ _); vm_compute; exact I
             |refine (bool_decide_unpack _ _); vm_compute; exact I
             |intros x; rewrite !elem_of_cons, !elem_of_nil; tauto]|]).
    apply Forall_nil_2. }
  destruct (change_table_indices_round_trip arm_table 3 H)
    as (_ & _ & Hlaw & Hback).
  split; [exact Hback|].
  exact (Hlaw 0%nat 2%nat ltac:(vm_compute; lia) ltac:(lia)).
Defined.

(** X27.  With [indices_out == (2, 3)] on a square table whose entries are
    column indices and whose columns have no repeated entry, the result
    sends column and entry back to the row: from [T[i, j] = k] it makes
    [T'[j, k] = i].  Any other [indices_out] than (1, 3) and (2, 3)
    returns the table of zeros. *)
Theorem change_table_indices_columns (t : table) (m : nat) :
  rect t m m ->
  entries_in_range t m ->
  (forall i i' j, (i < m)%nat -> (i' < m)%nat -> (j < m)%nat ->
     table_at t i j = table_at t i' j -> i = i') ->
  (forall i j, (i < m)%nat -> (j < m)%nat ->
     table_at (change_table_indices t (2, 3)) j (Z.to_nat (table_at t i j))
     = Z.of_nat i)
  /\ (forall io, pair_eqb io (1, 3) = false -> pair_eqb io (2, 3) = false ->
        change_table_indices t io = zeros_like t).
Proof.
  intros Hrect Hrange Hcol. split.
  - intros i j Hi Hj. rewrite (change23_as_writes t m m Hrect).
    assert (Hx : forall i j, (i < m)%nat -> (j < m)%nat ->
                   0 <= table_at t i j < Z.of_nat m).
    { intros i0 j0 Hi0 Hj0.
      destruct (rect_row t m m i0 Hrect Hi0) as (row & Hrow & Hlen).
      destruct (lookup_lt_is_Some_2 row j0) as [x Hx]; [lia|].
      rewrite (table_at_lookup t i0 j0 row x Hrow Hx).
      unfold entries_in_range in Hrange. rewrite Forall_forall in Hrange.
      pose proof (Hrange row (list_elem_of_lookup_2 _ _ _ Hrow)) as Hr.
      rewrite Forall_forall in Hr. apply Hr.
      eapply list_elem_of_lookup_2, Hx. }
    refine (proj1 (apply_writes_lookup (writes23 t m m) (zeros_like t)
                     m m (zeros_like_rect _ _ _ Hrect) _ _) _ _ _ _).
    + apply Forall_forall. intros w Hw. apply elem_of_writes23 in Hw.
      destruct Hw as (i0 & j0 & Hi0 & Hj0 & ->). simpl.
      split; [exact Hj0|now apply Hx].
    + apply (writes_NoDup (fun i j => (j, table_at t i j, Z.of_nat i))).
      intros i0 j0 i1 j1 Hi0 Hj0 Hi1 Hj1 E. simpl in E.
      injection E as <- E. split; [|reflexivity].
      now apply (Hcol i0 i1 j0).
    + apply elem_of_writes23. now exists i, j.
  - intros io H13 H23. unfold change_table_indices. rewrite H13, H23.
    apply for_range_id. intros i a. now apply for_range_id.
Qed.

Lemma change_table_indices_columns_witness :
  table_at (change_table_indices [[2; 0; 1]; [0; 1; 2]; [1; 2; 0]] (2, 3)) 0 1
  = 2
  /\ change_table_indices [[2; 0; 1]; [0; 1; 2]; [1; 2; 0]] (3, 1)
     = zeros_like [[2; 0; 1]; [0; 1; 2]; [1; 2; 0]].
Proof.
  destruct (change_table_indices_columns [[2; 0; 1]; [0; 1; 2]; [1; 2; 0]] 3)
    as [Hlaw Hzero].
  - split; [reflexivity|]. repeat constructor.
  - repeat constructor; lia.
  - intros i i' j Hi Hi' Hj.
    destruct i as [|[|[|i]]]; [| | |lia];
      (destruct i' as [|[|[|i']]]; [| | |lia]);
      (destruct j as [|[|[|j]]]; [| | |lia]);
      vm_compute; congruence.
  - split.
    + exact (Hlaw 2%nat 0%nat ltac:(lia) ltac:(lia)).
    + apply Hzero; reflexivity.
Defined.

End TableFacts.
(** ** [phase_shift]: every listed integration is rotated by the phasor of
    its (baseline, channel) pair *)

Module PhaseFacts.
Import Py Arrays ArrayFacts Dedisp DedispFacts Cells SeqKernels InPlace Grid
  UtilMore.

Lemma count_cell_cons (q p : cell) (ps : list cell) :
  count_cell q (p :: ps)
  = ((if bool_decide (p = q) then 1 else 0) + count_cell q ps)%nat.
Proof.
  unfold count_cell. simpl. now destruct (bool_decide (p = q)).
Qed.

Lemma count_cell_app (q : cell) (ps1 ps2 : list cell) :
  count_cell q (ps1 ++ ps2) = (count_cell q ps1 + count_cell q ps2)%nat.
Proof.
  unfold count_cell. now rewrite List.filter_app, length_app.
Qed.

(** A run of updates, each cell possibly named more than once: a cell ends
    with its update applied as often as it is named. *)
Lemma lookup_fold_cells_iter (F : cell -> complex -> complex)
    (ps : list cell) (a : cube) (q : cell) :
  lookup_cell (fold_left (fun a p => upd_cell (F p) p a) ps a) q
  = Nat.iter (count_cell q ps) (F q) <$> lookup_cell a q.
Proof.
  revert a. induction ps as [|p ps IH]; intros a; simpl.
  - now destruct (lookup_cell a q).
  - rewrite IH, lookup_upd_cell, count_cell_cons.
    destruct (decide (p = q)) as [->|Hne].
    + rewrite bool_decide_eq_true_2 by reflexivity.
      destruct (lookup_cell a q) as [c|]; [|reflexivity].
      simpl. f_equal. symmetry. apply Nat.iter_succ_r.
    + now rewrite bool_decide_eq_false_2 by exact Hne.
Qed.

Lemma count_bind_zero {A : Type} (q : cell) (f : A -> list cell) (xs : list A) :
  (forall x, count_cell q (f x) = 0%nat) -> count_cell q (xs ≫= f) = 0%nat.
Proof.
  intros H. induction xs as [|x xs IH]; csimpl; [reflexivity|].
  now rewrite count_cell_app, H, IH.
Qed.

Lemma count_bind_seq (q : cell) (f : nat -> list cell) (j0 s n : nat) :
  (forall j, j <> j0 -> count_cell q (f j) = 0%nat) ->
  count_cell q (seq s n ≫= f)
  = if decide (s <= j0 < s + n)%nat then count_cell q (f j0) else 0%nat.
Proof.
  intros H. revert s. induction n as [|n IH]; intros s; csimpl.
  - rewrite decide_False by lia. reflexivity.
  - rewrite count_cell_app, IH.
    destruct (decide (s = j0)) as [->|Hne].
    + rewrite decide_False by lia. rewrite decide_True by lia. lia.
    + rewrite (H s Hne).
      destruct (decide (S s <= j0 < S s + n)%nat),
        (decide (s <= j0 < s + S n)%nat); try reflexivity; lia.
Qed.

Lemma count_bind_filter {A : Type} (q : cell) (g : A -> list cell)
    (P : A -> bool) (xs : list A) :
  (forall x, count_cell q (g x) = if P x then 1%nat else 0%nat) ->
  count_cell q (xs ≫= g) = length (List.filter P xs).
Proof.
  intros H. induction xs as [|x xs IH]; csimpl; [reflexivity|].
  rewrite count_cell_app, H, IH. now destruct (P x).
Qed.

Lemma count_pol_cells (a a' j k l sh3 : nat) (j' k' : nat) :
  count_cell (a, j, k, l) (l' ← seq 0 sh3; [(a', j', k', l')])
  = if bool_decide (a' = a /\ j' = j /\ k' = k /\ (l < sh3)%nat)
    then 1%nat else 0%nat.
Proof.
  rewrite (count_bind_seq _ _ l).
  - destruct (decide (0 <= l < 0 + sh3)%nat) as [Hl|Hl].
    + rewrite count_cell_cons. change (count_cell (a, j, k, l) []) with 0%nat.
      destruct (decide ((a', j', k', l) = (a, j, k, l))) as [E|E].
      * injection E as -> -> ->.
        rewrite !bool_decide_eq_true_2; [reflexivity| |reflexivity].
        repeat split; lia.
      * rewrite !bool_decide_eq_false_2; [reflexivity| |exact E].
        intros (-> & -> & -> & _). now apply E.
    + rewrite bool_decide_eq_false_2; [reflexivity|]. intros (_ & _ & _ & ?). lia.
  - intros l' Hl'. rewrite count_cell_cons.
    rewrite bool_decide_eq_false_2 by congruence. reflexivity.
Qed.

Lemma count_int_cells (sh0 sh3 : nat) (ints : list Z) (a j k l j' k' : nat) :
  count_cell (a, j, k, l)
    (i ← ints;
     match wrap_index sh0 i with
     | Some i => l' ← seq 0 sh3; [(i, j', k', l')]
     | None => []
     end)
  = if bool_decide (j' = j /\ k' = k /\ (l < sh3)%nat)
    then occurrences sh0 ints a else 0%nat.
Proof.
  destruct (bool_decide (j' = j /\ k' = k /\ (l < sh3)%nat)) eqn:E.
  - apply bool_decide_eq_true_1 in E. destruct E as (-> & -> & Hl).
    unfold occurrences. apply count_bind_filter. intros i.
    destruct (wrap_index sh0 i) as [a'|] eqn:Hw.
    + rewrite count_pol_cells.
      destruct (decide (a' = a)) as [->|Hne].
      * rewrite !bool_decide_eq_true_2; auto.
      * rewrite !bool_decide_eq_false_2; [reflexivity|congruence|tauto].
    + rewrite bool_decide_eq_false_2 by discriminate. reflexivity.
  - apply bool_decide_eq_false_1 in E. apply count_bind_zero. intros i.
    destruct (wrap_index sh0 i) as [a'|]; [|reflexivity].
    rewrite count_pol_cells. rewrite bool_decide_eq_false_2; [reflexivity|].
    tauto.
Qed.

(** How often the kernel assigns a cell. *)
Lemma count_phase_cells (sh0 sh1 sh2 sh3 : nat) (ints : list Z)
    (a j k l : nat) :
  count_cell (a, j, k, l) (phase_cells sh0 sh1 sh2 sh3 ints)
  = if bool_decide ((j < sh1)%nat /\ (k < sh2)%nat /\ (l < sh3)%nat)
    then occurrences sh0 ints a else 0%nat.
Proof.
  unfold phase_cells.
  assert (Hk : forall j',
    count_cell (a, j, k, l)
      (k' ← seq 0 sh2; i ← ints;
       match wrap_index sh0 i with
       | Some i => l' ← seq 0 sh3; [(i, j', k', l')]
       | None => []
       end)
    = if bool_decide (j' = j /\ (k < sh2)%nat /\ (l < sh3)%nat)
      then occurrences sh0 ints a else 0%nat).
  { intros j'. rewrite (count_bind_seq _ _ k).
    - rewrite count_int_cells.
      destruct (decide (0 <= k < 0 + sh2)%nat) as [H|H].
      + destruct (decide (j' = j /\ (l < sh3)%nat)) as [[-> Hl]|Hn].
        * rewrite !bool_decide_eq_true_2; auto. repeat split; lia.
        * rewrite !bool_decide_eq_false_2; [reflexivity|tauto|tauto].
      + rewrite bool_decide_eq_false_2; [reflexivity|]. intros (_ & ? & _). lia.
    - intros k' Hk'. rewrite count_int_cells.
      rewrite bool_decide_eq_false_2; [reflexivity|]. tauto. }
  rewrite (count_bind_seq _ _ j).
  - rewrite Hk.
    destruct (decide (0 <= j < 0 + sh1)%nat) as [H|H].
    + destruct (decide ((k < sh2)%nat /\ (l < sh3)%nat)) as [[Hk' Hl]|Hn].
      * rewrite !bool_decide_eq_true_2; auto. repeat split; lia.
      * rewrite !bool_decide_eq_false_2; [reflexivity|tauto|tauto].
    + rewrite bool_decide_eq_false_2; [reflexivity|]. intros (? & _). lia.
  - intros j' Hj'. rewrite Hk.
    rewrite bool_decide_eq_false_2; [reflexivity|]. tauto.
Qed.

Lemma wrap_index_of_nat (n i : nat) :
  (i < n)%nat -> wrap_index n (Z.of_nat i) = Some i.
Proof.
  intros H. unfold wrap_index.
  replace (- Z.of_nat n <=? Z.of_nat i) with true by (symmetry; apply Z.leb_le; lia).
  replace (Z.of_nat i <? Z.of_nat n) with true by (symmetry; apply Z.ltb_lt; lia).
  simpl. rewrite np_index_nonneg by lia. now rewrite Nat2Z.id.
Qed.

(** In [list(range(len(data)))] every integration is named once. *)
Lemma occurrences_range (n a s m : nat) :
  (s + m <= n)%nat ->
  occurrences n (map Z.of_nat (seq s m)) a
  = if decide (s <= a < s + m)%nat then 1%nat else 0%nat.
Proof.
  unfold occurrences. revert s. induction m as [|m IH]; intros s H; simpl.
  - rewrite decide_False by lia. reflexivity.
  - rewrite wrap_index_of_nat by lia.
    destruct (decide (s = a)) as [->|Hne].
    + rewrite bool_decide_eq_true_2 by reflexivity. simpl.
      rewrite IH by lia. rewrite decide_False by lia.
      rewrite decide_True by lia. reflexivity.
    + rewrite bool_decide_eq_false_2 by congruence.
      rewrite IH by lia.
      destruct (decide (S s <= a < S s + m)%nat),
        (decide (s <= a < s + S m)%nat); try reflexivity; lia.
Qed.

Lemma cmul_zero_l (f : complex) : cmul czero f = czero.
Proof.
  unfold cmul, czero. simpl. f_equal; ring.
Qed.

Lemma iter_cmul_zero (n : nat) (f : complex) :
  Nat.iter n (fun c => cmul c f) czero = czero.
Proof.
  induction n as [|n IH]; simpl; [reflexivity|]. rewrite IH. apply cmul_zero_l.
Qed.

Section Phase.
Variable phasor : Q -> complex.

Lemma phaseshift_jit_as_fold (data : cube) (uvw : coords * coords * coords)
    (dl dm : Q) (ints : list Z) :
  _phaseshift_jit phasor data uvw dl dm ints
  = if negb (Qeq_bool dl 0) || negb (Qeq_bool dm 0)
    then fold_left (fun a p => upd_cell (rot phasor uvw dl dm p) p a)
           (phase_cells (length data) (length (data !!! 0%nat))
              (length ((data !!! 0%nat) !!! 0%nat))
              (length (((data !!! 0%nat) !!! 0%nat) !!! 0%nat)) ints)
           data
    else data.
Proof.
  unfold _phaseshift_jit, shape4, phase_cells.
  destruct (negb (Qeq_bool dl 0) || negb (Qeq_bool dm 0)); [|reflexivity].
  rewrite <- for_range_bind. apply for_range_ext. intros j a _.
  rewrite <- for_range_bind. apply for_range_ext. intros k b _.
  rewrite fold_left_bind. apply fold_left_ext. intros c i.
  destruct (wrap_index (length data) i) as [i'|]; [|reflexivity].
  rewrite <- for_range_bind. apply for_range_ext. intros l d _. reflexivity.
Qed.

(** The cell law of the kernel on a rectangular array. *)
Lemma phaseshift_jit_lookup (data : cube) (uvw : coords * coords * coords)
    (dl dm : Q) (ints : list Z) :
  wf_cube data = true ->
  skel4 (_phaseshift_jit phasor data uvw dl dm ints) = skel4 data
  /\ forall a j k l,
       lookup4 (_phaseshift_jit phasor data uvw dl dm ints) a j k l
       = (if Qeq_bool dl 0 && Qeq_bool dm 0
          then fun c => c
          else Nat.iter (occurrences (length data) ints a)
                 (fun c => cmul c (frot phasor uvw dl dm j k)))
         <$> lookup4 data a j k l.
Proof.
  intros Hwf. rewrite phaseshift_jit_as_fold.
  destruct (Qeq_bool dl 0), (Qeq_bool dm 0); simpl;
    try (split; [reflexivity|];
         intros a j k l; now destruct (lookup4 data a j k l)).
  all: split; [apply skel4_fold_cells|]; intros a j k l;
    change (lookup4 ?b a j k l) with (lookup_cell b (a, j, k, l));
    rewrite lookup_fold_cells_iter, count_phase_cells;
    destruct (lookup_cell data (a, j, k, l)) as [c|] eqn:Hc; [|reflexivity];
    rewrite bool_decide_eq_true_2; [reflexivity|];
    pose proof (proj1 (lookup4_rect data _ _ _ _ a j k l (wf_cube_skel _ Hwf))
                  (ex_intro _ c Hc)) as H; tauto.
Qed.

(** X28.  [phase_shift] with a list of integrations: the shape is kept,
    and a sample of the integration [a] is multiplied by the phasor of its
    (baseline, channel) pair once for every time [a] is named in [ints]
    (negative indices count from the end), so a repeated index is rotated
    twice and an integration that is not named is left alone; with
    [dl == 0] and [dm == 0] nothing is changed at all. *)
Theorem phase_shift_rotates_listed (data : cube) (u v w : coords)
    (dl dm : Q) (ints : list Z) :
  wf_cube data = true ->
  length (data !!! 0%nat) = length u ->
  length ((data !!! 0%nat) !!! 0%nat) = length (nth 0 u []) ->
  ints <> [] ->
  exists out,
    phase_shift phasor data (u, v, w) dl dm (Some ints) = Ok out
    /\ skel4 out = skel4 data
    /\ forall a j k l,
         lookup4 out a j k l
         = (if Qeq_bool dl 0 && Qeq_bool dm 0
            then fun c => c
            else Nat.iter (occurrences (length data) ints a)
                   (fun c => cmul c (frot phasor (u, v, w) dl dm j k)))
           <$> lookup4 data a j k l.
Proof.
  intros Hwf Hu Hu' Hints.
  exists (_phaseshift_jit phasor data (u, v, w) dl dm ints). split.
  - unfold phase_shift, shape4. rewrite Hu, Hu', !Nat.eqb_refl. simpl.
    destruct ints; [contradiction|reflexivity].
  - now apply phaseshift_jit_lookup.
Qed.

(** X29.  [phase_shift] without [ints]: when the baseline or channel axis
    of the data differs from the shape of [u] the call fails its assertion,
    whatever else it is given; otherwise, on a non-empty array and a
    non-zero offset, every sample is multiplied exactly once by the phasor
    of its (baseline, channel) pair, and a flagged (zero) sample stays
    flagged. *)
Theorem phase_shift_contract (data : cube) (u v w : coords) (dl dm : Q) :
  wf_cube data = true ->
  (0 < length data)%nat ->
  (length (data !!! 0%nat) <> length u
   \/ length ((data !!! 0%nat) !!! 0%nat) <> length (nth 0 u []) ->
   forall ints, phase_shift phasor data (u, v, w) dl dm ints
                = Raise AssertionError)
  /\ (length (data !!! 0%nat) = length u ->
      length ((data !!! 0%nat) !!! 0%nat) = length (nth 0 u []) ->
      Qeq_bool dl 0 && Qeq_bool dm 0 = false ->
      exists out,
        phase_shift phasor data (u, v, w) dl dm None = Ok out
        /\ skel4 out = skel4 data
        /\ (forall a j k l,
              lookup4 out a j k l
              = (fun c => cmul c (frot phasor (u, v, w) dl dm j k))
                <$> lookup4 data a j k l)
        /\ (forall a j k l,
              lookup4 data a j k l = Some czero ->
              lookup4 out a j k l = Some czero)).
Proof.
  intros Hwf Hlen. split.
  - intros Hne ints. unfold phase_shift, shape4.
    destruct (Nat.eqb_spec (length (data !!! 0%nat)) (length u)) as [E|E];
      [|reflexivity].
    destruct (Nat.eqb_spec (length ((data !!! 0%nat) !!! 0%nat))
                (length (nth 0 u []))) as [E'|E']; [|reflexivity].
    destruct Hne; contradiction.
  - intros Hu Hu' Hoff.
    set (ints := map Z.of_nat (seq 0 (length data))).
    exists (_phaseshift_jit phasor data (u, v, w) dl dm ints).
    destruct (phaseshift_jit_lookup data (u, v, w) dl dm ints Hwf)
      as [Hsk Hlk].
    assert (Hcell : forall a j k l,
              lookup4 (_phaseshift_jit phasor data (u, v, w) dl dm ints) a j k l
              = (fun c => cmul c (frot phasor (u, v, w) dl dm j k))
                <$> lookup4 data a j k l).
    { intros a j k l. rewrite Hlk, Hoff.
      destruct (lookup4 data a j k l) as [c|] eqn:Hc; [|reflexivity].
      unfold ints. rewrite occurrences_range by lia.
      rewrite decide_True; [reflexivity|].
      pose proof (proj1 (lookup4_rect data _ _ _ _ a j k l (wf_cube_skel _ Hwf))
                    (ex_intro _ c Hc)) as H. lia. }
    split; [|split; [exact Hsk|split; [exact Hcell|]]].
    + unfold phase_shift, shape4. rewrite Hu, Hu', !Nat.eqb_refl. simpl.
      fold ints. destruct ints eqn:E; [|reflexivity].
      apply (f_equal length) in E. unfold ints in E.
      rewrite length_map, length_seq in E. simpl in E. lia.
    + intros a j k l Hz. rewrite Hcell, Hz. simpl. now rewrite cmul_zero_l.
Qed.

End Phase.

Lemma phase_shift_rotates_listed_witness :
  exists out,
    phase_shift (fun _ => Cx 0 1) unflagged_cube
      ([[1; 2]], [[0; 0]], [[0; 0]])%Q 1 0 (Some [0; -1; 0]) = Ok out
    /\ this (re (get4 out 0 0 0 0)) = (-1)%Q
    /\ this (im (get4 out 2 0 0 0)) = 5%Q
    /\ this (re (get4 out 1 0 0 0)) = 3%Q.
Proof.
  destruct (phase_shift_rotates_listed (fun _ => Cx 0 1) unflagged_cube
              [[1; 2]]%Q [[0; 0]]%Q [[0; 0]]%Q 1 0 [0; -1; 0])
    as (out & H & _ & _); try reflexivity; [discriminate|].
  exists out. split; [exact H|].
  vm_compute in H. injection H as <-. repeat split.
Defined.

Lemma phase_shift_contract_witness :
  phase_shift (fun _ => Cx 0 1) unflagged_cube
    ([[1; 2]; [3; 4]], [[0; 0]], [[0; 0]])%Q 1 0 (Some [0])
  = Raise AssertionError
  /\ exists out,
       phase_shift (fun _ => Cx 0 1) unflagged_cube
         ([[1; 2]], [[0; 0]], [[0; 0]])%Q 1 0 None = Ok out
       /\ lookup4 out 1 0 1 0
          = Some (cmul (c_of_int 4)
                    (frot (fun _ => Cx 0 1) ([[1; 2]], [[0; 0]], [[0; 0]])%Q
                       1 0 0 1)).
Proof.
  split.
  - apply (proj1 (phase_shift_contract (fun _ => Cx 0 1) unflagged_cube
                    [[1; 2]; [3; 4]]%Q [[0; 0]]%Q [[0; 0]]%Q 1 0
                    eq_refl ltac:(vm_compute; lia))).
    left. vm_compute. discriminate.
  - destruct (proj2 (phase_shift_contract (fun _ => Cx 0 1) unflagged_cube
                       [[1; 2]]%Q [[0; 0]]%Q [[0; 0]]%Q 1 0
                       eq_refl ltac:(vm_compute; lia))
                eq_refl eq_refl eq_refl) as (out & H & _ & Hcell & _).
    exists out. split; [exact H|]. exact (Hcell 1%nat 0%nat 1%nat 0%nat).
Defined.

End PhaseFacts.
(** ** [grid_visibilities_arm_jit]: what lands on a pixel *)

Module ArmFacts.
Import Py Util UtilFacts Arrays ArrayFacts Grid GridFacts Arms.

Lemma fold_cadd_map (v : nat -> complex) (ls : list nat) (c : complex) :
  fold_left (fun c l => cadd c (v l)) ls c = fold_left cadd (map v ls) c.
Proof.
  revert c. induction ls as [|l ls IH]; intros c; simpl; [reflexivity|].
  apply IH.
Qed.

(** If every pass adds the samples [f x] to element [p], the loop adds them
    all, in order. *)
Lemma lookup_for_range_acc (n p : nat)
    (body : nat -> list complex -> list complex) (f : nat -> list complex)
    (row : list complex) :
  (forall x row,
     body x row !! p = (fun c => fold_left cadd (f x) c) <$> row !! p) ->
  for_range n body row !! p
  = (fun c => fold_left cadd (seq 0 n ≫= f) c) <$> row !! p.
Proof.
  intros H. induction n as [|n IH].
  - unfold for_range. simpl. now destruct (row !! p).
  - rewrite for_range_S, H, IH, seq_S, bind_app. simpl.
    destruct (row !! p) as [c|]; [|reflexivity]. simpl.
    now rewrite fold_left_app, app_nil_r.
Qed.

(** One kept pair on one row. *)
Lemma pol_loop_lookup (v : nat -> complex) (npol q p : nat)
    (row : list complex) :
  for_range npol (fun l row => alter (fun c => cadd c (v l)) q row) row !! p
  = (fun c => fold_left cadd
                (if bool_decide (q = p) then map v (seq 0 npol) else []) c)
    <$> row !! p.
Proof.
  rewrite (for_range_alter npol q (fun l c => cadd c (v l))).
  rewrite list_lookup_alter.
  destruct (decide (q = p)) as [->|Hne].
  - rewrite bool_decide_eq_true_2 by reflexivity.
    destruct (row !! p) as [c|]; [|reflexivity]. simpl. f_equal.
    unfold for_range. apply fold_cadd_map.
  - rewrite bool_decide_eq_false_2 by exact Hne.
    now destruct (row !! p).
Qed.

Lemma arm_row_lookup (data : cube) (uvd : coords) (npix uvres : Z)
    (i p : nat) (row : list complex) :
  arm_row data uvd npix uvres i row !! p
  = (fun c => fold_left cadd (arm_samples data uvd npix uvres i p) c)
    <$> row !! p.
Proof.
  unfold arm_row, arm_samples, shape4.
  apply (lookup_for_range_acc _ p _
           (fun j => k ← seq 0 (length ((data !!! 0%nat) !!! 0%nat));
                     if on_pixel uvd npix uvres j k p
                     then map (fun l => get4 data i j k l)
                            (seq 0 (length (((data !!! 0%nat) !!! 0%nat) !!! 0%nat)))
                     else [])).
  intros j row1.
  apply (lookup_for_range_acc _ p _
           (fun k => if on_pixel uvd npix uvres j k p
                     then map (fun l => get4 data i j k l)
                            (seq 0 (length (((data !!! 0%nat) !!! 0%nat) !!! 0%nat)))
                     else [])).
  intros k row2. unfold on_pixel, np_abs_bool. cbv zeta.
  destruct (py_int (scaled uvd uvres j k) <? npix / 2); simpl.
  - apply pol_loop_lookup.
  - now destruct (row2 !! p).
Qed.

Lemma arm_row_length (data : cube) (uvd : coords) (npix uvres : Z)
    (i : nat) (row : list complex) :
  length (arm_row data uvd npix uvres i row) = length row.
Proof.
  unfold arm_row, shape4.
  assert (H : forall {S : Type} (n : nat) (body : nat -> S -> S) (P : S -> Prop)
                (s : S),
            P s -> (forall x s, P s -> P (body x s)) -> P (for_range n body s)).
  { intros S n body P s Hs Hstep. induction n as [|n IH]; [exact Hs|].
    rewrite for_range_S. now apply Hstep. }
  apply (H _ _ _ (fun r => length r = length row)); [reflexivity|].
  intros j r Hr.
  apply (H _ _ _ (fun r => length r = length row)); [exact Hr|].
  intros k r' Hr'. cbv zeta. destruct (np_abs_bool _); [|exact Hr'].
  apply (H _ _ _ (fun r => length r = length row)); [exact Hr'|].
  intros l r'' Hr''. now rewrite length_alter.
Qed.

(** The kernel, one integration at a time. *)
Lemma arm_kernel_lookup (data : cube) (uvd : coords) (npix uvres : Z)
    (grids : uvgrid) (i : nat) :
  for_range (length (data !!! 0%nat)) (fun j =>
    for_range (length ((data !!! 0%nat) !!! 0%nat)) (fun k grids =>
      let uvbl := py_int (scaled uvd uvres j k) in
      if np_abs_bool (uvbl <? npix / 2)
      then
        let uvmod := uvbl mod npix in
        for_range (length data) (fun i =>
          for_range (length (((data !!! 0%nat) !!! 0%nat) !!! 0%nat))
            (fun l grids =>
               upd2 (fun c => cadd c (get4 data i j k l))
                    i (Z.to_nat uvmod) grids)) grids
      else grids)) grids !! i
  = if decide (i < length data)%nat
    then arm_row data uvd npix uvres i <$> grids !! i
    else grids !! i.
Proof.
  unfold arm_row, shape4.
  set (npol := length (((data !!! 0%nat) !!! 0%nat) !!! 0%nat)).
  assert (Hbody : forall j k gs,
    (let uvbl := py_int (scaled uvd uvres j k) in
     if np_abs_bool (uvbl <? npix / 2)
     then
       let uvmod := uvbl mod npix in
       for_range (length data) (fun i =>
         for_range npol (fun l grids =>
           upd2 (fun c => cadd c (get4 data i j k l))
                i (Z.to_nat uvmod) grids)) gs
     else gs) !! i
    = if decide (i < length data)%nat
      then (fun row =>
              let uvbl := py_int (scaled uvd uvres j k) in
              if np_abs_bool (uvbl <? npix / 2)
              then for_range npol (fun l row =>
                     alter (fun c => cadd c (get4 data i j k l))
                           (Z.to_nat (uvbl mod npix)) row) row
              else row) <$> gs !! i
      else gs !! i).
  { intros j k gs. cbv zeta.
    destruct (np_abs_bool (py_int (scaled uvd uvres j k) <? npix / 2)).
    - erewrite for_range_ext.
      2:{ intros i' s _. unfold upd2. apply for_range_alter. }
      apply (lookup_for_range_alter (length data) i
               (fun i' row => for_range npol
                  (fun l row => alter (fun c => cadd c (get4 data i' j k l))
                                  (Z.to_nat (py_int (scaled uvd uvres j k) mod npix))
                                  row) row)).
    - destruct (decide (i < length data)%nat); [|reflexivity].
      now destruct (gs !! i). }
  destruct (decide (i < length data)%nat) as [Hi|Hi].
  - apply lookup_for_range. intros j gs.
    apply lookup_for_range. intros k gs'.
    now rewrite Hbody.
  - apply lookup_for_range_id. intros j gs.
    apply lookup_for_range_id. intros k gs'.
    now rewrite Hbody.
Qed.

Lemma bind_all_nil {A B : Type} (f : A -> list B) (xs : list A) :
  (forall x, x ∈ xs -> f x = []) -> xs ≫= f = [].
Proof.
  induction xs as [|x xs IH]; intros H; csimpl; [reflexivity|].
  rewrite (H x) by apply list_elem_of_here. simpl.
  apply IH. intros y Hy. apply H. now apply list_elem_of_further.
Qed.

Lemma py_int_nonneg (x : Q) : (0 <= x)%Q -> 0 <= py_int x.
Proof.
  intros H. rewrite (py_int_floor x H).
  change 0 with (Qfloor (inject_Z 0)). now apply Qfloor_resp_le.
Qed.

(** With non-negative distances no kept pair falls on the upper half. *)
Lemma upper_half_no_samples (data : cube) (uvd : coords) (npix uvres : Z)
    (i p : nat) :
  0 < uvres ->
  (forall j k, (0 <= coord_at uvd j k)%Q) ->
  npix / 2 <= Z.of_nat p ->
  arm_samples data uvd npix uvres i p = [].
Proof.
  intros Hres Hpos Hp. unfold arm_samples, shape4.
  apply bind_all_nil. intros j _. apply bind_all_nil. intros k _.
  unfold on_pixel. cbv zeta.
  assert (H0 : 0 <= py_int (scaled uvd uvres j k)).
  { apply py_int_nonneg. unfold scaled.
    apply Qle_shift_div_l;
      [change 0%Q with (inject_Z 0); now rewrite <- Zlt_Qlt|].
    rewrite Qmult_0_l. apply Hpos. }
  destruct (Z.ltb_spec (py_int (scaled uvd uvres j k)) (npix / 2)) as [Hlt|Hge];
    [|reflexivity].
  rewrite bool_decide_eq_false_2; [reflexivity|].
  assert (Hnpix : py_int (scaled uvd uvres j k) < npix).
  { assert (npix / 2 <= npix); [|lia].
    destruct (Z.le_gt_cases 0 npix) as [Hn|Hn].
    - apply Z.div_le_upper_bound; lia.
    - exfalso. assert (npix / 2 < 0) by (apply Z.div_lt_upper_bound; lia). lia. }
  rewrite Z.mod_small by lia. lia.
Qed.

(** X30.  The arm gridder with a non-zero [uvres] returns; the grid keeps
    its shape; the pixel [p] of the integration [i] ends with the samples
    of that integration whose (baseline, channel) pair is kept and falls on
    [p] added to it, in the order of the loops; rows beyond the data are
    untouched; and with non-negative uv distances and a positive [uvres] no
    pixel from [npix//2] on is ever written. *)
Theorem arm_gridder_accumulates (data : cube) (uvd : coords) (npix uvres : Z)
    (grids : uvgrid) :
  uvres <> 0 ->
  exists out,
    grid_visibilities_arm_jit data uvd npix uvres grids = Ok out
    /\ map length out = map length grids
    /\ (forall i p, (i < length data)%nat ->
          pixel_at out i p
          = (fun c => fold_left cadd (arm_samples data uvd npix uvres i p) c)
            <$> pixel_at grids i p)
    /\ (forall i p, (length data <= i)%nat ->
          pixel_at out i p = pixel_at grids i p)
    /\ (0 < uvres ->
        (forall j k, (0 <= coord_at uvd j k)%Q) ->
        forall i p, npix / 2 <= Z.of_nat p ->
          pixel_at out i p = pixel_at grids i p).
Proof.
  intros Hres. unfold grid_visibilities_arm_jit, shape4.
  replace (uvres =? 0) with false by (symmetry; apply Z.eqb_neq; exact Hres).
  simpl. eexists. split; [reflexivity|].
  set (out := for_range _ _ grids).
  assert (Hrow : forall i,
            out !! i = if decide (i < length data)%nat
                       then arm_row data uvd npix uvres i <$> grids !! i
                       else grids !! i)
    by (intros i; apply arm_kernel_lookup).
  assert (Hin : forall i p, (i < length data)%nat ->
            pixel_at out i p
            = (fun c => fold_left cadd (arm_samples data uvd npix uvres i p) c)
              <$> pixel_at grids i p).
  { intros i p Hi. unfold pixel_at. rewrite Hrow, decide_True by exact Hi.
    destruct (grids !! i) as [row|]; [|reflexivity]. simpl.
    apply arm_row_lookup. }
  assert (Hout : forall i p, (length data <= i)%nat ->
            pixel_at out i p = pixel_at grids i p).
  { intros i p Hi. unfold pixel_at. now rewrite Hrow, decide_False by lia. }
  split; [|split; [exact Hin|split; [exact Hout|]]].
  - apply list_eq. intros i.
    change (map length out) with (length <$> out).
    change (map length grids) with (length <$> grids).
    rewrite !list_lookup_fmap, Hrow.
    destruct (decide (i < length data)%nat); [|reflexivity].
    destruct (grids !! i) as [row|]; [|reflexivity]. simpl.
    now rewrite arm_row_length.
  - intros Hpos Hd i p Hp.
    destruct (Nat.lt_ge_cases i (length data)) as [Hi|Hi]; [|now apply Hout].
    rewrite (Hin i p Hi), (upper_half_no_samples data uvd npix uvres i p)
      by assumption.
    now destruct (pixel_at grids i p).
Qed.

Lemma arm_gridder_accumulates_witness :
  exists out,
    grid_visibilities_arm_jit grid_example ([[1]; [1]])%Q 4 1
      (replicate 2 (replicate 4 czero)) = Ok out
    /\ pixel_at out 1 1
       = Some (fold_left cadd
                 [c_of_int 5; c_of_int 6; c_of_int 7; c_of_int 8] czero)
    /\ pixel_at out 1 2 = Some czero.
Proof.
  destruct (arm_gridder_accumulates grid_example ([[1]; [1]])%Q 4 1
              (replicate 2 (replicate 4 czero)))
    as (out & H & _ & Hin & _ & Hup); [discriminate|].
  exists out. split; [exact H|]. split.
  - exact (Hin 1%nat 1%nat ltac:(vm_compute; lia)).
  - apply (Hup ltac:(lia)).
    + intros j k. destruct j as [|[|j]]; destruct k as [|k];
        try destruct j; try destruct k; vm_compute; discriminate.
    + vm_compute. discriminate.
Defined.

End ArmFacts.
